(** * The 2D map of the globe viewer: projection, path builder, render cache
      and toggle of [index.js], embedded in Rocq.

    The program is a browser script.  Its input is whatever [JSON.parse]
    returns for the two GeoJSON files, so data is modelled as JavaScript
    values ([value]) and not as typed GeoJSON; numbers are IEEE-754
    binary64 ([float], the kernel's primitive floats); the canvas
    contexts are modelled by the sequence of calls made on them; the
    module-level [let] variables, both canvases, the button, the console
    and the pending callbacks form the [world] that every function of the
    script reads and mutates. *)

From Stdlib Require Import Floats ZArith NArith Uint63.
From stdpp Require Import gmap strings list pretty.

Local Open Scope string_scope.
Local Open Scope list_scope.
Local Set Warnings "-register-all".

(** ** JavaScript values *)

(** What [JSON.parse] can return (null, booleans, numbers, strings, arrays,
    plain objects with string keys) together with [undefined], which a
    read of a missing property or index yields. *)
Inductive value : Type :=
| VUndef
| VNull
| VBool (b : bool)
| VNum (f : float)
| VStr (s : string)
| VArr (l : list value)
| VObj (m : gmap string value).

(** The exceptions the script can meet. *)
Inductive exn : Type :=
| TypeError
| InvalidStateError.

(** [ToBoolean]: the falsy values are undefined, null, false, +0, -0, NaN
    and the empty string. *)
Definition ToBoolean (v : value) : bool :=
  match v with
  | VUndef | VNull => false
  | VBool b => b
  | VNum f => negb (PrimFloat.eqb f 0 || PrimFloat.is_nan f)
  | VStr s => negb (String.eqb s "")
  | VArr _ | VObj _ => true
  end.

(** What the script takes from outside its own file.  The two conversions
    between numbers and their decimal text are the engine's ([StringToNumber]
    and [Number::toString] of ECMA-262); the script reaches them only through
    arithmetic on a coordinate that is not a number.  [drawThreeGeo] is the
    3D geometry builder of [./src/threeGeoJSON.js]: it works on the 3D scene,
    which is not part of the model, and all that matters here is whether it
    returns or throws on a dataset.  Nothing below depends on what the three
    compute. *)
Class Engine : Type := {
  StringToNumber : string -> float;
  NumberToString : float -> string;
  drawThreeGeo : value -> option exn
}.

Section Program.

Context {engine : Engine}.

(** [ToString].  An array converts through [join(",")], where undefined and
    null elements give the empty string.  A plain object converts through
    the inherited [Object.prototype.toString], unless the parsed object has
    an own [toString] key: its value is not callable, [valueOf] returns the
    object itself, and the conversion throws. *)
Fixpoint ToString (v : value) : exn + string :=
  match v with
  | VUndef => inr "undefined"
  | VNull => inr "null"
  | VBool true => inr "true"
  | VBool false => inr "false"
  | VNum f => inr (NumberToString f)
  | VStr s => inr s
  | VArr l =>
      (fix join (l : list value) : exn + string :=
         match l with
         | [] => inr ""
         | x :: r =>
             match (match x with VUndef | VNull => inr "" | _ => ToString x end) with
             | inl e => inl e
             | inr sx =>
                 match r with
                 | [] => inr sx
                 | _ => match join r with
                        | inl e => inl e
                        | inr sr => inr (sx +:+ "," +:+ sr)
                        end
                 end
             end
         end) l
  | VObj m =>
      match m !! "toString" with
      | Some _ => inl TypeError
      | None => inr "[object Object]"
      end
  end.

(** [ToPrimitive]: primitives are themselves, arrays and objects become
    their string. *)
Definition ToPrimitive (v : value) : exn + value :=
  match v with
  | VArr _ | VObj _ =>
      match ToString v with inl e => inl e | inr s => inr (VStr s) end
  | _ => inr v
  end.

(** [ToNumber] of a primitive. *)
Definition ToNumber (v : value) : float :=
  match v with
  | VUndef => nan
  | VNull => 0%float
  | VBool b => if b then 1%float else 0%float
  | VNum f => f
  | VStr s => StringToNumber s
  | VArr _ | VObj _ => nan
  end.

(** [v + k] for a number [k]: string concatenation when [v] converts to a
    string, numeric addition otherwise. *)
Definition js_add (v : value) (k : float) : exn + value :=
  match ToPrimitive v with
  | inl e => inl e
  | inr (VStr s) => inr (VStr (s +:+ NumberToString k))
  | inr p => inr (VNum (ToNumber p + k))
  end.

(** [k - v] for a number [k]. *)
Definition js_sub (k : float) (v : value) : exn + float :=
  match ToPrimitive v with
  | inl e => inl e
  | inr p => inr (k - ToNumber p)%float
  end.

(** [v < k] for a number [k]; a comparison with NaN is false. *)
Definition js_lt (v : value) (k : float) : exn + bool :=
  match ToPrimitive v with
  | inl e => inl e
  | inr p => inr (PrimFloat.ltb (ToNumber p) k)
  end.

(** ** The projection *)

Record point : Type := { x : float; y : float }.

(** [[
function latLonToXY(lat, lon, width, height) {
  const x = (lon + 180) * (width / 360);
  const y = (90 - lat) * (height / 180);
  return { x, y };
}
]]
    [lat] and [lon] are read from the data and can be any value; [width]
    and [height] are numbers at every call site. *)
Definition latLonToXY (lat lon : value) (width height : float) : exn + point :=
  match js_add lon 180 with
  | inl e => inl e
  | inr s =>
      let x := (ToNumber s * (width / 360))%float in
      match js_sub 90 lat with
      | inl e => inl e
      | inr d =>
          let y := (d * (height / 180))%float in
          inr {| x := x; y := y |}
      end
  end.

End Program.

(** ** Canvases, console and world *)

(** The calls the script makes on a 2D context, property assignments
    included.  A canvas is its size and the calls made on its context since
    its bitmap was last reset (assigning [width] or [height] resets bitmap
    and context state); [DrawImage] records the size and the content of the
    source canvas at the time of the call. *)
Inductive ctxop : Type :=
| FillStyle (s : string)
| StrokeStyle (s : string)
| LineWidth (f : float)
| Font (s : string)
| TextAlign (s : string)
| FillRect (x y w h : float)
| ClearRect (x y w h : float)
| SetTransform (a b c d e f : float)
| FillText (s : string) (x y : float)
| BeginPath
| MoveTo (x y : float)
| LineTo (x y : float)
| ClosePath
| Fill
| Stroke
| DrawImage (sw sh : N) (image : list ctxop) (dx dy : float).

Record canvas : Type := { width : N; height : N; calls : list ctxop }.

(** The two contexts a path can be built on: [ctx2D] and [offscreenCtx]. *)
Inductive ctxref : Type := Ctx2D | OffscreenCtx.

Inductive entry : Type :=
| Log (s : string)
| Warn (s : string) (e : exn)
| Error (s : string) (e : exn)
| Uncaught (e : exn).

Record button : Type := { disabled : bool; textContent : string }.

(** The callbacks the script hands to [setTimeout] and
    [requestAnimationFrame]. *)
Inductive callback : Type :=
| CbRender          (* () => render2DMapOffscreen() *)
| CbRenderDisplay   (* () => { render2DMapOffscreen(); display2DMap(); } *)
| CbToggle.         (* the frame callback of toggle2D3D *)

Record world : Type := {
  is3D : bool;
  landData : value;
  outlineData : value;
  map2DRendered : bool;
  canvas2D : canvas;
  offscreenCanvas : canvas;
  canvas2D_display : string;       (* canvas2D.style.display *)
  renderer_display : string;       (* renderer.domElement.style.display *)
  toggleButton : button;
  console : list entry;            (* oldest first *)
  timers : list callback;          (* setTimeout queue, all with delay 100 *)
  frames : list callback           (* requestAnimationFrame queue *)
}.

Definition set_is3D (b : bool) (w : world) : world :=
  {| is3D := b; landData := landData w; outlineData := outlineData w;
     map2DRendered := map2DRendered w; canvas2D := canvas2D w;
     offscreenCanvas := offscreenCanvas w; canvas2D_display := canvas2D_display w;
     renderer_display := renderer_display w; toggleButton := toggleButton w;
     console := console w; timers := timers w; frames := frames w |}.

Definition set_landData (v : value) (w : world) : world :=
  {| is3D := is3D w; landData := v; outlineData := outlineData w;
     map2DRendered := map2DRendered w; canvas2D := canvas2D w;
     offscreenCanvas := offscreenCanvas w; canvas2D_display := canvas2D_display w;
     renderer_display := renderer_display w; toggleButton := toggleButton w;
     console := console w; timers := timers w; frames := frames w |}.

Definition set_outlineData (v : value) (w : world) : world :=
  {| is3D := is3D w; landData := landData w; outlineData := v;
     map2DRendered := map2DRendered w; canvas2D := canvas2D w;
     offscreenCanvas := offscreenCanvas w; canvas2D_display := canvas2D_display w;
     renderer_display := renderer_display w; toggleButton := toggleButton w;
     console := console w; timers := timers w; frames := frames w |}.

Definition set_map2DRendered (b : bool) (w : world) : world :=
  {| is3D := is3D w; landData := landData w; outlineData := outlineData w;
     map2DRendered := b; canvas2D := canvas2D w;
     offscreenCanvas := offscreenCanvas w; canvas2D_display := canvas2D_display w;
     renderer_display := renderer_display w; toggleButton := toggleButton w;
     console := console w; timers := timers w; frames := frames w |}.

Definition set_canvas2D (c : canvas) (w : world) : world :=
  {| is3D := is3D w; landData := landData w; outlineData := outlineData w;
     map2DRendered := map2DRendered w; canvas2D := c;
     offscreenCanvas := offscreenCanvas w; canvas2D_display := canvas2D_display w;
     renderer_display := renderer_display w; toggleButton := toggleButton w;
     console := console w; timers := timers w; frames := frames w |}.

Definition set_offscreenCanvas (c : canvas) (w : world) : world :=
  {| is3D := is3D w; landData := landData w; outlineData := outlineData w;
     map2DRendered := map2DRendered w; canvas2D := canvas2D w;
     offscreenCanvas := c; canvas2D_display := canvas2D_display w;
     renderer_display := renderer_display w; toggleButton := toggleButton w;
     console := console w; timers := timers w; frames := frames w |}.

Definition set_canvas2D_display (d : string) (w : world) : world :=
  {| is3D := is3D w; landData := landData w; outlineData := outlineData w;
     map2DRendered := map2DRendered w; canvas2D := canvas2D w;
     offscreenCanvas := offscreenCanvas w; canvas2D_display := d;
     renderer_display := renderer_display w; toggleButton := toggleButton w;
     console := console w; timers := timers w; frames := frames w |}.

Definition set_renderer_display (d : string) (w : world) : world :=
  {| is3D := is3D w; landData := landData w; outlineData := outlineData w;
     map2DRendered := map2DRendered w; canvas2D := canvas2D w;
     offscreenCanvas := offscreenCanvas w; canvas2D_display := canvas2D_display w;
     renderer_display := d; toggleButton := toggleButton w;
     console := console w; timers := timers w; frames := frames w |}.

Definition set_toggleButton (b : button) (w : world) : world :=
  {| is3D := is3D w; landData := landData w; outlineData := outlineData w;
     map2DRendered := map2DRendered w; canvas2D := canvas2D w;
     offscreenCanvas := offscreenCanvas w; canvas2D_display := canvas2D_display w;
     renderer_display := renderer_display w; toggleButton := b;
     console := console w; timers := timers w; frames := frames w |}.

Definition set_console (c : list entry) (w : world) : world :=
  {| is3D := is3D w; landData := landData w; outlineData := outlineData w;
     map2DRendered := map2DRendered w; canvas2D := canvas2D w;
     offscreenCanvas := offscreenCanvas w; canvas2D_display := canvas2D_display w;
     renderer_display := renderer_display w; toggleButton := toggleButton w;
     console := c; timers := timers w; frames := frames w |}.

Definition set_timers (t : list callback) (w : world) : world :=
  {| is3D := is3D w; landData := landData w; outlineData := outlineData w;
     map2DRendered := map2DRendered w; canvas2D := canvas2D w;
     offscreenCanvas := offscreenCanvas w; canvas2D_display := canvas2D_display w;
     renderer_display := renderer_display w; toggleButton := toggleButton w;
     console := console w; timers := t; frames := frames w |}.

Definition set_frames (f : list callback) (w : world) : world :=
  {| is3D := is3D w; landData := landData w; outlineData := outlineData w;
     map2DRendered := map2DRendered w; canvas2D := canvas2D w;
     offscreenCanvas := offscreenCanvas w; canvas2D_display := canvas2D_display w;
     renderer_display := renderer_display w; toggleButton := toggleButton w;
     console := console w; timers := timers w; frames := f |}.

(** ** Computations: state and exceptions *)

(** A statement either completes with a value or throws; the mutations made
    before a throw stay. *)
Inductive result (A : Type) : Type :=
| Ok (a : A) (w : world)
| Throw (e : exn) (w : world).
Arguments Ok {A} a w.
Arguments Throw {A} e w.

Definition M (A : Type) : Type := world -> result A.

Definition ret {A : Type} (a : A) : M A := fun w => Ok a w.

Definition bind {A B : Type} (m : M A) (k : A -> M B) : M B :=
  fun w => match m w with
           | Ok a w' => k a w'
           | Throw e w' => Throw e w'
           end.

Definition throw {A : Type} (e : exn) : M A := fun w => Throw e w.

(** [try { m } catch (error) { h error }] *)
Definition try_catch (m : M unit) (h : exn -> M unit) : M unit :=
  fun w => match m w with
           | Ok a w' => Ok a w'
           | Throw e w' => h e w'
           end.

Definition gets {A : Type} (f : world -> A) : M A := fun w => Ok (f w) w.

Definition modify (f : world -> world) : M unit := fun w => Ok tt (f w).

Definition lift {A : Type} (r : exn + A) : M A :=
  match r with inl e => throw e | inr a => ret a end.

(** The world a computation leaves, whichever way it ends. *)
Definition final {A : Type} (r : result A) : world :=
  match r with Ok _ w => w | Throw _ w => w end.

Notation "x <~ m ; k" := (bind m (fun x => k))
  (at level 20, m at level 100, k at level 200, only parsing).
Notation "m ;;; k" := (bind m (fun _ => k))
  (at level 100, k at level 200, only parsing, right associativity).

(** ** Helpers for the builtins the script calls *)

(** A canvas dimension ([unsigned long]) read as a number.  Exact below
    2^53. *)
Definition Number_of_N (n : N) : float :=
  PrimFloat.of_uint63 (Uint63.of_Z (Z.of_N n)).

Definition canvas_of (r : ctxref) (w : world) : canvas :=
  match r with Ctx2D => canvas2D w | OffscreenCtx => offscreenCanvas w end.

Definition set_canvas_of (r : ctxref) (c : canvas) (w : world) : world :=
  match r with Ctx2D => set_canvas2D c w | OffscreenCtx => set_offscreenCanvas c w end.

Definition draw (op : ctxop) (c : canvas) : canvas :=
  {| width := width c; height := height c; calls := calls c ++ [op] |}.

(** A call on (or an assignment to a property of) a context. *)
Definition emit (r : ctxref) (op : ctxop) : M unit :=
  modify (fun w => set_canvas_of r (draw op (canvas_of r w)) w).

Definition console_log (s : string) : M unit :=
  modify (fun w => set_console (console w ++ [Log s]) w).

Definition console_warn (s : string) (e : exn) : M unit :=
  modify (fun w => set_console (console w ++ [Warn s e]) w).

Definition console_error (s : string) (e : exn) : M unit :=
  modify (fun w => set_console (console w ++ [Error s e]) w).

(** [setTimeout(cb, 100)] and [requestAnimationFrame(cb)]. *)
Definition setTimeout (cb : callback) : M unit :=
  modify (fun w => set_timers (timers w ++ [cb]) w).

Definition requestAnimationFrame (cb : callback) : M unit :=
  modify (fun w => set_frames (frames w ++ [cb]) w).

(** [v.k] for the property names the script reads with a dot: [features],
    [geometry], [type] and [coordinates].  Reading a property of undefined
    or null throws; no prototype defines one of these names, so only an
    object's own key gives a value. *)
Definition Get (v : value) (k : string) : M value :=
  match v with
  | VUndef | VNull => throw TypeError
  | VObj m => ret (default VUndef (m !! k))
  | VBool _ | VNum _ | VStr _ | VArr _ => ret VUndef
  end.

(** [v[i]] for a truthy [v]; a string is indexed by code unit, with the
    same limit to code units below 256 as in [length_lt]. *)
Definition Index (v : value) (i : nat) : value :=
  match v with
  | VArr l => default VUndef (l !! i)
  | VStr s => match String.get i s with
              | Some c => VStr (String c EmptyString)
              | None => VUndef
              end
  | VObj m => default VUndef (m !! pretty i)
  | VUndef | VNull | VBool _ | VNum _ => VUndef
  end.

(** [v === 'literal'] *)
Definition strict_eq (v : value) (s : string) : bool :=
  match v with VStr t => String.eqb t s | _ => false end.

Section Script.

Context {engine : Engine}.

(** [v.length < k].  The length of an array or of a string is an integer
    below 2^32, for which the comparison of numbers is the comparison of
    integers; an object has the length its own [length] key gives it, and
    booleans and numbers have none ([undefined < k] is false).  A string
    is modelled by its code units, one character of [string] each, so only
    strings whose code units are below 256 have an image here; the
    statements below are about arrays and do not rest on this branch. *)
Definition length_lt (v : value) (k : nat) : M bool :=
  match v with
  | VUndef | VNull => throw TypeError
  | VArr l => ret (length l <? k)%nat
  | VStr s => ret (String.length s <? k)%nat
  | VObj m => lift (js_lt (default VUndef (m !! "length")) (Number_of_N (N.of_nat k)))
  | VBool _ | VNum _ => ret false
  end.

(** [a.forEach((v, index) => f v index)]: only an array has [forEach]; on
    anything else the call throws. *)
Fixpoint forEach_from (i : nat) (l : list value) (f : value -> nat -> M unit) : M unit :=
  match l with
  | [] => ret tt
  | v :: r => f v i ;;; forEach_from (S i) r f
  end.

Definition forEach (a : value) (f : value -> nat -> M unit) : M unit :=
  match a with
  | VArr l => forEach_from 0 l f
  | _ => throw TypeError
  end.

(** [forEach] with a callback that assigns to a variable [s : S] of the
    enclosing function (here [firstPoint]): the variable is threaded through
    the iterations. *)
Fixpoint forEach_var {S : Type} (l : list value) (f : value -> S -> M S) (s : S) : M S :=
  match l with
  | [] => ret s
  | v :: r => s' <~ f v s; forEach_var r f s'
  end.

(** ** The path builder *)

(** The callback both [drawPolygonPath] and [drawLineStringPath] pass to
    the inner [forEach]:
[[
coord => {
  if (!coord || coord.length < 2) return;
  const { x, y } = latLonToXY(coord[1], coord[0], offscreenCanvas.width, offscreenCanvas.height);
  if (firstPoint) {
    context.moveTo(x, y);
    firstPoint = false;
  } else {
    context.lineTo(x, y);
  }
}
]] *)
Definition plotCoord (context : ctxref) (coord : value) (firstPoint : bool) : M bool :=
  if negb (ToBoolean coord) then ret firstPoint else
  short <~ length_lt coord 2;
  if short then ret firstPoint else
  width <~ gets (fun w => width (offscreenCanvas w));
  height <~ gets (fun w => height (offscreenCanvas w));
  p <~ lift (latLonToXY (Index coord 1) (Index coord 0)
                        (Number_of_N width) (Number_of_N height));
  if firstPoint
  then emit context (MoveTo (x p) (y p)) ;;; ret false
  else emit context (LineTo (x p) (y p)) ;;; ret false.

(** [coords.forEach(coord => ...)] with [let firstPoint = true] before it. *)
Definition plotCoords (context : ctxref) (coords : value) : M unit :=
  match coords with
  | VArr l => forEach_var l (plotCoord context) true ;;; ret tt
  | _ => throw TypeError
  end.

(** The callback of the outer [forEach] of [drawPolygonPath]:
[[
ring => {
  if (ring.length < 3) return;
  let firstPoint = true;
  ring.forEach(coord => ...);
  context.closePath();
}
]] *)
Definition drawRing (context : ctxref) (ring : value) : M unit :=
  short <~ length_lt ring 3;
  if short then ret tt else
  plotCoords context ring ;;;
  emit context ClosePath.

(** [[
function drawPolygonPath(coordinates, context) {
  coordinates.forEach(ring => ...);
}
]] *)
Definition drawPolygonPath (coordinates : value) (context : ctxref) : M unit :=
  forEach coordinates (fun ring _ => drawRing context ring).

(** [[
function drawLineStringPath(coordinates, context) {
  if (coordinates.length < 2) return;
  let firstPoint = true;
  coordinates.forEach(coord => ...);
}
]] *)
Definition drawLineStringPath (coordinates : value) (context : ctxref) : M unit :=
  short <~ length_lt coordinates 2;
  if short then ret tt else
  plotCoords context coordinates.

(** [[
function drawGeometryPath(geometry, context) {
  const { type, coordinates } = geometry;
  switch (type) {
    case 'Polygon': drawPolygonPath(coordinates, context); break;
    case 'MultiPolygon': coordinates.forEach(polygon => drawPolygonPath(polygon, context)); break;
    case 'LineString': drawLineStringPath(coordinates, context); break;
    case 'MultiLineString': coordinates.forEach(lineString => drawLineStringPath(lineString, context)); break;
  }
}
]]
    The [switch] compares with [===]: only a string equal to the label
    matches. *)
Definition drawGeometryPath (geometry : value) (context : ctxref) : M unit :=
  type <~ Get geometry "type";
  coordinates <~ Get geometry "coordinates";
  if strict_eq type "Polygon" then
    drawPolygonPath coordinates context
  else if strict_eq type "MultiPolygon" then
    forEach coordinates (fun polygon _ => drawPolygonPath polygon context)
  else if strict_eq type "LineString" then
    drawLineStringPath coordinates context
  else if strict_eq type "MultiLineString" then
    forEach coordinates (fun lineString _ => drawLineStringPath lineString context)
  else ret tt.

(** ** The offscreen render *)

(** [[
function drawLandAreas() {
  if (!landData.features) return;
  offscreenCtx.fillStyle = '#90EE90';
  offscreenCtx.strokeStyle = 'transparent';
  landData.features.forEach((feature, index) => {
    if (!feature.geometry) return;
    try {
      offscreenCtx.beginPath();
      drawGeometryPath(feature.geometry, offscreenCtx);
      offscreenCtx.fill();
    } catch (error) {
      console.warn(`Error drawing land feature ${index}:`, error);
    }
  });
}
]] *)
Definition drawLandFeature (feature : value) (index : nat) : M unit :=
  geometry <~ Get feature "geometry";
  if negb (ToBoolean geometry) then ret tt else
  try_catch
    (emit OffscreenCtx BeginPath ;;;
     drawGeometryPath geometry OffscreenCtx ;;;
     emit OffscreenCtx Fill)
    (fun error =>
       console_warn ("Error drawing land feature " +:+ pretty index +:+ ":") error).

Definition drawLandAreas : M unit :=
  land_ <~ gets landData;
  features <~ Get land_ "features";
  if negb (ToBoolean features) then ret tt else
  emit OffscreenCtx (FillStyle "#90EE90") ;;;
  emit OffscreenCtx (StrokeStyle "transparent") ;;;
  forEach features drawLandFeature.

(** [[
function drawCountryBorders() {
  if (!outlineData.features) return;
  offscreenCtx.strokeStyle = '#000000';
  offscreenCtx.fillStyle = 'transparent';
  offscreenCtx.lineWidth = 1;
  outlineData.features.forEach((feature, index) => {
    if (!feature.geometry) return;
    try {
      offscreenCtx.beginPath();
      drawGeometryPath(feature.geometry, offscreenCtx);
      offscreenCtx.stroke();
    } catch (error) {
      console.warn(`Error drawing country border ${index}:`, error);
    }
  });
}
]] *)
Definition drawBorderFeature (feature : value) (index : nat) : M unit :=
  geometry <~ Get feature "geometry";
  if negb (ToBoolean geometry) then ret tt else
  try_catch
    (emit OffscreenCtx BeginPath ;;;
     drawGeometryPath geometry OffscreenCtx ;;;
     emit OffscreenCtx Stroke)
    (fun error =>
       console_warn ("Error drawing country border " +:+ pretty index +:+ ":") error).

Definition drawCountryBorders : M unit :=
  outline_ <~ gets outlineData;
  features <~ Get outline_ "features";
  if negb (ToBoolean features) then ret tt else
  emit OffscreenCtx (StrokeStyle "#000000") ;;;
  emit OffscreenCtx (FillStyle "transparent") ;;;
  emit OffscreenCtx (LineWidth 1) ;;;
  forEach features drawBorderFeature.

(** [[
function render2DMapOffscreen() {
  if (!landData || !outlineData || map2DRendered) return;
  console.log('Pre-rendering 2D map offscreen...');
  offscreenCtx.fillStyle = '#4A90E2';
  offscreenCtx.fillRect(0, 0, offscreenCanvas.width, offscreenCanvas.height);
  drawLandAreas();
  drawCountryBorders();
  map2DRendered = true;
  console.log('2D map pre-rendering completed');
}
]] *)
Definition render2DMapOffscreen : M unit :=
  land_ <~ gets landData;
  outline_ <~ gets outlineData;
  rendered <~ gets map2DRendered;
  if negb (ToBoolean land_) || negb (ToBoolean outline_) || rendered then ret tt else
  console_log "Pre-rendering 2D map offscreen..." ;;;
  emit OffscreenCtx (FillStyle "#4A90E2") ;;;
  width <~ gets (fun w => width (offscreenCanvas w));
  height <~ gets (fun w => height (offscreenCanvas w));
  emit OffscreenCtx (FillRect 0 0 (Number_of_N width) (Number_of_N height)) ;;;
  drawLandAreas ;;;
  drawCountryBorders ;;;
  modify (set_map2DRendered true) ;;;
  console_log "2D map pre-rendering completed".

(** ** Display and toggle *)

(** [ctx2D.drawImage(offscreenCanvas, 0, 0)]: a source canvas with a zero
    width or height makes [drawImage] throw an [InvalidStateError]. *)
Definition drawImage_offscreen : M unit :=
  src <~ gets offscreenCanvas;
  if (width src =? 0)%N || (height src =? 0)%N then throw InvalidStateError else
  emit Ctx2D (DrawImage (width src) (height src) (calls src) 0 0).

(** [[
function display2DMap() {
  ctx2D.clearRect(0, 0, canvas2D.width, canvas2D.height);
  ctx2D.drawImage(offscreenCanvas, 0, 0);
  console.log('2D map displayed');
}
]] *)
Definition display2DMap : M unit :=
  width <~ gets (fun w => width (canvas2D w));
  height <~ gets (fun w => height (canvas2D w));
  emit Ctx2D (ClearRect 0 0 (Number_of_N width) (Number_of_N height)) ;;;
  drawImage_offscreen ;;;
  console_log "2D map displayed".

(** [[
function cleanupCanvas2D() {
  ctx2D.clearRect(0, 0, canvas2D.width, canvas2D.height);
  ctx2D.setTransform(1, 0, 0, 1, 0, 0);
}
]] *)
Definition cleanupCanvas2D : M unit :=
  width <~ gets (fun w => width (canvas2D w));
  height <~ gets (fun w => height (canvas2D w));
  emit Ctx2D (ClearRect 0 0 (Number_of_N width) (Number_of_N height)) ;;;
  emit Ctx2D (SetTransform 1 0 0 1 0 0).

(** The statements of the [try] block of the frame callback of
    [toggle2D3D]:
[[
is3D = !is3D;
if (is3D) {
  console.log('Switching to 3D mode...');
  cleanupCanvas2D();
  renderer.domElement.style.display = 'block';
  canvas2D.style.display = 'none';
} else {
  console.log('Switching to 2D mode...');
  renderer.domElement.style.display = 'none';
  canvas2D.style.display = 'block';
  if (map2DRendered) {
    display2DMap();
  } else {
    ctx2D.fillStyle = '#4A90E2';
    ctx2D.fillRect(0, 0, canvas2D.width, canvas2D.height);
    ctx2D.fillStyle = 'white';
    ctx2D.font = '24px Arial';
    ctx2D.textAlign = 'center';
    ctx2D.fillText('2D Map Loading...', canvas2D.width/2, canvas2D.height/2);
    setTimeout(() => { render2DMapOffscreen(); display2DMap(); }, 100);
  }
}
button.disabled = false;
button.textContent = is3D ? 'Switch to 2D Map' : 'Switch to 3D Globe';
]] *)
Definition toggleSwitch : M unit :=
  modify (fun w => set_is3D (negb (is3D w)) w) ;;;
  now3D <~ gets is3D;
  (if now3D then
     console_log "Switching to 3D mode..." ;;;
     cleanupCanvas2D ;;;
     modify (set_renderer_display "block") ;;;
     modify (set_canvas2D_display "none")
   else
     console_log "Switching to 2D mode..." ;;;
     modify (set_renderer_display "none") ;;;
     modify (set_canvas2D_display "block") ;;;
     rendered <~ gets map2DRendered;
     if rendered then display2DMap else
     width <~ gets (fun w => width (canvas2D w));
     height <~ gets (fun w => height (canvas2D w));
     emit Ctx2D (FillStyle "#4A90E2") ;;;
     emit Ctx2D (FillRect 0 0 (Number_of_N width) (Number_of_N height)) ;;;
     emit Ctx2D (FillStyle "white") ;;;
     emit Ctx2D (Font "24px Arial") ;;;
     emit Ctx2D (TextAlign "center") ;;;
     emit Ctx2D (FillText "2D Map Loading..."
                   (Number_of_N width / 2) (Number_of_N height / 2)) ;;;
     setTimeout CbRenderDisplay) ;;;
  now3D <~ gets is3D;
  modify (set_toggleButton
            {| disabled := false;
               textContent := if now3D then "Switch to 2D Map" else "Switch to 3D Globe" |}).

(** The frame callback of [toggle2D3D]:
[[
try { ... } catch (error) {
  console.error('Error during toggle:', error);
  button.disabled = false;
  button.textContent = 'Toggle Failed - Try Again';
}
]] *)
Definition toggleFrame : M unit :=
  try_catch toggleSwitch
    (fun error =>
       console_error "Error during toggle:" error ;;;
       modify (set_toggleButton
                 {| disabled := false; textContent := "Toggle Failed - Try Again" |})).

(** [[
function toggle2D3D() {
  const button = document.getElementById('toggle-button');
  if (button.disabled) return;
  button.disabled = true;
  button.textContent = 'Switching...';
  requestAnimationFrame(() => { ... });
}
]] *)
Definition toggle2D3D : M unit :=
  button <~ gets toggleButton;
  if disabled button then ret tt else
  modify (set_toggleButton {| disabled := true; textContent := "Switching..." |}) ;;;
  requestAnimationFrame CbToggle.

(** Assigning [width] then [height] of a canvas: each assignment resets the
    bitmap and the context. *)
Definition resize_canvas (newWidth newHeight : N) (c : canvas) : canvas :=
  {| width := newWidth; height := newHeight; calls := [] |}.

(** [[
function handleWindowResize () {
  const newWidth = window.innerWidth;
  const newHeight = window.innerHeight;
  camera.aspect = newWidth / newHeight;
  camera.updateProjectionMatrix();
  renderer.setSize(newWidth, newHeight);
  canvas2D.width = newWidth;
  canvas2D.height = newHeight;
  offscreenCanvas.width = newWidth;
  offscreenCanvas.height = newHeight;
  map2DRendered = false;
  if (!is3D && landData && outlineData) {
    setTimeout(() => { render2DMapOffscreen(); display2DMap(); }, 100);
  }
}
]]
    The window's size is the argument; camera and renderer belong to the 3D
    scene, which is not modelled. *)
Definition handleWindowResize (newWidth newHeight : N) : M unit :=
  modify (fun w => set_canvas2D (resize_canvas newWidth newHeight (canvas2D w)) w) ;;;
  modify (fun w => set_offscreenCanvas (resize_canvas newWidth newHeight (offscreenCanvas w)) w) ;;;
  modify (set_map2DRendered false) ;;;
  now3D <~ gets is3D;
  land_ <~ gets landData;
  outline_ <~ gets outlineData;
  if negb now3D && ToBoolean land_ && ToBoolean outline_
  then setTimeout CbRenderDisplay
  else ret tt.

(** The two [fetch(...).then(...).then(text => ...)] handlers, from the
    parsed [data] on:
[[
landData = data;
const countries = drawThreeGeo({ json: data, ... });
scene.add(countries);
if (outlineData) { setTimeout(() => render2DMapOffscreen(), 100); }
]] *)
Definition landLoaded (data : value) : M unit :=
  modify (set_landData data) ;;;
  match drawThreeGeo data with
  | Some e => throw e
  | None =>
      outline_ <~ gets outlineData;
      if ToBoolean outline_ then setTimeout CbRender else ret tt
  end.

Definition outlineLoaded (data : value) : M unit :=
  modify (set_outlineData data) ;;;
  match drawThreeGeo data with
  | Some e => throw e
  | None =>
      land_ <~ gets landData;
      if ToBoolean land_ then setTimeout CbRender else ret tt
  end.

(** ** The event loop *)

Definition run_callback (cb : callback) : M unit :=
  match cb with
  | CbRender => render2DMapOffscreen
  | CbRenderDisplay => render2DMapOffscreen ;;; display2DMap
  | CbToggle => toggleFrame
  end.

(** What the browser can make the script do: a click on the button, the
    next animation frame, the oldest timer expiring, a resize of the window
    to a new size, and the arrival of either dataset. *)
Inductive event : Type :=
| Click
| Frame
| Timer
| Resize (newWidth newHeight : N)
| LandLoaded (data : value)
| OutlineLoaded (data : value).

Definition handler (ev : event) : M unit :=
  match ev with
  | Click => toggle2D3D
  | Frame =>
      q <~ gets frames;
      match q with
      | [] => ret tt
      | cb :: rest => modify (set_frames rest) ;;; run_callback cb
      end
  | Timer =>
      q <~ gets timers;
      match q with
      | [] => ret tt
      | cb :: rest => modify (set_timers rest) ;;; run_callback cb
      end
  | Resize newWidth newHeight => handleWindowResize newWidth newHeight
  | LandLoaded data => landLoaded data
  | OutlineLoaded data => outlineLoaded data
  end.

(** One turn of the event loop: an exception that leaves a handler is
    reported on the console and the loop goes on. *)
Definition step (w : world) (ev : event) : world :=
  match handler ev w with
  | Ok _ w' => w'
  | Throw e w' => set_console (console w' ++ [Uncaught e]) w'
  end.

Definition run (w : world) (evs : list event) : world := fold_left step evs w.

End Script.
(** ** Vocabulary of the statements *)

(** [paint r ops w]: the world [w] after the calls [ops] on context [r]. *)
Definition paint (r : ctxref) (ops : list ctxop) (w : world) : world :=
  set_canvas_of r
    {| width := width (canvas_of r w); height := height (canvas_of r w);
       calls := calls (canvas_of r w) ++ ops |} w.

(** A GeoJSON position: an array that starts with two numbers, longitude
    first. *)
Record position : Type := { lon : float; lat : float; more : list value }.

Definition position_value (p : position) : value :=
  VArr (VNum (lon p) :: VNum (lat p) :: more p).

Definition as_position (v : value) : option position :=
  match v with
  | VArr (VNum lon :: VNum lat :: more) => Some {| lon := lon; lat := lat; more := more |}
  | _ => None
  end.

(** A coordinate entry that is missing or has fewer than two components. *)
Definition malformed (v : value) : bool :=
  match v with
  | VUndef | VNull => true
  | VArr l => (length l <? 2)%nat
  | _ => false
  end.

(** The pixel of a position on a canvas [width] by [height], as
    [latLonToXY] computes it. *)
Definition project (width height : N) (p : position) : point :=
  {| x := ((lon p + 180) * (Number_of_N width / 360))%float;
     y := ((90 - lat p) * (Number_of_N height / 180))%float |}.

(** The sub-path the spec describes for a sequence of points: a [moveTo]
    for the first, a [lineTo] for each later one; closed by [closePath]. *)
Definition open_path (width height : N) (ps : list position) : list ctxop :=
  match ps with
  | [] => []
  | p :: rest =>
      MoveTo (x (project width height p)) (y (project width height p))
      :: map (fun q => LineTo (x (project width height q)) (y (project width height q))) rest
  end.

Definition closed_path (width height : N) (ps : list position) : list ctxop :=
  open_path width height ps ++ [ClosePath].

(** The [type] of a geometry that is not undefined or null. *)
Definition type_of (geometry : value) : value :=
  match geometry with
  | VObj m => default VUndef (m !! "type")
  | _ => VUndef
  end.

Definition known_types : list value :=
  [VStr "Polygon"; VStr "MultiPolygon"; VStr "LineString"; VStr "MultiLineString"].

(** The calls the coordinate loop makes for the points [ps], by whether the
    first of them is the first point of its sub-path. *)
Definition path_from (firstPoint : bool) (width height : N) (ps : list position) : list ctxop :=
  if firstPoint then open_path width height ps
  else map (fun q => LineTo (x (project width height q)) (y (project width height q))) ps.

(** An entry the coordinate loop either skips or plots as a position. *)
Definition plottable (v : value) : Prop :=
  malformed v = true \/ is_Some (as_position v).

(** ** Sample data for the witnesses *)

Definition an_engine : Engine :=
  {| StringToNumber := fun _ => nan; NumberToString := fun _ => ""; drawThreeGeo := fun _ => None |}.

Definition a_canvas : canvas := {| width := 360; height := 180; calls := [] |}.
Definition a_world : world :=
  {| is3D := true; landData := VNull; outlineData := VNull; map2DRendered := false;
     canvas2D := a_canvas; offscreenCanvas := a_canvas;
     canvas2D_display := "none"; renderer_display := "block";
     toggleButton := {| disabled := false; textContent := "Switch to 2D Map" |};
     console := []; timers := []; frames := [] |}.

(** The ring [[0,0],[10,0],[10,10]] of the spec's example, the Polygon made
    of it, and a feature with that geometry. *)
Definition triangle : value :=
  VArr [VArr [VNum 0; VNum 0]; VArr [VNum 10; VNum 0]; VArr [VNum 10; VNum 10]].

Definition triangle_polygon : value :=
  VObj (<["type" := VStr "Polygon"]> (<["coordinates" := VArr [triangle]]> ∅)).

Definition triangle_feature : value :=
  VObj (<["type" := VStr "Feature"]> (<["geometry" := triangle_polygon]> ∅)).

(** A ring with a missing entry, an empty entry and an entry of one
    component among three positions. *)
Definition patchy_ring : list value :=
  [VNull; VArr [VNum 0; VNum 0]; VArr []; VArr [VNum 10; VNum 0]; VArr [VNum 5];
   VArr [VNum 10; VNum 10]].

(** A geometry of a type the dispatcher does not know. *)
Definition a_point : value :=
  VObj (<["type" := VStr "Point"]> (<["coordinates" := VArr [VNum 0; VNum 0]]> ∅)).

(** [respects R m]: whichever way [m] ends, the world it leaves is related
    by [R] to the world it started in. *)
Definition respects {A : Type} (R : relation world) (m : M A) : Prop :=
  forall w : world, R w (final (m w)).

(** The [features] of a dataset that is not undefined or null. *)
Definition features_of (data : value) : value :=
  match data with
  | VObj m => default VUndef (m !! "features")
  | _ => VUndef
  end.

(** A dataset the draw passes go through: its [features] is falsy (the pass
    returns at once) or an array none of whose entries is undefined or
    null. *)
Definition drawable (data : value) : Prop :=
  ToBoolean (features_of data) = false
  \/ exists l : list value,
       features_of data = VArr l /\ Forall (fun f => f <> VUndef /\ f <> VNull) l.

(** What the draw passes leave alone: the datasets and the rendered flag. *)
Definition same_data (w w' : world) : Prop :=
  landData w' = landData w
  /\ outlineData w' = outlineData w
  /\ map2DRendered w' = map2DRendered w.

(** A dataset whose [features] is not an array, and a world where both
    datasets are that one. *)
Definition no_list : value := VObj (<["features" := VNum 5]> ∅).

Definition no_list_world : world :=
  {| is3D := true; landData := no_list; outlineData := no_list; map2DRendered := false;
     canvas2D := a_canvas; offscreenCanvas := a_canvas;
     canvas2D_display := "none"; renderer_display := "block";
     toggleButton := {| disabled := false; textContent := "Switch to 2D Map" |};
     console := []; timers := []; frames := [] |}.

(** A dataset with the triangle as its only feature, and a world where both
    datasets are that one. *)
Definition triangle_data : value := VObj (<["features" := VArr [triangle_feature]]> ∅).

Definition triangle_world : world :=
  {| is3D := true; landData := triangle_data; outlineData := triangle_data;
     map2DRendered := false;
     canvas2D := a_canvas; offscreenCanvas := a_canvas;
     canvas2D_display := "none"; renderer_display := "block";
     toggleButton := {| disabled := false; textContent := "Switch to 2D Map" |};
     console := []; timers := []; frames := [] |}.

(** A feature whose Polygon has no [coordinates] (drawing it throws), and a
    dataset with that feature, a null entry and the triangle, in this
    order; a world where both datasets are that one. *)
Definition broken_feature : value :=
  VObj (<["geometry" := VObj (<["type" := VStr "Polygon"]> ∅)]> ∅).

Definition holed_data : value :=
  VObj (<["features" := VArr [broken_feature; VNull; triangle_feature]]> ∅).

Definition holed_world : world :=
  {| is3D := true; landData := holed_data; outlineData := holed_data;
     map2DRendered := false;
     canvas2D := a_canvas; offscreenCanvas := a_canvas;
     canvas2D_display := "none"; renderer_display := "block";
     toggleButton := {| disabled := false; textContent := "Switch to 2D Map" |};
     console := []; timers := []; frames := [] |}.

(** The same dataset without the null entry. *)
Definition mended_data : value :=
  VObj (<["features" := VArr [broken_feature; triangle_feature]]> ∅).

Definition mended_world : world :=
  {| is3D := true; landData := mended_data; outlineData := mended_data;
     map2DRendered := false;
     canvas2D := a_canvas; offscreenCanvas := a_canvas;
     canvas2D_display := "none"; renderer_display := "block";
     toggleButton := {| disabled := false; textContent := "Switch to 2D Map" |};
     console := []; timers := []; frames := [] |}.

(** A world in 3D mode whose cache flag is set while the offscreen canvas is
    zero pixels wide, the frame callback of a click pending. *)
Definition flat_world : world :=
  {| is3D := true; landData := triangle_data; outlineData := triangle_data;
     map2DRendered := true;
     canvas2D := {| width := 0; height := 180; calls := [] |};
     offscreenCanvas := {| width := 0; height := 180; calls := [] |};
     canvas2D_display := "none"; renderer_display := "block";
     toggleButton := {| disabled := true; textContent := "Switching..." |};
     console := []; timers := []; frames := [CbToggle] |}.

(** The two console lines that bracket a display: the render announces
    itself before it composes the map, and [display2DMap] reports the blit
    once it is done. *)
Definition pre_render_entry : entry := Log "Pre-rendering 2D map offscreen...".
Definition displayed_entry : entry := Log "2D map displayed".

(** In the console lines [t], every report of a display comes after an
    announcement of a render. *)
Definition display_follows_render (t : list entry) : Prop :=
  forall a b : list entry, t = a ++ displayed_entry :: b -> pre_render_entry ∈ a.

(** The events of the user and of the clock: all but the arrival of a
    dataset. *)
Definition user_event (ev : event) : Prop :=
  match ev with
  | LandLoaded _ | OutlineLoaded _ => False
  | Click | Frame | Timer | Resize _ _ => True
  end.

(** The callback the event loop runs on [ev] in world [w], if any. *)
Definition next_callback (w : world) (ev : event) : option callback :=
  match ev with
  | Timer => head (timers w)
  | Frame => head (frames w)
  | Click | Resize _ _ | LandLoaded _ | OutlineLoaded _ => None
  end.

(** The callbacks whose first statement is [render2DMapOffscreen()]. *)
Definition begins_with_render (cb : callback) : Prop :=
  cb = CbRender \/ cb = CbRenderDisplay.

(** On [ev] in world [w] the event loop runs a callback that invokes
    [render2DMapOffscreen]. *)
Definition invokes_render (w : world) (ev : event) : Prop :=
  exists cb : callback, next_callback w ev = Some cb /\ begins_with_render cb.

(** Among the events [evs] handled from [w] on, one invoked
    [render2DMapOffscreen]. *)
Definition render_invoked {engine : Engine} (w : world) (evs : list event) : Prop :=
  exists (pre post : list event) (ev : event),
    evs = pre ++ ev :: post /\ invokes_render (run w pre) ev.

(** [says P w w']: from [w] to [w'] the datasets are the same and the
    console has grown by lines that satisfy [P]; [logs P w w'] when the
    flag is the same too. *)
Definition says (P : entry -> Prop) (w w' : world) : Prop :=
  landData w' = landData w
  /\ outlineData w' = outlineData w
  /\ exists t : list entry, console w' = console w ++ t /\ Forall P t.

Definition logs (P : entry -> Prop) (w w' : world) : Prop :=
  map2DRendered w' = map2DRendered w /\ says P w w'.

Definition not_displayed (e : entry) : Prop := e <> displayed_entry.
Definition any_entry (e : entry) : Prop := True.

(** What the frame callback of the toggle may write: anything when the flag
    is set, no report of a display when it is not. *)
Definition logs_by_flag (w w' : world) : Prop :=
  logs any_entry w w' /\ (map2DRendered w = false -> logs not_displayed w w').

(** Both datasets have arrived. *)
Definition loaded (w : world) : Prop :=
  ToBoolean (landData w) = true /\ ToBoolean (outlineData w) = true.

(** The statements of [render2DMapOffscreen] after its guard and its first
    console line. *)
Definition after_announcement {engine : Engine} : M unit :=
  emit OffscreenCtx (FillStyle "#4A90E2") ;;;
  width <~ gets (fun w => width (offscreenCanvas w));
  height <~ gets (fun w => height (offscreenCanvas w));
  emit OffscreenCtx (FillRect 0 0 (Number_of_N width) (Number_of_N height)) ;;;
  drawLandAreas ;;;
  drawCountryBorders ;;;
  modify (set_map2DRendered true) ;;;
  console_log "2D map pre-rendering completed".

(** What handling one event or callback does to console and flag, from [w]
    to [w']: a display is reported, and the flag gets set, only if the flag
    was set before or [by_render] (a render was invoked); and when both
    datasets are there and the flag was not set, every reported display
    follows an announcement of the render, and so does the setting of the
    flag. *)
Definition handled (by_render : Prop) (w w' : world) : Prop :=
  exists u : list entry,
    console w' = console w ++ u
    /\ (displayed_entry ∈ u -> map2DRendered w = true \/ by_render)
    /\ (map2DRendered w' = true -> map2DRendered w = true \/ by_render)
    /\ (loaded w -> map2DRendered w = false ->
        display_follows_render u /\ (map2DRendered w' = true -> pre_render_entry ∈ u)).

(** ** Binary64 numbers in order

    The vocabulary of the monotonicity of the projection: the non-negative
    binary64 numbers are counted in increasing order, and each operation of
    [latLonToXY] is described by the count of its result. *)

Section Ordinals.

Local Open Scope Z_scope.

(** The exponent of the binary64 numbers of magnitude [mag]. *)
Definition fexp64 (mag : Z) : Z := Z.max (mag - 53) (-1074).

(** The position of a non-negative binary64 number among the non-negative
    ones: 0 for zero, [(e + 1074) * 2^52 + m] for the number of mantissa [m]
    and exponent [e], anything from [2047 * 2^52] on for infinity. *)
Definition repr (f : spec_float) (o : Z) : Prop :=
  match f with
  | S754_zero false => o = 0
  | S754_finite false m e => o = (e + 1074) * 2 ^ 52 + Zpos m
  | S754_infinity false => 2047 * 2 ^ 52 <= o
  | _ => False
  end.

(** The value of a finite number in units of [2^-1074]; every finite
    binary64 number is a whole number of them. *)
Definition Zv (f : spec_float) : Z :=
  match f with
  | S754_finite s m e => (if s then -1 else 1) * (Zpos m * 2 ^ (e + 1074))
  | _ => 0
  end.

(** A number that is zero or finite, of either sign. *)
Definition finite_SF (f : spec_float) : bool :=
  match f with
  | S754_zero _ | S754_finite _ _ _ => true
  | _ => false
  end.

(** Round to nearest, ties to even, of [n / 2^s]. *)
Definition RNE (n s : Z) : Z :=
  let q := Z.div n (2 ^ s) in
  match (2 * Z.modulo n (2 ^ s) ?= 2 ^ s) with
  | Lt => q
  | Eq => if Z.even q then q else q + 1
  | Gt => q + 1
  end.

(** The position of the binary64 number nearest to [n * 2^e], for a
    positive [n] written with at least as many bits as the format keeps. *)
Definition ordG (n e : Z) : Z :=
  let E := fexp64 (Z.log2 n + 1 + e) in
  (E + 1074) * 2 ^ 52 + RNE n (E - e).

(** The position of the number nearest to [n] units of [2^k]. *)
Definition ord_at (k n : Z) : Z := if n <=? 0 then 0 else ordG n k.

(** A number that is zero or positive. *)
Definition nonneg_SF (f : spec_float) : bool :=
  match f with
  | S754_zero false | S754_finite false _ _ => true
  | _ => false
  end.

End Ordinals.

(** ** Vocabulary of the geometries *)

(** The calls a ring makes: none when it has fewer than three entries,
    the closed sub-path of the positions among its entries otherwise; and
    the same for a line, of two entries or more and left open. *)
Definition ring_path (width height : N) (ring : list value) : list ctxop :=
  if (length ring <? 3)%nat then []
  else closed_path width height (omap as_position ring).

Definition line_path (width height : N) (line : list value) : list ctxop :=
  if (length line <? 2)%nat then []
  else open_path width height (omap as_position line).

Definition polygon_path (width height : N) (rings : list (list value)) : list ctxop :=
  concat (map (ring_path width height) rings).

(** The four geometries [drawGeometryPath] draws, by their coordinates:
    rings and lines are lists of entries. *)
Inductive shape : Type :=
| Polygon (rings : list (list value))
| MultiPolygon (polygons : list (list (list value)))
| LineString (line : list value)
| MultiLineString (lines : list (list value)).

Definition type_name (g : shape) : string :=
  match g with
  | Polygon _ => "Polygon"
  | MultiPolygon _ => "MultiPolygon"
  | LineString _ => "LineString"
  | MultiLineString _ => "MultiLineString"
  end.

Definition polygon_value (rings : list (list value)) : value := VArr (map VArr rings).

Definition coordinates_value (g : shape) : value :=
  match g with
  | Polygon rings => polygon_value rings
  | MultiPolygon polygons => VArr (map polygon_value polygons)
  | LineString line => VArr line
  | MultiLineString lines => VArr (map VArr lines)
  end.

(** The rings and lines of a geometry. *)
Definition strands (g : shape) : list (list value) :=
  match g with
  | Polygon rings => rings
  | MultiPolygon polygons => concat polygons
  | LineString line => [line]
  | MultiLineString lines => lines
  end.

(** Every entry of every ring or line is skipped or plotted. *)
Definition well_formed (g : shape) : Prop := Forall (Forall plottable) (strands g).

Definition geometry_path (width height : N) (g : shape) : list ctxop :=
  match g with
  | Polygon rings => polygon_path width height rings
  | MultiPolygon polygons => concat (map (polygon_path width height) polygons)
  | LineString line => line_path width height line
  | MultiLineString lines => concat (map (line_path width height) lines)
  end.

(** [geometry] is an object whose [type] and [coordinates] are those of
    [g]; its other keys are free. *)
Definition has_shape (geometry : value) (g : shape) : Prop :=
  exists m : gmap string value,
    geometry = VObj m
    /\ m !! "type" = Some (VStr (type_name g))
    /\ m !! "coordinates" = Some (coordinates_value g).

(** The calls that build a path. *)
Definition path_op (op : ctxop) : Prop :=
  match op with
  | MoveTo _ _ | LineTo _ _ | ClosePath => True
  | _ => False
  end.

(** From [w] to [w'] nothing happened but calls that build a path on
    [context]. *)
Definition only_paths (context : ctxref) (w w' : world) : Prop :=
  exists ops : list ctxop, Forall path_op ops /\ w' = paint context ops w.

(** A MultiPolygon of two polygons, the second with a hole and a ring too
    short to be drawn. *)
Definition two_polygons : shape :=
  MultiPolygon
    [[[VArr [VNum 0; VNum 0]; VArr [VNum 10; VNum 0]; VArr [VNum 10; VNum 10]]];
     [[VArr [VNum 20; VNum 0]; VArr [VNum 40; VNum 0]; VArr [VNum 40; VNum 20]; VNull];
      [VArr [VNum 30; VNum 5]; VArr [VNum 35; VNum 5]; VArr [VNum 35; VNum 10]];
      [VArr [VNum 1; VNum 1]; VArr [VNum 2; VNum 2]]]].

Definition two_polygons_value : value :=
  VObj (<["type" := VStr "MultiPolygon"]>
          (<["coordinates" := coordinates_value two_polygons]>
             (<["bbox" := VArr [VNum 0; VNum 0; VNum 40; VNum 20]]> ∅))).

(** ** Vocabulary of the draw passes *)

(** A feature as the draw passes see it: an object without a geometry to
    draw ([geometry] missing, null or otherwise falsy), or with a
    well-formed geometry of one of the four types. *)
Definition has_feature (feature : value) (og : option shape) : Prop :=
  exists m : gmap string value,
    feature = VObj m
    /\ match og with
       | None => ToBoolean (default VUndef (m !! "geometry")) = false
       | Some g =>
           exists geometry : value,
             m !! "geometry" = Some geometry /\ has_shape geometry g /\ well_formed g
       end.

(** A dataset whose [features] is an array of such features. *)
Definition has_features (data : value) (gs : list (option shape)) : Prop :=
  exists (d : gmap string value) (fs : list value),
    data = VObj d /\ d !! "features" = Some (VArr fs) /\ Forall2 has_feature fs gs.

(** The calls for one feature: a path of its own, then [finish] (fill or
    stroke). *)
Definition feature_ops (finish : ctxop) (width height : N) (og : option shape) : list ctxop :=
  match og with
  | None => []
  | Some g => BeginPath :: geometry_path width height g ++ [finish]
  end.

Definition land_ops (width height : N) (gs : list (option shape)) : list ctxop :=
  FillStyle "#90EE90" :: StrokeStyle "transparent"
  :: concat (map (feature_ops Fill width height) gs).

Definition border_ops (width height : N) (gs : list (option shape)) : list ctxop :=
  StrokeStyle "#000000" :: FillStyle "transparent" :: LineWidth 1
  :: concat (map (feature_ops Stroke width height) gs).

(** The whole map: ocean, land, borders. *)
Definition map_ops (width height : N) (lands borders : list (option shape)) : list ctxop :=
  FillStyle "#4A90E2" :: FillRect 0 0 (Number_of_N width) (Number_of_N height)
  :: land_ops width height lands ++ border_ops width height borders.

(** What is outside the offscreen bitmap: everything in the world but the
    calls on the offscreen context, the console and the flag. *)
Definition beside_offscreen (w : world) :=
  (is3D w, landData w, outlineData w, canvas2D w,
   (width (offscreenCanvas w), height (offscreenCanvas w)),
   (canvas2D_display w, renderer_display w), toggleButton w, timers w, frames w).

(** A dataset of three features: the triangle, a feature whose geometry is
    null, and a line. *)
Definition a_line : shape :=
  LineString [VArr [VNum (-10); VNum 0]; VArr [VNum 0; VNum 20]].

Definition a_line_feature : value :=
  VObj (<["type" := VStr "Feature"]>
          (<["geometry" := VObj (<["type" := VStr "LineString"]>
                                   (<["coordinates" := coordinates_value a_line]> ∅))]> ∅)).

Definition empty_feature : value :=
  VObj (<["type" := VStr "Feature"]> (<["geometry" := VNull]> ∅)).

Definition three_features : value :=
  VObj (<["type" := VStr "FeatureCollection"]>
          (<["features" := VArr [triangle_feature; empty_feature; a_line_feature]]> ∅)).

Definition three_shapes : list (option shape) :=
  [Some (Polygon [[VArr [VNum 0; VNum 0]; VArr [VNum 10; VNum 0]; VArr [VNum 10; VNum 10]]]);
   None; Some a_line].

Definition three_features_world : world :=
  {| is3D := true; landData := three_features; outlineData := three_features;
     map2DRendered := false;
     canvas2D := a_canvas; offscreenCanvas := a_canvas;
     canvas2D_display := "none"; renderer_display := "block";
     toggleButton := {| disabled := false; textContent := "Switch to 2D Map" |};
     console := []; timers := []; frames := [] |}.

(** [keeps f w w']: the part [f] of the world is the same in [w'] as in
    [w]. *)
Definition keeps {A : Type} (f : world -> A) : relation world :=
  fun w w' => f w' = f w.

(** ** Vocabulary of the toggle *)

(** The offscreen canvas has no pixel: [drawImage] refuses it as a
    source. *)
Definition empty_source (w : world) : bool :=
  (width (offscreenCanvas w) =? 0)%N || (height (offscreenCanvas w) =? 0)%N.

(** The toggle is about to switch to 2D, the flag says the map is cached,
    and the cache has no pixel. *)
Definition toggle_fails (w : world) : bool :=
  is3D w && map2DRendered w && empty_source w.

(** The surface on show is the one of the mode: in 3D the 2D canvas is
    hidden and the renderer's canvas is not, in 2D the other way round. *)
Definition mode_shown (w : world) : Prop :=
  if is3D w
  then canvas2D_display w = "none" /\ renderer_display w <> "none"
  else canvas2D_display w = "block" /\ renderer_display w = "none".

(** The label of the button in a mode. *)
Definition label_of (now3D : bool) : string :=
  if now3D then "Switch to 2D Map" else "Switch to 3D Globe".

(** The button between toggles, and the button from a click to the next
    animation frame. *)
Definition button_idle (w : world) : Prop :=
  frames w = [] /\ disabled (toggleButton w) = false.

Definition button_pending (w : world) : Prop :=
  frames w = [CbToggle]
  /\ toggleButton w = {| disabled := true; textContent := "Switching..." |}.

(** The queues and the button fit together: the timers are renders, and
    the frame callback of the toggle is pending exactly while the button is
    disabled. *)
Definition toggle_settled (w : world) : Prop :=
  Forall begins_with_render (timers w) /\ (button_idle w \/ button_pending w).

(** The page as the script leaves it when it has run to its end: 3D mode,
    no data yet, nothing drawn, nothing pending; the renderer's canvas has
    no [display] style of its own. *)
Definition initial_world (width height : N) : world :=
  {| is3D := true; landData := VNull; outlineData := VNull; map2DRendered := false;
     canvas2D := {| width := width; height := height; calls := [] |};
     offscreenCanvas := {| width := width; height := height; calls := [] |};
     canvas2D_display := "none"; renderer_display := EmptyString;
     toggleButton := {| disabled := false; textContent := "Switch to 2D Map" |};
     console := []; timers := []; frames := [] |}.

(** What the handlers other than the toggle leave alone: the mode, the two
    [display] styles, the button and the frame queue. *)
Definition shell (w : world) :=
  (is3D w, (canvas2D_display w, renderer_display w), toggleButton w, frames w).

(** From [w] to [w'] the shell is the same and the timers have grown by
    renders only. *)
Definition queues_renders (w w' : world) : Prop :=
  shell w' = shell w
  /\ exists t : list callback, timers w' = timers w ++ t /\ Forall begins_with_render t.

(** ** Vocabulary of the display *)

(** The calls of the loading placeholder on a visible canvas [width] by
    [height], and the calls of a blit of the offscreen canvas of size [ow]
    by [oh] and content [image]. *)
Definition placeholder_ops (width height : N) : list ctxop :=
  [FillStyle "#4A90E2"; FillRect 0 0 (Number_of_N width) (Number_of_N height);
   FillStyle "white"; Font "24px Arial"; TextAlign "center";
   FillText "2D Map Loading..." (Number_of_N width / 2) (Number_of_N height / 2)].

Definition blit_ops (width height ow oh : N) (image : list ctxop) : list ctxop :=
  [ClearRect 0 0 (Number_of_N width) (Number_of_N height); DrawImage ow oh image 0 0].

(** The world of the triangle dataset in 2D mode, the map rendered and
    shown. *)
Definition triangle_world_2D : world :=
  {| is3D := false; landData := triangle_data; outlineData := triangle_data;
     map2DRendered := true;
     canvas2D := a_canvas; offscreenCanvas := a_canvas;
     canvas2D_display := "block"; renderer_display := "none";
     toggleButton := {| disabled := false; textContent := "Switch to 3D Globe" |};
     console := []; timers := []; frames := [] |}.

(** A value that is not an array or an object. *)
Definition primitive (v : value) : bool :=
  match v with
  | VArr _ | VObj _ => false
  | _ => true
  end.

(** An engine that reads and writes whole numbers of up to three digits;
    enough to tell concatenation from addition. *)
Definition digits_engine : Engine :=
  {| StringToNumber :=
       fun s => if String.eqb s "10180" then 10180%float
                else if String.eqb s "10" then 10%float else nan;
     NumberToString := fun f => if PrimFloat.eqb f 180 then "180" else "";
     drawThreeGeo := fun _ => None |}.

(** The events of a switch to 2D made before the data is there: the click,
    its frame, the placeholder's timer, then both datasets and the timer
    of the pre-render. *)
Definition early_toggle (land_ outline_ : value) : list event :=
  [Click; Frame; Timer; LandLoaded land_; OutlineLoaded outline_; Timer].

(** ** Basic facts about computations and painting *)

Lemma bind_Ok {A B : Type} (m : M A) (k : A -> M B) (w w' : world) (a : A) :
  m w = Ok a w' -> bind m k w = k a w'.
Proof. intros H. unfold bind. now rewrite H. Qed.

Lemma bind_Throw {A B : Type} (m : M A) (k : A -> M B) (w w' : world) (e : exn) :
  m w = Throw e w' -> bind m k w = Throw e w'.
Proof. intros H. unfold bind. now rewrite H. Qed.

Lemma emit_paint (r : ctxref) (op : ctxop) (w : world) :
  emit r op w = Ok tt (paint r [op] w).
Proof. reflexivity. Qed.

Lemma paint_nil (r : ctxref) (w : world) : paint r [] w = w.
Proof.
  destruct w as [a b c d [w1 h1 c1] [w2 h2 c2] e f g h i j].
  destruct r; unfold paint; simpl; now rewrite app_nil_r.
Qed.

Lemma paint_app (r : ctxref) (ops1 ops2 : list ctxop) (w : world) :
  paint r ops2 (paint r ops1 w) = paint r (ops1 ++ ops2) w.
Proof.
  destruct r; unfold paint; simpl; now rewrite app_assoc.
Qed.

Lemma offscreen_size_paint (r : ctxref) (ops : list ctxop) (w : world) :
  width (offscreenCanvas (paint r ops w)) = width (offscreenCanvas w)
  /\ height (offscreenCanvas (paint r ops w)) = height (offscreenCanvas w).
Proof. destruct r; now split. Qed.

Section PathBuilder.

Context {engine : Engine}.

Lemma length_lt_array (l : list value) (k : nat) (w : world) :
  length_lt (VArr l) k w = Ok (length l <? k)%nat w.
Proof. reflexivity. Qed.

(** A malformed entry leaves world and [firstPoint] as they are. *)
Lemma plotCoord_malformed (context : ctxref) (v : value) (firstPoint : bool) (w : world) :
  malformed v = true -> plotCoord context v firstPoint w = Ok firstPoint w.
Proof.
  intros Hv. destruct v as [| | b | f | s | l | m]; try discriminate; try reflexivity.
  simpl in Hv. unfold plotCoord, bind, length_lt, ret. cbn [ToBoolean negb].
  now rewrite Hv.
Qed.

(** A position is plotted at its projection: moved to when it is the first
    point, joined by a line otherwise. *)
Lemma plotCoord_position (context : ctxref) (p : position) (firstPoint : bool) (w : world) :
  plotCoord context (position_value p) firstPoint w
  = Ok false
       (paint context
          [let q := project (width (offscreenCanvas w)) (height (offscreenCanvas w)) p in
           if firstPoint then MoveTo (x q) (y q) else LineTo (x q) (y q)] w).
Proof.
  destruct p as [lo la mo]. unfold plotCoord, position_value. simpl.
  destruct firstPoint; reflexivity.
Qed.

Lemma forEach_var_skip (context : ctxref) (l : list value) (firstPoint : bool) (w : world) :
  forEach_var l (plotCoord context) firstPoint w
  = forEach_var (filter (fun v => negb (malformed v)) l) (plotCoord context) firstPoint w.
Proof.
  revert firstPoint w. induction l as [|v l IH]; intros firstPoint w; [reflexivity|].
  rewrite filter_cons. destruct (malformed v) eqn:Hv; simpl.
  - rewrite (bind_Ok _ _ _ _ _ (plotCoord_malformed context v firstPoint w Hv)). apply IH.
  - unfold bind. destruct (plotCoord context v firstPoint w); [apply IH | reflexivity].
Qed.

Lemma as_position_value (v : value) (p : position) :
  as_position v = Some p -> v = position_value p.
Proof.
  destruct v as [| | | | | l |]; try discriminate.
  destruct l as [|[] [|[] l]]; try discriminate.
  intros [= <-]. reflexivity.
Qed.

Lemma malformed_not_position (v : value) : malformed v = true -> as_position v = None.
Proof.
  destruct v as [| | | | | l |]; try discriminate; try reflexivity.
  destruct l as [|a [|b l]]; try discriminate; try reflexivity.
  destruct a; reflexivity.
Qed.

Lemma forEach_var_plottable (context : ctxref) (l : list value) (firstPoint : bool) (w : world) :
  Forall plottable l ->
  forEach_var l (plotCoord context) firstPoint w
  = Ok (firstPoint && bool_decide (omap as_position l = []))
       (paint context
          (path_from firstPoint (width (offscreenCanvas w)) (height (offscreenCanvas w))
             (omap as_position l)) w).
Proof.
  intros Hl. revert firstPoint w. induction Hl as [|v l Hv Hl IH]; intros firstPoint w.
  - simpl. unfold ret. rewrite andb_true_r.
    unfold path_from. destruct firstPoint; simpl; now rewrite paint_nil.
  - destruct Hv as [Hv | [p Hp]].
    + simpl. rewrite (bind_Ok _ _ _ _ _ (plotCoord_malformed context v firstPoint w Hv)).
      rewrite (malformed_not_position v Hv). apply IH.
    + simpl. rewrite Hp. rewrite (as_position_value v p Hp).
      rewrite (bind_Ok _ _ _ _ _ (plotCoord_position context p firstPoint w)).
      rewrite IH. destruct (offscreen_size_paint context
        [let q := project (width (offscreenCanvas w)) (height (offscreenCanvas w)) p in
         if firstPoint then MoveTo (x q) (y q) else LineTo (x q) (y q)] w) as [-> ->].
      rewrite paint_app. rewrite andb_false_l.
      replace (firstPoint && bool_decide (p :: omap as_position l = [])) with false
        by (destruct firstPoint; reflexivity).
      f_equal; destruct firstPoint; reflexivity.
Qed.

End PathBuilder.

Section PathBuilderFacts.
Context {engine : Engine}.

Lemma forEach_from_index (f : value -> M unit) (l : list value) (i j : nat) (w : world) :
  forEach_from i l (fun v _ => f v) w = forEach_from j l (fun v _ => f v) w.
Proof.
  revert i j w. induction l as [|v l IH]; intros i j w; [reflexivity|].
  simpl. unfold bind. destruct (f v w); [apply IH | reflexivity].
Qed.

Lemma forEach_from_skip (f : value -> M unit) (before after : list value) (v : value)
      (i : nat) (w : world) :
  (forall w', f v w' = Ok tt w') ->
  forEach_from i (before ++ v :: after) (fun v _ => f v) w
  = forEach_from i (before ++ after) (fun v _ => f v) w.
Proof.
  intros Hv. revert i w. induction before as [|b before IH]; intros i w; simpl.
  - rewrite (bind_Ok _ _ _ _ _ (Hv w)). apply forEach_from_index.
  - unfold bind. destruct (f b w); [apply IH | reflexivity].
Qed.

Lemma drawRing_short (context : ctxref) (ring : list value) (w : world) :
  length ring < 3 -> drawRing context (VArr ring) w = Ok tt w.
Proof.
  intros H. unfold drawRing, bind. rewrite length_lt_array.
  apply Nat.ltb_lt in H. now rewrite H.
Qed.

Lemma drawLineStringPath_short (context : ctxref) (line : list value) (w : world) :
  length line < 2 -> drawLineStringPath (VArr line) context w = Ok tt w.
Proof.
  intros H. unfold drawLineStringPath, bind. rewrite length_lt_array.
  apply Nat.ltb_lt in H. now rewrite H.
Qed.

Lemma strict_eq_true (v : value) (s : string) : strict_eq v s = true <-> v = VStr s.
Proof.
  destruct v; simpl; try (split; [discriminate | intros [=]]).
  rewrite String.eqb_eq. split; [now intros -> | now intros [= ->]].
Qed.

Lemma strict_eq_false (v : value) (s : string) : v <> VStr s -> strict_eq v s = false.
Proof.
  intros H. destruct (strict_eq v s) eqn:E; [|reflexivity].
  now apply strict_eq_true in E.
Qed.

End PathBuilderFacts.

(** C3: a ring with fewer than three entries and a line with fewer than two
    make no call on the context: [drawRing] and [drawLineStringPath] return
    at once with the world unchanged, and a polygon or a multi-line with such
    a member is drawn exactly as without it. *)
Theorem short_ring_and_line_emit_nothing :
  forall (engine : Engine) (context : ctxref) (ring line : list value) (w : world),
    length ring < 3 ->
    length line < 2 ->
    drawRing context (VArr ring) w = Ok tt w
    /\ (forall before after : list value,
          drawPolygonPath (VArr (before ++ VArr ring :: after)) context w
          = drawPolygonPath (VArr (before ++ after)) context w)
    /\ drawLineStringPath (VArr line) context w = Ok tt w
    /\ (forall before after : list value,
          forEach (VArr (before ++ VArr line :: after))
                  (fun lineString _ => drawLineStringPath lineString context) w
          = forEach (VArr (before ++ after))
                    (fun lineString _ => drawLineStringPath lineString context) w).
Proof.
  intros engine context ring line w Hring Hline. repeat split.
  - now apply drawRing_short.
  - intros before after. unfold drawPolygonPath, forEach.
    apply (forEach_from_skip (drawRing context)).
    intros w'. now apply drawRing_short.
  - now apply drawLineStringPath_short.
  - intros before after. unfold forEach.
    apply (forEach_from_skip (fun v => drawLineStringPath v context)).
    intros w'. now apply drawLineStringPath_short.
Qed.

Lemma short_ring_and_line_emit_nothing_witness :
  drawRing (engine := an_engine) OffscreenCtx
    (VArr [VArr [VNum 0; VNum 0]; VArr [VNum 10; VNum 0]]) a_world = Ok tt a_world
  /\ drawLineStringPath (engine := an_engine) (VArr [VArr [VNum 0; VNum 0]]) OffscreenCtx a_world
     = Ok tt a_world.
Proof.
  destruct (short_ring_and_line_emit_nothing an_engine OffscreenCtx
              [VArr [VNum 0; VNum 0]; VArr [VNum 10; VNum 0]] [VArr [VNum 0; VNum 0]] a_world)
    as (H1 & _ & H3 & _); [simpl; lia | simpl; lia |].
  split; assumption.
Defined.

(** C10: a geometry whose [type] is none of Polygon, MultiPolygon,
    LineString and MultiLineString (a missing [type], or one that is not a
    string, included) makes [drawGeometryPath] return without a call on the
    context and without throwing.  The geometry is any value but undefined
    and null, on which the destructuring itself throws; the draw passes
    call [drawGeometryPath] on truthy values only. *)
Theorem unknown_geometry_type_ignored :
  forall (engine : Engine) (geometry : value) (context : ctxref) (w : world),
    geometry <> VUndef ->
    geometry <> VNull ->
    type_of geometry ∉ known_types ->
    drawGeometryPath geometry context w = Ok tt w.
Proof.
  intros engine geometry context w Hu Hn Ht.
  unfold known_types in Ht.
  repeat (apply not_elem_of_cons in Ht; destruct Ht as [? Ht]).
  unfold drawGeometryPath.
  assert (Hget : forall k, Get geometry k w = Ok (match geometry with VObj m => default VUndef (m !! k) | _ => VUndef end) w).
  { intros k. destruct geometry; try reflexivity; congruence. }
  rewrite (bind_Ok _ _ _ _ _ (Hget "type")).
  rewrite (bind_Ok _ _ _ _ _ (Hget "coordinates")).
  fold (type_of geometry).
  rewrite !strict_eq_false by assumption. reflexivity.
Qed.
(** C1 (as amended): for all numbers [lat], [lon], [width], [height],
    in range or not, [latLonToXY] returns without throwing the point
    [x = (lon + 180) * (width / 360)], [y = (90 - lat) * (height / 180)],
    each operation being the binary64 one and the scale factor being
    rounded before the multiplication; at [(0, 0)] on a 360 by 180 canvas
    the point is [(180, 90)]. *)
Theorem latLonToXY_formula :
  forall (engine : Engine) (lat lon width height : float),
    latLonToXY (VNum lat) (VNum lon) width height
    = inr {| x := ((lon + 180) * (width / 360))%float;
             y := ((90 - lat) * (height / 180))%float |}
    /\ latLonToXY (VNum 0) (VNum 0) 360 180
       = inr {| x := 180%float; y := 90%float |}.
Proof.
  intros. split; [reflexivity | vm_compute; reflexivity].
Qed.

(** C1, the claim as stated fails: the right edge [lon = 180] of a canvas
    1535 pixels wide is projected to 1535.0000000000002 and not to
    [(180 + 180) * 1535 / 360 = 1535], and the bottom edge [lat = -90] of a
    canvas 969 pixels high to 969.00000000000011 and not to 969. *)
Lemma latLonToXY_not_exact :
  exists p : point,
    latLonToXY (engine := an_engine) (VNum (-90)) (VNum 180) 1535 969 = inr p
    /\ ((180 + 180) * 1535 / 360 = 1535)%float
    /\ ((90 - -90) * 969 / 180 = 969)%float
    /\ PrimFloat.eqb (x p) 1535 = false
    /\ PrimFloat.eqb (y p) 969 = false
    /\ PrimFloat.ltb 1535 (x p) = true
    /\ PrimFloat.ltb 969 (y p) = true.
Proof.
  eexists. split; [reflexivity |]. vm_compute. repeat split.
Qed.

Section RingFacts.

Context {engine : Engine}.

Lemma plotCoords_plottable (context : ctxref) (l : list value) (w : world) :
  Forall plottable l ->
  plotCoords context (VArr l) w
  = Ok tt (paint context
             (open_path (width (offscreenCanvas w)) (height (offscreenCanvas w))
                (omap as_position l)) w).
Proof.
  intros Hl. unfold plotCoords.
  now rewrite (bind_Ok _ _ _ _ _ (forEach_var_plottable context l true w Hl)).
Qed.

Lemma drawRing_plottable (context : ctxref) (l : list value) (w : world) :
  Forall plottable l ->
  3 <= length l ->
  drawRing context (VArr l) w
  = Ok tt (paint context
             (closed_path (width (offscreenCanvas w)) (height (offscreenCanvas w))
                (omap as_position l)) w).
Proof.
  intros Hl Hlen. unfold drawRing.
  rewrite (bind_Ok _ _ _ _ _ (length_lt_array l 3 w)).
  replace (length l <? 3)%nat with false by (symmetry; apply Nat.ltb_ge; lia).
  rewrite (bind_Ok _ _ _ _ _ (plotCoords_plottable context l w Hl)).
  rewrite emit_paint, paint_app. reflexivity.
Qed.

Lemma drawLineStringPath_plottable (context : ctxref) (l : list value) (w : world) :
  Forall plottable l ->
  2 <= length l ->
  drawLineStringPath (VArr l) context w
  = Ok tt (paint context
             (open_path (width (offscreenCanvas w)) (height (offscreenCanvas w))
                (omap as_position l)) w).
Proof.
  intros Hl Hlen. unfold drawLineStringPath.
  rewrite (bind_Ok _ _ _ _ _ (length_lt_array l 2 w)).
  replace (length l <? 2)%nat with false by (symmetry; apply Nat.ltb_ge; lia).
  now apply plotCoords_plottable.
Qed.

Lemma positions_plottable (ps : list position) :
  Forall plottable (map position_value ps)
  /\ omap as_position (map position_value ps) = ps.
Proof.
  induction ps as [|[lo la mo] ps [IH1 IH2]]; [now split|]. split.
  - constructor; [right; now eexists | exact IH1].
  - simpl. f_equal. exact IH2.
Qed.

End RingFacts.

(** C4: a ring of at least three positions becomes one closed sub-path: a
    [moveTo] at the projection of the first position, a [lineTo] at the
    projection of each later one in order, then [closePath]; nothing else
    is called and nothing is thrown.  The Polygon with the single ring
    [[0,0],[10,0],[10,10]] gives, on a 360 by 180 canvas, one [moveTo], two
    [lineTo] and one [closePath]. *)
Theorem ring_becomes_closed_path :
  forall (engine : Engine) (context : ctxref) (p : position) (ps : list position)
         (w : world),
    2 <= length ps ->
    let W := width (offscreenCanvas w) in
    let H := height (offscreenCanvas w) in
    drawRing context (VArr (map position_value (p :: ps))) w
    = Ok tt (paint context
               (MoveTo (x (project W H p)) (y (project W H p))
                :: map (fun q => LineTo (x (project W H q)) (y (project W H q))) ps
                ++ [ClosePath]) w)
    /\ drawGeometryPath triangle_polygon OffscreenCtx a_world
       = Ok tt (paint OffscreenCtx
                  [MoveTo 180 90; LineTo 190 90; LineTo 190 80; ClosePath] a_world).
Proof.
  intros engine context p ps w Hlen W H. split.
  - destruct (positions_plottable (p :: ps)) as [Hpl Hom].
    rewrite (drawRing_plottable context _ w Hpl) by (rewrite length_map; simpl; lia).
    rewrite Hom. reflexivity.
  - vm_compute. reflexivity.
Qed.

Lemma ring_becomes_closed_path_witness :
  drawRing (engine := an_engine) OffscreenCtx triangle a_world
  = Ok tt (paint OffscreenCtx
             [MoveTo 180 90; LineTo 190 90; LineTo 190 80; ClosePath] a_world).
Proof.
  destruct (ring_becomes_closed_path an_engine OffscreenCtx
              {| lon := 0; lat := 0; more := [] |}
              [{| lon := 10; lat := 0; more := [] |}; {| lon := 10; lat := 10; more := [] |}]
              a_world) as [H _]; [simpl; lia |].
  exact H.
Defined.

(** C5: in the coordinate loop of a ring or a line, an entry that is
    missing (undefined or null) or is an array of fewer than two components
    is skipped on its own: it makes no call and leaves [firstPoint] as it
    was, so the loop over any entries equals the loop over those that are
    not malformed.  When the other entries are positions, the loop does not
    throw and plots them all, in order: the ring of three entries or more
    becomes the closed sub-path, and the line of two entries or more the
    open sub-path, of the positions among its entries. *)
Theorem malformed_entries_skipped :
  forall (engine : Engine) (context : ctxref) (entries : list value) (w : world),
    Forall plottable entries ->
    let W := width (offscreenCanvas w) in
    let H := height (offscreenCanvas w) in
    let ps := omap as_position entries in
    (forall (v : value) (firstPoint : bool) (w' : world),
        malformed v = true -> plotCoord context v firstPoint w' = Ok firstPoint w')
    /\ (forall (any : list value) (firstPoint : bool),
          forEach_var any (plotCoord context) firstPoint w
          = forEach_var (filter (fun v => negb (malformed v)) any)
              (plotCoord context) firstPoint w)
    /\ plotCoords context (VArr entries) w = Ok tt (paint context (open_path W H ps) w)
    /\ (3 <= length entries ->
        drawRing context (VArr entries) w = Ok tt (paint context (closed_path W H ps) w))
    /\ (2 <= length entries ->
        drawLineStringPath (VArr entries) context w
        = Ok tt (paint context (open_path W H ps) w)).
Proof.
  intros engine context entries w Hpl W H ps. repeat split.
  - intros v firstPoint w' Hv. now apply plotCoord_malformed.
  - intros any firstPoint. apply forEach_var_skip.
  - now apply plotCoords_plottable.
  - intros Hlen. now apply drawRing_plottable.
  - intros Hlen. now apply drawLineStringPath_plottable.
Qed.

Lemma patchy_ring_plottable : Forall plottable patchy_ring.
Proof.
  unfold patchy_ring.
  repeat (constructor; [first [left; reflexivity | right; eexists; reflexivity] |]).
  constructor.
Defined.

Lemma malformed_entries_skipped_witness :
  Forall plottable patchy_ring
  /\ drawRing (engine := an_engine) OffscreenCtx (VArr patchy_ring) a_world
     = Ok tt (paint OffscreenCtx
                [MoveTo 180 90; LineTo 190 90; LineTo 190 80; ClosePath] a_world).
Proof.
  split; [exact patchy_ring_plottable |].
  destruct (malformed_entries_skipped an_engine OffscreenCtx patchy_ring a_world
              patchy_ring_plottable) as (_ & _ & _ & H & _).
  apply H. simpl. lia.
Defined.

Lemma unknown_geometry_type_ignored_witness :
  drawGeometryPath (engine := an_engine) a_point OffscreenCtx a_world = Ok tt a_world.
Proof.
  apply unknown_geometry_type_ignored.
  - discriminate.
  - discriminate.
  - intros H. vm_compute in H.
    repeat (apply elem_of_cons in H; destruct H as [H | H]; [discriminate H |]).
    now apply elem_of_nil in H.
Defined.

(** ** Frame reasoning: relations every step of a computation keeps *)

Section Respects.

Context (R : relation world) `{!PreOrder R}.

Lemma respects_ret {A : Type} (a : A) : respects R (ret a).
Proof. intros w. simpl. reflexivity. Qed.

Lemma respects_throw {A : Type} (e : exn) : respects R (throw (A := A) e).
Proof. intros w. simpl. reflexivity. Qed.

Lemma respects_gets {A : Type} (f : world -> A) : respects R (gets f).
Proof. intros w. simpl. reflexivity. Qed.

Lemma respects_lift {A : Type} (r : exn + A) : respects R (lift r).
Proof. destruct r; [apply respects_throw | apply respects_ret]. Qed.

Lemma respects_modify (f : world -> world) :
  (forall w, R w (f w)) -> respects R (modify f).
Proof. intros H w. apply H. Qed.

Lemma respects_bind {A B : Type} (m : M A) (k : A -> M B) :
  respects R m -> (forall a, respects R (k a)) -> respects R (bind m k).
Proof.
  intros Hm Hk w. unfold bind. specialize (Hm w).
  destruct (m w) as [a w' | e w']; simpl in *; [|exact Hm].
  etransitivity; [exact Hm | apply Hk].
Qed.

Lemma respects_try_catch (m : M unit) (h : exn -> M unit) :
  respects R m -> (forall e, respects R (h e)) -> respects R (try_catch m h).
Proof.
  intros Hm Hh w. unfold try_catch. specialize (Hm w).
  destruct (m w) as [a w' | e w']; simpl in *; [exact Hm|].
  etransitivity; [exact Hm | apply Hh].
Qed.

Lemma respects_if {A : Type} (b : bool) (m1 m2 : M A) :
  respects R m1 -> respects R m2 -> respects R (if b then m1 else m2).
Proof. now destruct b. Qed.

Lemma respects_forEach_from (f : value -> nat -> M unit) (l : list value) (i : nat) :
  (forall v j, respects R (f v j)) -> respects R (forEach_from i l f).
Proof.
  intros Hf. revert i. induction l as [|v l IH]; intros i; simpl.
  - apply respects_ret.
  - apply respects_bind; [apply Hf | intros _; apply IH].
Qed.

Lemma respects_forEach (f : value -> nat -> M unit) (a : value) :
  (forall v j, respects R (f v j)) -> respects R (forEach a f).
Proof.
  intros Hf. destruct a; try apply respects_throw.
  now apply respects_forEach_from.
Qed.

Lemma respects_forEach_var {S : Type} (f : value -> S -> M S) (l : list value) (s : S) :
  (forall v s', respects R (f v s')) -> respects R (forEach_var l f s).
Proof.
  intros Hf. revert s. induction l as [|v l IH]; intros s; simpl.
  - apply respects_ret.
  - apply respects_bind; [apply Hf | intros s'; apply IH].
Qed.

Lemma respects_Get (v : value) (k : string) : respects R (Get v k).
Proof. destruct v; first [apply respects_throw | apply respects_ret]. Qed.

Section Drawing.

Context {engine : Engine}.

(** The path builder only paints. *)
Hypothesis R_paint : forall r ops w, R w (paint r ops w).

Lemma respects_emit (r : ctxref) (op : ctxop) : respects R (emit r op).
Proof. intros w. rewrite emit_paint. apply R_paint. Qed.

Lemma respects_length_lt (v : value) (k : nat) : respects R (length_lt v k).
Proof.
  destruct v; simpl; first [apply respects_throw | apply respects_ret | apply respects_lift].
Qed.

Lemma respects_plotCoord (context : ctxref) (coord : value) (firstPoint : bool) :
  respects R (plotCoord context coord firstPoint).
Proof.
  unfold plotCoord.
  apply respects_if; [apply respects_ret|].
  apply respects_bind; [apply respects_length_lt | intros short].
  apply respects_if; [apply respects_ret|].
  apply respects_bind; [apply respects_gets | intros width].
  apply respects_bind; [apply respects_gets | intros height].
  apply respects_bind; [apply respects_lift | intros p].
  apply respects_if; (apply respects_bind; [apply respects_emit | intros _; apply respects_ret]).
Qed.

Lemma respects_plotCoords (context : ctxref) (coords : value) :
  respects R (plotCoords context coords).
Proof.
  destruct coords; try apply respects_throw. simpl.
  apply respects_bind; [|intros _; apply respects_ret].
  apply respects_forEach_var. intros v s. apply respects_plotCoord.
Qed.

Lemma respects_drawRing (context : ctxref) (ring : value) :
  respects R (drawRing context ring).
Proof.
  unfold drawRing.
  apply respects_bind; [apply respects_length_lt | intros short].
  apply respects_if; [apply respects_ret|].
  apply respects_bind; [apply respects_plotCoords | intros _; apply respects_emit].
Qed.

Lemma respects_drawPolygonPath (coordinates : value) (context : ctxref) :
  respects R (drawPolygonPath coordinates context).
Proof.
  apply respects_forEach. intros v j. apply respects_drawRing.
Qed.

Lemma respects_drawLineStringPath (coordinates : value) (context : ctxref) :
  respects R (drawLineStringPath coordinates context).
Proof.
  unfold drawLineStringPath.
  apply respects_bind; [apply respects_length_lt | intros short].
  apply respects_if; [apply respects_ret | apply respects_plotCoords].
Qed.

Lemma respects_drawGeometryPath (geometry : value) (context : ctxref) :
  respects R (drawGeometryPath geometry context).
Proof.
  unfold drawGeometryPath.
  apply respects_bind; [apply respects_Get | intros type].
  apply respects_bind; [apply respects_Get | intros coordinates].
  repeat apply respects_if.
  - apply respects_drawPolygonPath.
  - apply respects_forEach. intros v j. apply respects_drawPolygonPath.
  - apply respects_drawLineStringPath.
  - apply respects_forEach. intros v j. apply respects_drawLineStringPath.
  - apply respects_ret.
Qed.

(** The two draw passes paint and warn. *)
Hypothesis R_warn : forall s e w, R w (set_console (console w ++ [Warn s e]) w).

Lemma respects_drawLandFeature (feature : value) (index : nat) :
  respects R (drawLandFeature feature index).
Proof.
  unfold drawLandFeature.
  apply respects_bind; [apply respects_Get | intros geometry].
  apply respects_if; [apply respects_ret|].
  apply respects_try_catch.
  - apply respects_bind; [apply respects_emit | intros _].
    apply respects_bind; [apply respects_drawGeometryPath | intros _; apply respects_emit].
  - intros e. apply respects_modify. intros w. apply R_warn.
Qed.

Lemma respects_drawBorderFeature (feature : value) (index : nat) :
  respects R (drawBorderFeature feature index).
Proof.
  unfold drawBorderFeature.
  apply respects_bind; [apply respects_Get | intros geometry].
  apply respects_if; [apply respects_ret|].
  apply respects_try_catch.
  - apply respects_bind; [apply respects_emit | intros _].
    apply respects_bind; [apply respects_drawGeometryPath | intros _; apply respects_emit].
  - intros e. apply respects_modify. intros w. apply R_warn.
Qed.

Lemma respects_drawLandAreas : respects R drawLandAreas.
Proof.
  unfold drawLandAreas.
  apply respects_bind; [apply respects_gets | intros d].
  apply respects_bind; [apply respects_Get | intros features].
  apply respects_if; [apply respects_ret|].
  apply respects_bind; [apply respects_emit | intros _].
  apply respects_bind; [apply respects_emit | intros _].
  apply respects_forEach. intros v j. apply respects_drawLandFeature.
Qed.

Lemma respects_drawCountryBorders : respects R drawCountryBorders.
Proof.
  unfold drawCountryBorders.
  apply respects_bind; [apply respects_gets | intros d].
  apply respects_bind; [apply respects_Get | intros features].
  apply respects_if; [apply respects_ret|].
  apply respects_bind; [apply respects_emit | intros _].
  apply respects_bind; [apply respects_emit | intros _].
  apply respects_bind; [apply respects_emit | intros _].
  apply respects_forEach. intros v j. apply respects_drawBorderFeature.
Qed.

End Drawing.

End Respects.

(** ** The draw passes and the render *)

#[global] Instance same_data_preorder : PreOrder same_data.
Proof.
  split.
  - intros w. now repeat split.
  - intros w1 w2 w3 (H1 & H2 & H3) (H4 & H5 & H6). unfold same_data.
    rewrite H4, H5, H6. now repeat split.
Qed.

Lemma same_data_paint (r : ctxref) (ops : list ctxop) (w : world) :
  same_data w (paint r ops w).
Proof. destruct r; now repeat split. Qed.

Lemma same_data_warn (s : string) (e : exn) (w : world) :
  same_data w (set_console (console w ++ [Warn s e]) w).
Proof. now repeat split. Qed.

Section Render.

Context {engine : Engine}.

Lemma Get_defined (v : value) (k : string) (w : world) :
  v <> VUndef -> v <> VNull ->
  Get v k w = Ok (match v with VObj m => default VUndef (m !! k) | _ => VUndef end) w.
Proof. intros Hu Hn. destruct v; try reflexivity; congruence. Qed.

Lemma truthy_defined (v : value) : ToBoolean v = true -> v <> VUndef /\ v <> VNull.
Proof. destruct v; try discriminate; now split. Qed.

(** A feature that is not undefined or null never makes its draw throw:
    what the geometry throws is caught and reported. *)
Lemma drawLandFeature_Ok (feature : value) (index : nat) (w : world) :
  feature <> VUndef -> feature <> VNull ->
  exists w', drawLandFeature feature index w = Ok tt w'.
Proof.
  intros Hu Hn. unfold drawLandFeature.
  rewrite (bind_Ok _ _ _ _ _ (Get_defined feature "geometry" w Hu Hn)).
  destruct (negb _); [now eexists|].
  unfold try_catch.
  destruct (bind _ _ w) as [[] w' | e w']; [now eexists | now eexists].
Qed.

Lemma drawBorderFeature_Ok (feature : value) (index : nat) (w : world) :
  feature <> VUndef -> feature <> VNull ->
  exists w', drawBorderFeature feature index w = Ok tt w'.
Proof.
  intros Hu Hn. unfold drawBorderFeature.
  rewrite (bind_Ok _ _ _ _ _ (Get_defined feature "geometry" w Hu Hn)).
  destruct (negb _); [now eexists|].
  unfold try_catch.
  destruct (bind _ _ w) as [[] w' | e w']; [now eexists | now eexists].
Qed.

Lemma forEach_from_Ok (f : value -> nat -> M unit) (l : list value) :
  Forall (fun v => forall i w, exists w', f v i w = Ok tt w') l ->
  forall i w, exists w', forEach_from i l f w = Ok tt w'.
Proof.
  induction 1 as [|v l Hv _ IH]; intros i w; simpl; [now eexists|].
  destruct (Hv i w) as [w' Hw']. rewrite (bind_Ok _ _ _ _ _ Hw'). apply IH.
Qed.

Lemma drawLandAreas_Ok (w : world) :
  ToBoolean (landData w) = true -> drawable (landData w) ->
  exists w', drawLandAreas w = Ok tt w' /\ same_data w w'.
Proof.
  intros Ht Hd.
  assert (Hok : exists w', drawLandAreas w = Ok tt w').
  { unfold drawLandAreas. unfold bind at 1. simpl.
    destruct (truthy_defined _ Ht) as [Hu Hn].
    rewrite (bind_Ok _ _ _ _ _ (Get_defined _ "features" w Hu Hn)).
    fold (features_of (landData w)).
    destruct Hd as [Hf | (l & Hl & Hall)].
    - rewrite Hf. now eexists.
    - rewrite Hl. simpl. unfold bind at 1. rewrite emit_paint.
      unfold bind at 1. rewrite emit_paint.
      apply forEach_from_Ok. eapply Forall_impl; [exact Hall|].
      intros v [Hvu Hvn] i w0. now apply drawLandFeature_Ok. }
  destruct Hok as [w' Hw']. exists w'. split; [exact Hw'|].
  pose proof (respects_drawLandAreas same_data same_data_paint same_data_warn w) as H.
  now rewrite Hw' in H.
Qed.

Lemma drawCountryBorders_Ok (w : world) :
  ToBoolean (outlineData w) = true -> drawable (outlineData w) ->
  exists w', drawCountryBorders w = Ok tt w' /\ same_data w w'.
Proof.
  intros Ht Hd.
  assert (Hok : exists w', drawCountryBorders w = Ok tt w').
  { unfold drawCountryBorders. unfold bind at 1. simpl.
    destruct (truthy_defined _ Ht) as [Hu Hn].
    rewrite (bind_Ok _ _ _ _ _ (Get_defined _ "features" w Hu Hn)).
    fold (features_of (outlineData w)).
    destruct Hd as [Hf | (l & Hl & Hall)].
    - rewrite Hf. now eexists.
    - rewrite Hl. simpl. unfold bind at 1. rewrite emit_paint.
      unfold bind at 1. rewrite emit_paint.
      unfold bind at 1. rewrite emit_paint.
      apply forEach_from_Ok. eapply Forall_impl; [exact Hall|].
      intros v [Hvu Hvn] i w0. now apply drawBorderFeature_Ok. }
  destruct Hok as [w' Hw']. exists w'. split; [exact Hw'|].
  pose proof (respects_drawCountryBorders same_data same_data_paint same_data_warn w) as H.
  now rewrite Hw' in H.
Qed.

(** With the flag set, the render returns at once. *)
Lemma render_when_rendered (w : world) :
  map2DRendered w = true -> render2DMapOffscreen w = Ok tt w.
Proof.
  intros H. unfold render2DMapOffscreen, bind, gets. rewrite H.
  now rewrite !orb_true_r.
Qed.

(** With both datasets loaded and drawable, the render completes and sets
    the flag. *)
Lemma render_completes (w : world) :
  ToBoolean (landData w) = true -> ToBoolean (outlineData w) = true ->
  drawable (landData w) -> drawable (outlineData w) ->
  exists w', render2DMapOffscreen w = Ok tt w'
             /\ map2DRendered w' = true
             /\ landData w' = landData w /\ outlineData w' = outlineData w.
Proof.
  intros Hl Ho Dl Do.
  destruct (map2DRendered w) eqn:Hr.
  { exists w. rewrite render_when_rendered by assumption. now repeat split. }
  unfold render2DMapOffscreen. unfold bind at 1 2 3. unfold gets at 1 2 3.
  rewrite Hl, Ho, Hr. simpl.
  unfold bind at 1. unfold console_log at 1, modify at 1.
  unfold bind at 1. rewrite emit_paint.
  unfold bind at 1 2. unfold gets at 1 2.
  unfold bind at 1. rewrite emit_paint.
  match goal with |- context [bind drawLandAreas _ ?w0] => set (w1 := w0) end.
  assert (S1 : same_data w w1) by (subst w1; now repeat split).
  destruct S1 as (S1a & S1b & S1c).
  destruct (drawLandAreas_Ok w1) as (w2 & E2 & S2a & S2b & S2c);
    [now rewrite S1a | now rewrite S1a |].
  rewrite (bind_Ok _ _ _ _ _ E2).
  destruct (drawCountryBorders_Ok w2) as (w3 & E3 & S3a & S3b & S3c);
    [now rewrite S2b, S1b | now rewrite S2b, S1b |].
  rewrite (bind_Ok _ _ _ _ _ E3).
  eexists. split; [reflexivity|]. simpl.
  rewrite S3a, S3b, S2a, S2b, S1a, S1b. now repeat split.
Qed.

End Render.

(** C7: with both datasets loaded and valid, that is drawable (each dataset's
    [features] falsy, or an array without an undefined or null entry), an
    invocation of [render2DMapOffscreen] completes and leaves the flag set
    and the datasets as they were; from then on an invocation returns at
    once, leaving the whole world (offscreen canvas, console, flag and all)
    as it is, and so does it in any world where the flag is set; rendering
    twice in succession equals rendering once. *)
Theorem render_once :
  forall (engine : Engine) (w : world),
    ToBoolean (landData w) = true ->
    ToBoolean (outlineData w) = true ->
    drawable (landData w) ->
    drawable (outlineData w) ->
    (exists w1 : world,
        render2DMapOffscreen w = Ok tt w1
        /\ map2DRendered w1 = true
        /\ render2DMapOffscreen w1 = Ok tt w1)
    /\ (render2DMapOffscreen ;;; render2DMapOffscreen) w = render2DMapOffscreen w
    /\ (forall w' : world,
          map2DRendered w' = true -> render2DMapOffscreen w' = Ok tt w').
Proof.
  intros engine w Hl Ho Dl Do.
  destruct (render_completes w Hl Ho Dl Do) as (w1 & E1 & F1 & _).
  repeat split.
  - exists w1. repeat split; [exact E1 | exact F1 | now apply render_when_rendered].
  - rewrite (bind_Ok _ _ _ _ _ E1). rewrite E1. now apply render_when_rendered.
  - intros w' Hw'. now apply render_when_rendered.
Qed.

Lemma triangle_data_drawable : drawable triangle_data.
Proof.
  right. exists [triangle_feature]. split; [reflexivity|].
  constructor; [split; discriminate | constructor].
Defined.

Lemma render_once_witness :
  exists w1 : world,
    render2DMapOffscreen (engine := an_engine) triangle_world = Ok tt w1
    /\ map2DRendered w1 = true
    /\ render2DMapOffscreen (engine := an_engine) w1 = Ok tt w1.
Proof.
  exact (proj1 (render_once an_engine triangle_world eq_refl eq_refl
                  triangle_data_drawable triangle_data_drawable)).
Defined.

(** A remark on data that is not valid, which the render does not handle:
    with both datasets truthy but with a [features] that is not an array,
    an invocation throws in [drawLandAreas] before the flag is set, and a
    second invocation makes the same four calls on the offscreen context
    again and throws again. *)
Lemma render_repeats_on_undrawable_data :
  ToBoolean (landData no_list_world) = true
  /\ ToBoolean (outlineData no_list_world) = true
  /\ exists w1 w2 : world,
       render2DMapOffscreen (engine := an_engine) no_list_world = Throw TypeError w1
       /\ map2DRendered w1 = false
       /\ render2DMapOffscreen (engine := an_engine) w1 = Throw TypeError w2
       /\ length (calls (offscreenCanvas w1)) = 4
       /\ length (calls (offscreenCanvas w2)) = 8.
Proof.
  split; [reflexivity|]. split; [reflexivity|].
  eexists. eexists. split; [vm_compute; reflexivity|].
  split; [reflexivity|]. split; [vm_compute; reflexivity|].
  split; reflexivity.
Qed.

(** C6, where the code departs from the claim: a null entry in the feature
    list makes [feature.geometry] throw outside the [try], which ends the
    pass and the render.  On the list [broken; null; triangle] the error of
    the first feature is caught and reported, the null entry then aborts
    [drawLandAreas] with a [TypeError], and the triangle is never drawn (the
    context has seen the two style assignments and one [beginPath] only);
    [render2DMapOffscreen] ends with the same error, its flag unset.
    Without the null entry the pass completes and draws the triangle. *)
Theorem null_feature_aborts_pass :
  forall engine : Engine,
    drawLandAreas holed_world
    = Throw TypeError
        (set_console [Warn "Error drawing land feature 0:" TypeError]
           (paint OffscreenCtx
              [FillStyle "#90EE90"; StrokeStyle "transparent"; BeginPath] holed_world))
    /\ (exists w' : world,
          render2DMapOffscreen holed_world = Throw TypeError w'
          /\ map2DRendered w' = false)
    /\ drawLandAreas mended_world
       = Ok tt
           (set_console [Warn "Error drawing land feature 0:" TypeError]
              (paint OffscreenCtx
                 [FillStyle "#90EE90"; StrokeStyle "transparent"; BeginPath;
                  BeginPath; MoveTo 180 90; LineTo 190 90; LineTo 190 80; ClosePath; Fill]
                 mended_world)).
Proof.
  intros engine. split; [vm_compute; reflexivity|].
  split; [|vm_compute; reflexivity].
  eexists. split; [vm_compute; reflexivity | reflexivity].
Qed.

(** C9: the frame callback of the toggle never throws, and when the
    statements of its [try] block throw, it reports the error and leaves
    the button enabled with the text 'Toggle Failed - Try Again'; the click
    handler itself never throws either. *)
Theorem toggle_failure_resets_button :
  forall (w w1 : world) (e : exn),
    toggleSwitch w = Throw e w1 ->
    toggleFrame w
    = Ok tt
        (set_toggleButton
           {| disabled := false; textContent := "Toggle Failed - Try Again" |}
           (set_console (console w1 ++ [Error "Error during toggle:" e]) w1))
    /\ (forall w0 : world, exists w', toggleFrame w0 = Ok tt w')
    /\ (forall w0 : world, exists w', toggle2D3D w0 = Ok tt w').
Proof.
  intros w w1 e H. repeat split.
  - unfold toggleFrame, try_catch. now rewrite H.
  - intros w0. unfold toggleFrame, try_catch.
    destruct (toggleSwitch w0) as [[] w' | e' w']; now eexists.
  - intros w0. unfold toggle2D3D, bind, gets.
    destruct (disabled (toggleButton w0)); now eexists.
Qed.

Lemma toggle_failure_resets_button_witness :
  exists w1 : world,
    toggleSwitch flat_world = Throw InvalidStateError w1
    /\ toggleFrame flat_world
       = Ok tt
           (set_toggleButton
              {| disabled := false; textContent := "Toggle Failed - Try Again" |}
              (set_console (console w1 ++ [Error "Error during toggle:" InvalidStateError]) w1)).
Proof.
  eexists. split; [vm_compute; reflexivity|].
  eapply (proj1 (toggle_failure_resets_button flat_world _ InvalidStateError _)).
  Unshelve. vm_compute. reflexivity.
Defined.

(** ** What each handler writes on the console *)

#[global] Instance says_preorder (P : entry -> Prop) : PreOrder (says P).
Proof.
  split.
  - intros w. repeat split. exists []. now rewrite app_nil_r.
  - intros w1 w2 w3 (A1 & B1 & t1 & E1 & F1) (A2 & B2 & t2 & E2 & F2).
    unfold says. rewrite A2, B2. repeat split; try assumption.
    exists (t1 ++ t2). rewrite E2, E1, app_assoc. split; [reflexivity|].
    now apply Forall_app.
Qed.

#[global] Instance logs_preorder (P : entry -> Prop) : PreOrder (logs P).
Proof.
  split.
  - intros w. split; reflexivity.
  - intros w1 w2 w3 [F1 S1] [F2 S2]. split; [congruence | now transitivity w2].
Qed.

#[global] Instance logs_by_flag_preorder : PreOrder logs_by_flag.
Proof.
  split.
  - intros w. split; [reflexivity | intros _; reflexivity].
  - intros w1 w2 w3 [A1 B1] [A2 B2]. split; [now transitivity w2|].
    intros H. transitivity w2; [now apply B1|]. apply B2.
    destruct A1 as [-> _]. exact H.
Qed.

Lemma says_weaken (P Q : entry -> Prop) (w w' : world) :
  (forall e, P e -> Q e) -> says P w w' -> says Q w w'.
Proof.
  intros HPQ (A & B & t & E & F). repeat split; try assumption.
  exists t. split; [exact E|]. eapply Forall_impl; eauto.
Qed.

Lemma logs_weaken (P Q : entry -> Prop) (w w' : world) :
  (forall e, P e -> Q e) -> logs P w w' -> logs Q w w'.
Proof. intros HPQ [F S]. split; [exact F | now apply (says_weaken P)]. Qed.

Lemma logs_says (P : entry -> Prop) (w w' : world) : logs P w w' -> says P w w'.
Proof. now intros [_ S]. Qed.

Lemma logs_not_displayed_by_flag (w w' : world) :
  logs not_displayed w w' -> logs_by_flag w w'.
Proof.
  intros H. split; [|now intros _]. now apply (logs_weaken not_displayed).
Qed.

(** Changes that add no line and keep datasets and flag. *)
Lemma logs_silent (P : entry -> Prop) (w w' : world) :
  landData w' = landData w -> outlineData w' = outlineData w ->
  map2DRendered w' = map2DRendered w -> console w' = console w ->
  logs P w w'.
Proof.
  intros H1 H2 H3 H4. repeat split; try assumption. exists [].
  now rewrite app_nil_r.
Qed.

Lemma logs_paint (P : entry -> Prop) (r : ctxref) (ops : list ctxop) (w : world) :
  logs P w (paint r ops w).
Proof. destruct r; now apply logs_silent. Qed.

Lemma logs_line (P : entry -> Prop) (e : entry) (w : world) :
  P e -> logs P w (set_console (console w ++ [e]) w).
Proof.
  intros He. repeat split. exists [e]. split; [reflexivity|]. now constructor.
Qed.

(** Descends through the control structure of a computation, leaving the
    primitive steps. *)
Ltac respects_auto :=
  repeat match goal with
         | |- PreOrder _ => typeclasses eauto
         | |- respects _ (ret _) => apply respects_ret
         | |- respects _ (throw _) => apply respects_throw
         | |- respects _ (gets _) => apply respects_gets
         | |- respects _ (lift _) => apply respects_lift
         | |- respects _ (Get _ _) => apply respects_Get
         | |- respects _ (bind _ _) => apply respects_bind
         | |- respects _ (try_catch _ _) => apply respects_try_catch
         | |- respects _ (if _ then _ else _) => apply respects_if
         | |- forall _, _ => intros ?
         end.

Lemma respects_weaken {A : Type} (R R' : relation world) (m : M A) :
  (forall w w', R w w' -> R' w w') -> respects R m -> respects R' m.
Proof. intros H Hm w. apply H, Hm. Qed.

Lemma respects_console_log (P : entry -> Prop) (s : string) :
  P (Log s) -> respects (logs P) (console_log s).
Proof. intros H w. simpl. now apply logs_line. Qed.

Lemma respects_silent (P : entry -> Prop) (f : world -> world) :
  (forall w, landData (f w) = landData w) ->
  (forall w, outlineData (f w) = outlineData w) ->
  (forall w, map2DRendered (f w) = map2DRendered w) ->
  (forall w, console (f w) = console w) ->
  respects (logs P) (modify f).
Proof. intros H1 H2 H3 H4 w. simpl. apply logs_silent; auto. Qed.

Lemma respects_emit_logs (P : entry -> Prop) (r : ctxref) (op : ctxop) :
  respects (logs P) (emit r op).
Proof. apply respects_emit. apply logs_paint. Qed.

(** [display2DMap] writes at most its report. *)
Lemma display2DMap_logs : respects (logs any_entry) display2DMap.
Proof.
  unfold display2DMap, drawImage_offscreen. respects_auto.
  - apply respects_emit_logs.
  - apply respects_emit_logs.
  - now apply respects_console_log.
Qed.

Lemma cleanupCanvas2D_logs : respects (logs not_displayed) cleanupCanvas2D.
Proof.
  unfold cleanupCanvas2D. respects_auto; apply respects_emit_logs.
Qed.

(** The click handler writes nothing. *)
Lemma toggle2D3D_logs : respects (logs not_displayed) toggle2D3D.
Proof.
  unfold toggle2D3D, requestAnimationFrame. respects_auto; now apply respects_silent.
Qed.

(** The frame callback of the toggle reports a display only when the flag
    is set. *)
Lemma toggleFrame_logs : respects logs_by_flag toggleFrame.
Proof.
  assert (quiet : forall (A : Type) (m : M A),
             respects (logs not_displayed) m -> respects logs_by_flag m).
  { intros A m. apply respects_weaken, logs_not_displayed_by_flag. }
  unfold toggleFrame. apply respects_try_catch; [typeclasses eauto | |].
  2:{ intros e. apply quiet. unfold console_error. respects_auto.
      - intros w. simpl. now apply logs_line.
      - now apply respects_silent. }
  unfold toggleSwitch.
  apply respects_bind; [typeclasses eauto | apply quiet; now apply respects_silent |].
  intros _. apply respects_bind; [typeclasses eauto | apply quiet; respects_auto |].
  intros now3D. apply respects_bind; [typeclasses eauto | |].
  2:{ intros _. apply quiet. respects_auto. now apply respects_silent. }
  destruct now3D.
  - apply quiet. respects_auto.
    + now apply respects_console_log.
    + apply cleanupCanvas2D_logs.
    + now apply respects_silent.
    + now apply respects_silent.
  - apply respects_bind;
      [typeclasses eauto | apply quiet; now apply respects_console_log |].
    intros _. apply respects_bind;
      [typeclasses eauto | apply quiet; now apply respects_silent |].
    intros _. apply respects_bind;
      [typeclasses eauto | apply quiet; now apply respects_silent |].
    intros _ w. unfold bind at 1, gets at 1.
    destruct (map2DRendered w) eqn:Hw.
    + split; [apply display2DMap_logs | congruence].
    + apply logs_not_displayed_by_flag. revert w Hw.
      assert (H : respects (logs not_displayed)
                (width <~ gets (fun w => width (canvas2D w));
                 height <~ gets (fun w => height (canvas2D w));
                 emit Ctx2D (FillStyle "#4A90E2") ;;;
                 emit Ctx2D (FillRect 0 0 (Number_of_N width) (Number_of_N height)) ;;;
                 emit Ctx2D (FillStyle "white") ;;;
                 emit Ctx2D (Font "24px Arial") ;;;
                 emit Ctx2D (TextAlign "center") ;;;
                 emit Ctx2D (FillText "2D Map Loading..."
                               (Number_of_N width / 2) (Number_of_N height / 2)) ;;;
                 setTimeout CbRenderDisplay)).
      { unfold setTimeout. respects_auto;
          first [apply respects_emit_logs | now apply respects_silent]. }
      intros w _. apply H.
Qed.

Lemma display_follows_render_nil : display_follows_render [].
Proof. intros a b H. now destruct a. Qed.

Lemma display_follows_render_quiet (t : list entry) :
  Forall not_displayed t -> display_follows_render t.
Proof.
  intros H a b E. subst t. apply Forall_app in H as [_ H].
  apply Forall_cons in H as [H _]. now contradiction H.
Qed.

Lemma display_follows_render_started (t : list entry) :
  display_follows_render (pre_render_entry :: t).
Proof.
  intros a b E. destruct a as [|e a]; [discriminate E|].
  injection E as <- _. apply elem_of_cons. now left.
Qed.

Lemma display_follows_render_app (t u : list entry) :
  display_follows_render t ->
  pre_render_entry ∈ t \/ display_follows_render u ->
  display_follows_render (t ++ u).
Proof.
  intros Ht Hu a b E.
  apply app_eq_app in E as [c [[Et Eb] | [Ea Eu]]].
  - destruct c as [|e c]; simpl in Eb.
    + rewrite app_nil_r in Et. subst a. destruct Hu as [Hu | Hu]; [exact Hu|].
      specialize (Hu [] b (eq_sym Eb)). now apply elem_of_nil in Hu.
    + injection Eb as <- ->. now apply (Ht a c).
  - subst a. apply elem_of_app. destruct Hu as [Hu | Hu]; [now left|].
    right. now apply (Hu c b).
Qed.

Section Loop.

Context {engine : Engine}.

(** The draw passes write warnings only. *)
Lemma draws_log_warnings :
  respects (logs not_displayed) drawLandAreas
  /\ respects (logs not_displayed) drawCountryBorders.
Proof.
  split.
  - apply respects_drawLandAreas; [typeclasses eauto | apply logs_paint |].
    intros s e w. now apply logs_line.
  - apply respects_drawCountryBorders; [typeclasses eauto | apply logs_paint |].
    intros s e w. now apply logs_line.
Qed.

Lemma render_unfold (w : world) :
  render2DMapOffscreen w
  = if negb (ToBoolean (landData w)) || negb (ToBoolean (outlineData w))
       || map2DRendered w
    then Ok tt w
    else after_announcement (set_console (console w ++ [pre_render_entry]) w).
Proof.
  unfold render2DMapOffscreen, bind at 1 2 3, gets at 1 2 3.
  destruct (_ || _ || _); reflexivity.
Qed.

Lemma after_announcement_says : respects (says not_displayed) after_announcement.
Proof.
  assert (quiet : forall (A : Type) (m : M A),
             respects (logs not_displayed) m -> respects (says not_displayed) m).
  { intros A m. apply respects_weaken, logs_says. }
  unfold after_announcement. respects_auto.
  - apply quiet, respects_emit_logs.
  - apply quiet, respects_emit_logs.
  - apply quiet, draws_log_warnings.
  - apply quiet, draws_log_warnings.
  - intros w. simpl. repeat split. exists []. now rewrite app_nil_r.
  - apply quiet. now apply respects_console_log.
Qed.

(** Either the render returns at once, or the flag was unset, both datasets
    were there, and its first line announces it. *)
Lemma render_effect (w : world) :
  (render2DMapOffscreen w = Ok tt w /\ (loaded w -> map2DRendered w = true))
  \/ (map2DRendered w = false
      /\ landData (final (render2DMapOffscreen w)) = landData w
      /\ outlineData (final (render2DMapOffscreen w)) = outlineData w
      /\ exists t, console (final (render2DMapOffscreen w))
                   = console w ++ pre_render_entry :: t
                   /\ Forall not_displayed t).
Proof.
  rewrite render_unfold. unfold loaded.
  destruct (ToBoolean (landData w));
    [|left; split; [reflexivity | now intros [? ?]]].
  destruct (ToBoolean (outlineData w));
    [|left; split; [reflexivity | now intros [? ?]]].
  destruct (map2DRendered w) eqn:Hr; [now left|]. right. simpl.
  split; [reflexivity|].
  destruct (after_announcement_says (set_console (console w ++ [pre_render_entry]) w))
    as (A & B & t & E & F).
  split; [exact A|]. split; [exact B|]. exists t. split; [|exact F].
  rewrite E. simpl. now rewrite <- app_assoc.
Qed.

End Loop.

Lemma handled_quiet (by_render : Prop) (w w' : world) :
  logs not_displayed w w' -> handled by_render w w'.
Proof.
  intros (F & _ & _ & u & E & Hu). exists u. split; [exact E|].
  split; [|split].
  - intros Hin. exfalso. rewrite Forall_forall in Hu. now apply (Hu _ Hin).
  - intros H. left. congruence.
  - intros _ H0. split; [now apply display_follows_render_quiet | congruence].
Qed.

Lemma handled_by_flag (by_render : Prop) (w w' : world) :
  logs_by_flag w w' -> handled by_render w w'.
Proof.
  intros [(F & _ & _ & u & E & _) Hq]. exists u. split; [exact E|].
  assert (Hu : map2DRendered w = false -> Forall not_displayed u).
  { intros H0. destruct (Hq H0) as (_ & _ & _ & u' & E' & Hu').
    rewrite E in E'. now apply app_inv_head in E' as ->. }
  split; [|split].
  - intros Hin. destruct (map2DRendered w) eqn:H0; [now left|].
    exfalso. specialize (Hu eq_refl). rewrite Forall_forall in Hu.
    now apply (Hu _ Hin).
  - intros H. left. congruence.
  - intros _ H0. split; [now apply display_follows_render_quiet, Hu | congruence].
Qed.

(** The line the event loop adds for an uncaught exception changes
    nothing. *)
Lemma handled_uncaught (by_render : Prop) (w w' : world) (e : exn) :
  handled by_render w w' ->
  handled by_render w (set_console (console w' ++ [Uncaught e]) w').
Proof.
  intros (u & E & H1 & H2 & H3). exists (u ++ [Uncaught e]). simpl.
  split; [now rewrite E, app_assoc|]. split; [|split].
  - intros Hin. apply elem_of_app in Hin as [Hin | Hin]; [now apply H1|].
    apply list_elem_of_singleton in Hin. discriminate Hin.
  - exact H2.
  - intros Hl H0. destruct (H3 Hl H0) as [H4 H5]. split.
    + apply display_follows_render_app; [exact H4|]. right.
      apply display_follows_render_quiet. now repeat constructor.
    + intros H. apply elem_of_app. left. now apply H5.
Qed.

(** Changes that touch neither console nor flag nor datasets before a
    handled step. *)
Lemma handled_after_silent (by_render : Prop) (w w0 w' : world) :
  console w0 = console w -> map2DRendered w0 = map2DRendered w ->
  landData w0 = landData w -> outlineData w0 = outlineData w ->
  handled by_render w0 w' -> handled by_render w w'.
Proof.
  intros Ec Ef El Eo (u & E & H1 & H2 & H3). exists u.
  rewrite <- Ec, <- Ef. unfold loaded in *. rewrite <- El, <- Eo.
  split; [exact E|]. split; [exact H1|]. split; [exact H2 | exact H3].
Qed.

Section LoopFacts.

Context {engine : Engine}.

Lemma render_handled (w : world) :
  handled True w (final (render2DMapOffscreen w)).
Proof.
  destruct (render_effect w) as [[E Hl] | (H0 & _ & _ & t & E & F)].
  - rewrite E. simpl. exists []. rewrite app_nil_r. split; [reflexivity|].
    split; [|split].
    + intros Hin. now apply elem_of_nil in Hin.
    + intros H. now left.
    + intros L H0. specialize (Hl L). congruence.
  - exists (pre_render_entry :: t). split; [exact E|]. split; [|split].
    + intros _. now right.
    + intros _. now right.
    + intros _ _. split; [apply display_follows_render_started|].
      intros _. apply elem_of_cons. now left.
Qed.

Lemma render_display_handled (w : world) :
  handled True w (final ((render2DMapOffscreen ;;; display2DMap) w)).
Proof.
  unfold bind.
  destruct (render2DMapOffscreen w) as [[] w1 | e w1] eqn:Er.
  2:{ pose proof (render_handled w) as H. now rewrite Er in H. }
  destruct (display2DMap_logs w1) as (Fd & _ & _ & u2 & E2 & _).
  destruct (render_effect w) as [[E Hl] | (H0 & _ & _ & t & E & F)].
  - rewrite Er in E. injection E as ->. exists u2. split; [exact E2|].
    split; [|split].
    + intros _. now right.
    + intros _. now right.
    + intros L H0. specialize (Hl L). congruence.
  - rewrite Er in E. simpl in E. exists (pre_render_entry :: t ++ u2).
    split; [rewrite E2, E; now rewrite <- app_assoc|]. split; [|split].
    + intros _. now right.
    + intros _. now right.
    + intros _ _. split; [apply display_follows_render_started|].
      intros _. apply elem_of_cons. now left.
Qed.

Lemma callback_handled (cb : callback) (w : world) :
  handled (begins_with_render cb) w (final (run_callback cb w)).
Proof.
  destruct cb; simpl.
  - destruct (render_handled w) as (u & E & H1 & H2 & H3). exists u.
    split; [exact E|]. split; [|split; [|exact H3]].
    + intros Hin. destruct (H1 Hin); [now left | right; now left].
    + intros Hf. destruct (H2 Hf); [now left | right; now left].
  - destruct (render_display_handled w) as (u & E & H1 & H2 & H3). exists u.
    split; [exact E|]. split; [|split; [|exact H3]].
    + intros Hin. destruct (H1 Hin); [now left | right; now right].
    + intros Hf. destruct (H2 Hf); [now left | right; now right].
  - apply handled_by_flag, toggleFrame_logs.
Qed.

Lemma resize_handled (newWidth newHeight : N) (w : world) :
  handled False w (final (handleWindowResize newWidth newHeight w))
  /\ map2DRendered (final (handleWindowResize newWidth newHeight w)) = false
  /\ landData (final (handleWindowResize newWidth newHeight w)) = landData w
  /\ outlineData (final (handleWindowResize newWidth newHeight w)) = outlineData w.
Proof.
  unfold handleWindowResize, bind, modify, gets, setTimeout. simpl.
  destruct (negb (is3D w) && ToBoolean (landData w) && ToBoolean (outlineData w));
    simpl; (split; [|now repeat split]);
    exists []; rewrite app_nil_r; repeat split; try discriminate;
    try (intros Hin; now apply elem_of_nil in Hin);
    try apply display_follows_render_nil.
Qed.

Lemma loaded_handled (data : value) (w : world) :
  handled False w (final (landLoaded data w))
  /\ handled False w (final (outlineLoaded data w)).
Proof.
  assert (Hnil : forall w', console w' = console w ->
                            map2DRendered w' = map2DRendered w -> handled False w w').
  { intros w' Ec Ef. exists []. rewrite app_nil_r. split; [exact Ec|].
    rewrite Ef. repeat split.
    - intros Hin. now apply elem_of_nil in Hin.
    - now left.
    - apply display_follows_render_nil.
    - congruence. }
  unfold landLoaded, outlineLoaded, bind, modify, gets, setTimeout, throw, ret.
  split.
  - destruct (drawThreeGeo data); [now apply Hnil|].
    destruct (ToBoolean _); now apply Hnil.
  - destruct (drawThreeGeo data); [now apply Hnil|].
    destruct (ToBoolean _); now apply Hnil.
Qed.

(** One turn of the event loop. *)
Lemma step_handled (w : world) (ev : event) :
  handled (invokes_render w ev) w (step w ev).
Proof.
  assert (Hstep : forall by_render : Prop,
             handled by_render w (final (handler ev w)) ->
             handled by_render w (step w ev)).
  { intros by_render H. unfold step.
    destruct (handler ev w); [exact H | now apply handled_uncaught]. }
  assert (Hless : forall w', handled False w w' -> handled (invokes_render w ev) w w').
  { intros w' (u & E & H1 & H2 & H3). exists u. split; [exact E|].
    split; [|split; [|exact H3]].
    - intros Hin. destruct (H1 Hin); [now left | contradiction].
    - intros Hf. destruct (H2 Hf); [now left | contradiction]. }
  apply Hstep. destruct ev; simpl.
  - apply handled_quiet, toggle2D3D_logs.
  - unfold bind at 1, gets at 1. destruct (frames w) as [|cb rest] eqn:Eq.
    + simpl. apply handled_quiet. reflexivity.
    + unfold bind, modify.
      eapply handled_after_silent;
        [| | | | destruct (callback_handled cb (set_frames rest w)) as (u & E & H1 & H2 & H3);
                 exists u; split; [exact E|]; split; [|split; [|exact H3]] ];
        try reflexivity.
      * intros Hin. destruct (H1 Hin); [now left|]. right. exists cb.
        simpl. rewrite Eq. now split.
      * intros Hf. destruct (H2 Hf); [now left|]. right. exists cb.
        simpl. rewrite Eq. now split.
  - unfold bind at 1, gets at 1. destruct (timers w) as [|cb rest] eqn:Eq.
    + simpl. apply handled_quiet. reflexivity.
    + unfold bind, modify.
      eapply handled_after_silent;
        [| | | | destruct (callback_handled cb (set_timers rest w)) as (u & E & H1 & H2 & H3);
                 exists u; split; [exact E|]; split; [|split; [|exact H3]] ];
        try reflexivity.
      * intros Hin. destruct (H1 Hin); [now left|]. right. exists cb.
        simpl. rewrite Eq. now split.
      * intros Hf. destruct (H2 Hf); [now left|]. right. exists cb.
        simpl. rewrite Eq. now split.
  - apply Hless, resize_handled.
  - apply Hless, loaded_handled.
  - apply Hless, loaded_handled.
Qed.

End LoopFacts.

Section Runs.

Context {engine : Engine}.

Lemma run_snoc (w : world) (evs : list event) (ev : event) :
  run w (evs ++ [ev]) = step (run w evs) ev.
Proof. unfold run. now rewrite fold_left_app. Qed.

Lemma render_says : respects (says not_displayed) render2DMapOffscreen.
Proof.
  intros w. rewrite render_unfold.
  destruct (_ || _ || _); [reflexivity|].
  etransitivity; [|apply after_announcement_says].
  apply (logs_says not_displayed). now apply logs_line.
Qed.

Lemma callback_says (cb : callback) : respects (says any_entry) (run_callback cb).
Proof.
  assert (Hr : respects (says any_entry) render2DMapOffscreen).
  { eapply respects_weaken; [|apply render_says]. intros w w'.
    now apply says_weaken. }
  assert (Hd : respects (says any_entry) display2DMap).
  { eapply respects_weaken; [|apply display2DMap_logs]. intros w w'.
    apply logs_says. }
  destruct cb; simpl.
  - exact Hr.
  - apply respects_bind; [typeclasses eauto | exact Hr | intros _; exact Hd].
  - eapply respects_weaken; [|apply toggleFrame_logs]. intros w w' [H _].
    now apply logs_says.
Qed.

(** The events of user and clock leave the datasets alone. *)
Lemma step_keeps_data (w : world) (ev : event) :
  user_event ev ->
  landData (step w ev) = landData w /\ outlineData (step w ev) = outlineData w.
Proof.
  intros Hev.
  assert (H : says any_entry w (final (handler ev w))).
  { destruct ev; simpl; try contradiction.
    - apply (says_weaken not_displayed); [easy|].
      apply logs_says, toggle2D3D_logs.
    - unfold bind at 1, gets at 1. destruct (frames w) as [|cb rest]; [reflexivity|].
      unfold bind, modify.
      destruct (callback_says cb (set_frames rest w)) as (A & B & t & E & F).
      repeat split; try assumption. now exists t.
    - unfold bind at 1, gets at 1. destruct (timers w) as [|cb rest]; [reflexivity|].
      unfold bind, modify.
      destruct (callback_says cb (set_timers rest w)) as (A & B & t & E & F).
      repeat split; try assumption. now exists t.
    - destruct (resize_handled newWidth newHeight w) as ((u & E & _) & _ & A & B).
      repeat split; try assumption. exists u. split; [exact E|].
      apply Forall_forall. now intros. }
  destruct H as (A & B & _). unfold step.
  destruct (handler ev w); simpl in *; now split.
Qed.

(** After a resize the flag stays unset until a render is invoked. *)
Lemma flag_needs_render (w : world) (evs : list event) :
  map2DRendered w = false ->
  map2DRendered (run w evs) = true -> render_invoked w evs.
Proof.
  intros H0. induction evs as [|ev evs IH] using rev_ind; [simpl; congruence|].
  rewrite run_snoc. intros Hf.
  destruct (step_handled (run w evs) ev) as (u & _ & _ & H2 & _).
  destruct (H2 Hf) as [Hold | Hnew].
  - destruct (IH Hold) as (pre & post & ev' & E & Hinv).
    exists pre, (post ++ [ev]), ev'. split; [|exact Hinv].
    rewrite E. now rewrite <- app_assoc.
  - exists evs, [], ev. now split.
Qed.

(** With both datasets there, the console after a resize shows each display
    after an announcement of the render. *)
Lemma console_after_resize (w : world) (evs : list event) :
  loaded w -> map2DRendered w = false -> Forall user_event evs ->
  loaded (run w evs)
  /\ exists t, console (run w evs) = console w ++ t
               /\ display_follows_render t
               /\ (map2DRendered (run w evs) = true -> pre_render_entry ∈ t).
Proof.
  intros L H0. induction evs as [|ev evs IH] using rev_ind; intros Hevs.
  - split; [exact L|]. exists []. rewrite app_nil_r. split; [reflexivity|].
    split; [apply display_follows_render_nil | simpl; congruence].
  - apply Forall_app in Hevs as [Hevs Hev]. apply Forall_cons in Hev as [Hev _].
    destruct (IH Hevs) as (L' & t & E & G & S). rewrite run_snoc.
    destruct (step_keeps_data (run w evs) ev Hev) as [A B].
    split; [unfold loaded in *; now rewrite A, B|].
    destruct (step_handled (run w evs) ev) as (u & Eu & H1 & H2 & H3).
    exists (t ++ u). split; [now rewrite Eu, E, app_assoc|].
    destruct (map2DRendered (run w evs)) eqn:Hf.
    + split; [apply display_follows_render_app; [exact G | left; now apply S]|].
      intros _. apply elem_of_app. left. now apply S.
    + destruct (H3 L' eq_refl) as [H4 H5]. split.
      * apply display_follows_render_app; [exact G | now right].
      * intros Hf'. apply elem_of_app. right. now apply H5.
Qed.

End Runs.

(** C8: a resize leaves the flag unset, whatever the world it happens in;
    from then on, whatever events follow, a display is reported on the
    console only after an event has run a callback that invokes
    [render2DMapOffscreen]; and when both datasets were there at the resize
    and no dataset arrives later, every report of a display on the console
    follows the announcement of a render made after the resize: no display
    blits a buffer composed before it. *)
Theorem resize_forces_rerender :
  forall (engine : Engine) (w : world) (newWidth newHeight : N),
    let w1 := step w (Resize newWidth newHeight) in
    map2DRendered w1 = false
    /\ (forall (evs : list event) (ev : event) (u : list entry),
          console (run w1 (evs ++ [ev])) = console (run w1 evs) ++ u ->
          displayed_entry ∈ u ->
          render_invoked w1 (evs ++ [ev]))
    /\ (loaded w ->
        forall evs : list event,
          Forall user_event evs ->
          exists t : list entry,
            console (run w1 evs) = console w1 ++ t /\ display_follows_render t).
Proof.
  intros engine w newWidth newHeight w1.
  assert (H0 : map2DRendered w1 = false).
  { subst w1. unfold step. simpl.
    destruct (resize_handled newWidth newHeight w) as (_ & F & _).
    now destruct (handleWindowResize newWidth newHeight w). }
  split; [exact H0|]. split.
  - intros evs ev u E Hin. rewrite run_snoc in E.
    destruct (step_handled (run w1 evs) ev) as (u' & E' & H1 & _).
    rewrite E' in E. apply app_inv_head in E as <-.
    destruct (H1 Hin) as [Hf | Hinv].
    + destruct (flag_needs_render w1 evs H0 Hf) as (pre & post & ev' & Ev & Hinv).
      exists pre, (post ++ [ev]), ev'. split; [|exact Hinv].
      rewrite Ev. now rewrite <- app_assoc.
    + exists evs, [], ev. now split.
  - intros L evs Hevs.
    assert (L1 : loaded w1).
    { subst w1. destruct (step_keeps_data w (Resize newWidth newHeight) I) as [A B].
      unfold loaded in *. now rewrite A, B. }
    destruct (console_after_resize w1 evs L1 H0 Hevs) as (_ & t & E & G & _).
    now exists t.
Qed.

Lemma resize_forces_rerender_witness :
  render_invoked (engine := an_engine)
    (step (engine := an_engine) triangle_world (Resize 360 180)) [Click; Frame; Timer].
Proof.
  apply (proj1 (proj2 (resize_forces_rerender an_engine triangle_world 360 180))
           [Click; Frame] Timer
           [pre_render_entry; Log "2D map pre-rendering completed"; displayed_entry]).
  - vm_compute. reflexivity.
  - apply elem_of_cons. right. apply elem_of_cons. right. apply elem_of_cons. now left.
Defined.

(** ** Rounding to binary64 keeps the order *)

Section Rounding.

Local Open Scope Z_scope.

Lemma digits2_pos_log2 (m : positive) :
  Zpos (digits2_pos m) = Z.log2 (Zpos m) + 1.
Proof.
  induction m as [m IH | m IH |]; simpl; try reflexivity.
  - destruct m; simpl in *; lia.
  - destruct m; simpl in *; lia.
Qed.

Lemma digits2_pos_bounds (m : positive) :
  2 ^ (Zpos (digits2_pos m) - 1) <= Zpos m < 2 ^ Zpos (digits2_pos m).
Proof.
  rewrite digits2_pos_log2.
  replace (Z.log2 (Zpos m) + 1 - 1) with (Z.log2 (Zpos m)) by lia.
  apply Z.log2_spec. lia.
Qed.

Lemma iter_pos_nat {A : Type} (f : A -> A) (p : positive) (a : A) :
  SpecFloat.iter_pos f p a = Nat.iter (Pos.to_nat p) f a.
Proof.
  revert a. induction p as [p IH | p IH |]; intros a; cbn [SpecFloat.iter_pos].
  - rewrite !IH, Pos2Nat.inj_xI, Nat.iter_succ_r.
    replace (2 * Pos.to_nat p)%nat with (Pos.to_nat p + Pos.to_nat p)%nat by lia.
    now rewrite Nat.iter_add.
  - rewrite !IH, Pos2Nat.inj_xO.
    replace (2 * Pos.to_nat p)%nat with (Pos.to_nat p + Pos.to_nat p)%nat by lia.
    now rewrite Nat.iter_add.
  - reflexivity.
Qed.

(** The mantissa after [k] right shifts. *)
Lemma shr_1_m (mrs : shr_record) :
  0 <= shr_m mrs -> shr_m (shr_1 mrs) = Z.div (shr_m mrs) 2.
Proof.
  destruct mrs as [m r s]. simpl. intros Hm.
  destruct m as [|p|p]; [reflexivity | | lia].
  destruct p as [p|p|]; simpl.
  - rewrite Pos2Z.inj_xI. apply Z.div_unique with 1; lia.
  - rewrite Pos2Z.inj_xO. apply Z.div_unique with 0; lia.
  - reflexivity.
Qed.

Lemma shr_iter_m (k : nat) (mrs : shr_record) :
  0 <= shr_m mrs ->
  shr_m (Nat.iter k shr_1 mrs) = Z.div (shr_m mrs) (2 ^ Z.of_nat k).
Proof.
  intros Hm. induction k as [|k IH].
  - simpl. now rewrite Z.div_1_r.
  - rewrite Nat.iter_succ, shr_1_m; rewrite IH.
    + rewrite Nat2Z.inj_succ, Z.pow_succ_r by lia.
      rewrite Z.div_div by lia. f_equal. lia.
    + apply Z.div_pos; lia.
Qed.

Lemma shr_1_spec (m : Z) (r s : bool) :
  0 <= m ->
  shr_1 {| shr_m := m; shr_r := r; shr_s := s |}
  = {| shr_m := Z.div m 2; shr_r := Z.odd m; shr_s := r || s |}.
Proof.
  intros Hm. destruct m as [|p|p]; [reflexivity | | lia].
  destruct p as [p|p|]; cbn [shr_1 Z.odd].
  - f_equal. rewrite Pos2Z.inj_xI. apply Z.div_unique with 1; lia.
  - f_equal. rewrite Pos2Z.inj_xO. apply Z.div_unique with 0; lia.
  - reflexivity.
Qed.

Lemma mod_pow2_succ (m k : Z) :
  0 <= k ->
  Z.modulo m (2 ^ (k + 1))
  = Z.modulo m (2 ^ k) + 2 ^ k * Z.modulo (Z.div m (2 ^ k)) 2.
Proof.
  intros Hk. rewrite Z.pow_add_r, Z.pow_1_r by lia.
  apply Z.rem_mul_r; [|lia]. apply Z.pow_nonzero; lia.
Qed.

(** [k >= 1] right shifts of an exact mantissa: quotient, round bit and
    sticky bit. *)
Lemma shr_iter_exact (k : nat) (m : Z) :
  0 <= m ->
  Nat.iter (S k) shr_1 {| shr_m := m; shr_r := false; shr_s := false |}
  = {| shr_m := Z.div m (2 ^ Z.of_nat (S k));
       shr_r := Z.odd (Z.div m (2 ^ Z.of_nat k));
       shr_s := negb (Z.modulo m (2 ^ Z.of_nat k) =? 0) |}.
Proof.
  intros Hm. induction k as [|k IH].
  - cbn [Nat.iter]. rewrite shr_1_spec by exact Hm.
    change (2 ^ Z.of_nat 0) with 1. change (2 ^ Z.of_nat 1) with 2.
    now rewrite Z.div_1_r, Z.mod_1_r.
  - rewrite Nat.iter_succ, IH.
    rewrite shr_1_spec by (apply Z.div_pos; lia).
    assert (Hk : 0 <= Z.of_nat k) by lia.
    rewrite (Nat2Z.inj_succ (S k)), (Nat2Z.inj_succ k).
    unfold Z.succ. f_equal.
    + rewrite (Z.pow_add_r 2 (Z.of_nat k + 1) 1), Z.pow_1_r by lia.
      rewrite Z.div_div; [reflexivity | apply Z.pow_nonzero; lia | lia].
    + rewrite (mod_pow2_succ m (Z.of_nat k)) by lia.
      pose proof (Z.mod_pos_bound m (2 ^ Z.of_nat k) ltac:(apply Z.pow_pos_nonneg; lia)).
      pose proof (Z.pow_pos_nonneg 2 (Z.of_nat k) ltac:(lia) ltac:(lia)).
      rewrite Zodd_mod.
      pose proof (Z.mod_pos_bound (Z.div m (2 ^ Z.of_nat k)) 2 ltac:(lia)).
      destruct (Z.eqb_spec (Z.modulo (Z.div m (2 ^ Z.of_nat k)) 2) 1) as [E|E];
        destruct (Z.eqb_spec (Z.modulo m (2 ^ Z.of_nat k)) 0) as [E'|E'];
        cbn [negb orb].
      all: try rewrite E; try rewrite E'.
      all: destruct (Z.eqb_spec (m `mod` 2 ^ Z.of_nat k + 2 ^ Z.of_nat k * ((m `div` 2 ^ Z.of_nat k) `mod` 2)) 0) as [E''|E'']; try rewrite E in *; try rewrite E' in *; simpl; try reflexivity; try nia.
Qed.

Lemma RNE_0 (m : Z) : RNE m 0 = m.
Proof.
  unfold RNE. change (2 ^ 0) with 1. rewrite Z.mod_1_r, Z.div_1_r. reflexivity.
Qed.

Lemma RNE_bounds (m s : Z) :
  Z.div m (2 ^ s) <= RNE m s <= Z.div m (2 ^ s) + 1.
Proof.
  unfold RNE. destruct (_ ?= _); [destruct (Z.even _)| |]; lia.
Qed.

Lemma round_shr_RNE (m : Z) (k : nat) :
  0 <= m ->
  round_nearest_even (Z.div m (2 ^ Z.of_nat (S k)))
    (loc_of_shr_record
       {| shr_m := Z.div m (2 ^ Z.of_nat (S k));
          shr_r := Z.odd (Z.div m (2 ^ Z.of_nat k));
          shr_s := negb (Z.modulo m (2 ^ Z.of_nat k) =? 0) |})
  = RNE m (Z.of_nat (S k)).
Proof.
  intros Hm. unfold RNE.
  rewrite (Nat2Z.inj_succ k). unfold Z.succ.
  rewrite (mod_pow2_succ m (Z.of_nat k)) by lia.
  rewrite (Z.pow_add_r 2 (Z.of_nat k) 1), Z.pow_1_r by lia.
  pose proof (Z.mod_pos_bound m (2 ^ Z.of_nat k) ltac:(apply Z.pow_pos_nonneg; lia)) as Hr.
  pose proof (Z.pow_pos_nonneg 2 (Z.of_nat k) ltac:(lia) ltac:(lia)) as Hp.
  pose proof (Z.mod_pos_bound (Z.div m (2 ^ Z.of_nat k)) 2 ltac:(lia)) as Hb.
  rewrite Zodd_mod.
  set (P := 2 ^ Z.of_nat k) in *. set (r := Z.modulo m P) in *.
  set (b := Z.modulo (Z.div m P) 2) in *.
  destruct (Z.eqb_spec b 1) as [Eb|Eb]; destruct (Z.eqb_spec r 0) as [Er|Er];
    cbn [negb loc_of_shr_record round_nearest_even].
  - replace (2 * (r + P * b) ?= P * 2) with Eq; [reflexivity|].
    symmetry. apply Z.compare_eq_iff. nia.
  - replace (2 * (r + P * b) ?= P * 2) with Gt; [reflexivity|].
    symmetry. apply Z.compare_gt_iff. nia.
  - replace (2 * (r + P * b) ?= P * 2) with Lt; [reflexivity|].
    symmetry. apply Z.compare_lt_iff. nia.
  - replace (2 * (r + P * b) ?= P * 2) with Lt; [reflexivity|].
    symmetry. apply Z.compare_lt_iff. nia.
Qed.

(** Shifting an exact mantissa right by [s >= 0] and rounding the result
    to nearest even is [RNE]. *)
Lemma shr_exact_RNE (m e s : Z) :
  0 <= m -> 0 <= s ->
  snd (shr {| shr_m := m; shr_r := false; shr_s := false |} e s) = e + s
  /\ (let mrs := fst (shr {| shr_m := m; shr_r := false; shr_s := false |} e s) in
      round_nearest_even (shr_m mrs) (loc_of_shr_record mrs)) = RNE m s.
Proof.
  intros Hm Hs. destruct s as [|p|p]; [| |lia].
  - cbn [shr fst snd]. split; [lia|]. now rewrite RNE_0.
  - cbn [shr fst snd]. split; [reflexivity|].
    rewrite iter_pos_nat.
    destruct (Pos2Nat.is_succ p) as [k Hk]. rewrite Hk.
    rewrite shr_iter_exact by exact Hm. cbv zeta. cbn [shr_m].
    rewrite round_shr_RNE by exact Hm.
    f_equal. rewrite <- Hk. now rewrite positive_nat_Z.
Qed.

Lemma fexp_64 (mag : Z) : fexp prec emax mag = fexp64 mag.
Proof. reflexivity. Qed.

(** The rounded mantissa stays within one binade. *)
Lemma RNE_upper (n e : Z) :
  0 < n ->
  e <= fexp64 (Z.log2 n + 1 + e) ->
  RNE n (fexp64 (Z.log2 n + 1 + e) - e) <= 2 ^ 53.
Proof.
  intros Hn He. set (E := fexp64 (Z.log2 n + 1 + e)) in *.
  pose proof (RNE_bounds n (E - e)) as [_ H].
  assert (Z.div n (2 ^ (E - e)) < 2 ^ 53); [|lia].
  apply Z.div_lt_upper_bound; [apply Z.pow_pos_nonneg; lia|].
  rewrite <- Z.pow_add_r by lia.
  pose proof (Z.log2_spec n Hn) as [_ Hlog].
  eapply Z.lt_le_trans; [exact Hlog|].
  apply Z.pow_le_mono_r; [lia|]. unfold E, fexp64. lia.
Qed.

Lemma RNE_lower (n e : Z) :
  0 < n ->
  e <= fexp64 (Z.log2 n + 1 + e) ->
  -1074 < fexp64 (Z.log2 n + 1 + e) ->
  2 ^ 52 <= RNE n (fexp64 (Z.log2 n + 1 + e) - e).
Proof.
  intros Hn He HE. set (E := fexp64 (Z.log2 n + 1 + e)) in *.
  assert (Es : E - e = Z.log2 n - 52) by (unfold E, fexp64 in *; lia).
  pose proof (RNE_bounds n (E - e)) as [Hq _].
  assert (2 ^ 52 <= Z.div n (2 ^ (E - e))); [|lia].
  rewrite Es. apply Z.div_le_lower_bound; [apply Z.pow_pos_nonneg; lia|].
  rewrite <- Z.pow_add_r by lia.
  replace (Z.log2 n - 52 + 52) with (Z.log2 n) by lia.
  apply (Z.log2_spec n Hn).
Qed.

Lemma shr_nonpos (mrs : shr_record) (e n : Z) : n <= 0 -> shr mrs e n = (mrs, e).
Proof. intros Hn. destruct n; [reflexivity | lia | reflexivity]. Qed.

Lemma fexp64_ge (mag : Z) : -1074 <= fexp64 mag.
Proof. unfold fexp64. lia. Qed.

(** What [binary_round_aux] returns for an exact positive mantissa with
    enough bits: the number at position [ordG]. *)
Lemma round_aux_repr (m : positive) (e : Z) :
  e <= fexp64 (Z.log2 (Zpos m) + 1 + e) ->
  repr (binary_round_aux prec emax false (Zpos m) e loc_Exact) (ordG (Zpos m) e).
Proof.
  intros He. unfold binary_round_aux, shr_fexp at 1.
  rewrite fexp_64. cbn [Zdigits2 shr_record_of_loc]. rewrite digits2_pos_log2.
  unfold ordG.
  set (E := fexp64 (Z.log2 (Zpos m) + 1 + e)) in *.
  pose proof (fexp64_ge (Z.log2 (Zpos m) + 1 + e)) as HE. fold E in HE.
  destruct (shr_exact_RNE (Zpos m) e (E - e)) as [He' Hq]; [lia | lia |].
  destruct (shr _ e (E - e)) as [mrs' e'] eqn:Hshr. cbn [fst snd] in He', Hq.
  rewrite Hq. subst e'. replace (e + (E - e)) with E by lia.
  pose proof (RNE_upper (Zpos m) e ltac:(lia) He) as Hup. fold E in Hup.
  pose proof (RNE_lower (Zpos m) e ltac:(lia) He) as Hlow. fold E in Hlow.
  pose proof (RNE_bounds (Zpos m) (E - e)) as [Hq0 _].
  assert (0 <= Z.div (Zpos m) (2 ^ (E - e))) by (apply Z.div_pos; [lia | apply Z.pow_pos_nonneg; lia]).
  set (q := RNE (Zpos m) (E - e)) in *.
  unfold shr_fexp. rewrite fexp_64. cbn [shr_record_of_loc].
  destruct q as [|q'|q'] eqn:Eq; [| |lia].
  - cbn [Zdigits2]. rewrite shr_nonpos by (unfold fexp64; lia).
    cbn [shr_m repr]. destruct (Z.eq_dec E (-1074)) as [->|Hne]; [reflexivity|].
    assert (2 ^ 52 <= 0) by (apply Hlow; lia). lia.
  - cbn [Zdigits2]. rewrite digits2_pos_log2.
    destruct (Z.eq_dec (Zpos q') (2 ^ 53)) as [E53 | N53].
    + assert (q' = 9007199254740992%positive) as -> by lia.
      change (Z.log2 (Zpos 9007199254740992) + 1) with 54.
      replace (fexp64 (54 + E) - E) with 1 by (unfold fexp64; lia).
      cbn [shr SpecFloat.iter_pos shr_1 shr_m].
      destruct (Z.leb_spec (E + 1) (emax - prec)) as [Hfin | Hinf]; cbn [repr].
      * change (Zpos 9007199254740992) with (2 ^ 53) in *. lia.
      * change (emax - prec) with 971 in Hinf.
        change (Zpos 9007199254740992) with (2 ^ 53) in *. lia.
    + assert (Hlt : Zpos q' < 2 ^ 53) by lia.
      assert (Hd : Z.log2 (Zpos q') < 53) by (apply Z.log2_lt_pow2; lia).
      rewrite shr_nonpos by (unfold fexp64; lia).
      cbn [shr_m].
      destruct (Z.leb_spec E (emax - prec)) as [Hfin | Hinf]; cbn [repr].
      * reflexivity.
      * change (emax - prec) with 971 in Hinf.
        assert (2 ^ 52 <= Zpos q') by (apply Hlow; lia). lia.
Qed.

Lemma iter_xO_pow2 (m d : positive) :
  Zpos (Pos.iter xO m d) = Zpos m * 2 ^ Zpos d.
Proof.
  apply (Pos.iter_ind positive xO m (fun d r => Zpos r = Zpos m * 2 ^ Zpos d)).
  - rewrite Pos2Z.inj_xO. lia.
  - intros p a IH. rewrite Pos2Z.inj_xO, IH, Pos2Z.inj_succ, Z.pow_succ_r; lia.
Qed.

(** [shl_align] lowers the exponent to [ex'] when it is below [ex], and
    keeps the value. *)
Lemma shl_align_spec (mx : positive) (ex ex' : Z) :
  snd (shl_align mx ex ex') = Z.min ex ex'
  /\ Zpos (fst (shl_align mx ex ex')) = Zpos mx * 2 ^ (ex - Z.min ex ex').
Proof.
  unfold shl_align. destruct (ex' - ex) as [|d|d] eqn:Hd; cbn [fst snd].
  - split; [lia|]. replace (ex - Z.min ex ex') with 0 by lia. lia.
  - split; [lia|]. replace (ex - Z.min ex ex') with 0 by lia. lia.
  - split; [lia|]. rewrite iter_xO_pow2. f_equal. f_equal. lia.
Qed.

Lemma compare_scale (a b p : Z) : 0 < p -> (a * p ?= b * p) = (a ?= b).
Proof.
  intros Hp. destruct (Z.compare_spec a b) as [H | H | H].
  - subst. apply Z.compare_refl.
  - apply Z.compare_lt_iff. nia.
  - apply Z.compare_gt_iff. nia.
Qed.

(** Scaling mantissa and shift together does not change the rounding. *)
Lemma RNE_scale (n s j : Z) :
  0 <= s -> 0 <= j -> RNE (n * 2 ^ j) (s + j) = RNE n s.
Proof.
  intros Hs Hj. unfold RNE.
  assert (Hp : 0 < 2 ^ j) by (apply Z.pow_pos_nonneg; lia).
  assert (Hq : 0 < 2 ^ s) by (apply Z.pow_pos_nonneg; lia).
  rewrite Z.pow_add_r by lia.
  rewrite Z.div_mul_cancel_r by lia.
  rewrite Z.mul_mod_distr_r by lia.
  rewrite Z.mul_assoc, compare_scale by lia.
  reflexivity.
Qed.

Lemma ordG_scale (n e j : Z) :
  0 < n -> 0 <= j ->
  e <= fexp64 (Z.log2 n + 1 + e) ->
  ordG (n * 2 ^ j) (e - j) = ordG n e.
Proof.
  intros Hn Hj He. unfold ordG.
  rewrite Z.log2_mul_pow2 by lia.
  replace (j + Z.log2 n + 1 + (e - j)) with (Z.log2 n + 1 + e) by lia.
  set (E := fexp64 (Z.log2 n + 1 + e)) in *.
  replace (E - (e - j)) with (E - e + j) by lia.
  rewrite RNE_scale by lia. reflexivity.
Qed.

Lemma RNE_mono (n1 n2 s : Z) :
  0 <= s -> n1 <= n2 -> RNE n1 s <= RNE n2 s.
Proof.
  intros Hs Hn. unfold RNE.
  assert (Hp : 0 < 2 ^ s) by (apply Z.pow_pos_nonneg; lia).
  pose proof (Z.div_le_mono n1 n2 (2 ^ s) Hp Hn) as Hq.
  pose proof (Z.mod_pos_bound n1 (2 ^ s) Hp) as Hr1.
  pose proof (Z.mod_pos_bound n2 (2 ^ s) Hp) as Hr2.
  pose proof (Z.div_mod n1 (2 ^ s) ltac:(lia)) as D1.
  pose proof (Z.div_mod n2 (2 ^ s) ltac:(lia)) as D2.
  set (q1 := Z.div n1 (2 ^ s)) in *. set (q2 := Z.div n2 (2 ^ s)) in *.
  set (r1 := Z.modulo n1 (2 ^ s)) in *. set (r2 := Z.modulo n2 (2 ^ s)) in *.
  set (P := 2 ^ s) in *.
  destruct (Z.eq_dec q1 q2) as [Eq | Nq].
  - assert (r1 <= r2) by nia. rewrite <- Eq.
    destruct (Z.compare_spec (2 * r1) P); destruct (Z.compare_spec (2 * r2) P);
      destruct (Z.even q1); lia.
  - assert (q1 + 1 <= q2) by lia.
    destruct (Z.compare_spec (2 * r1) P); destruct (Z.compare_spec (2 * r2) P);
      destruct (Z.even q1); destruct (Z.even q2); lia.
Qed.

Lemma ordG_mono (n1 n2 e : Z) :
  0 < n1 -> n1 <= n2 -> e <= -1074 -> ordG n1 e <= ordG n2 e.
Proof.
  intros H1 H12 He.
  pose proof (Z.log2_le_mono n1 n2 H12) as Hlog.
  pose proof (fexp64_ge (Z.log2 n1 + 1 + e)) as G1.
  pose proof (fexp64_ge (Z.log2 n2 + 1 + e)) as G2.
  pose proof (RNE_upper n1 e H1 ltac:(lia)) as U1.
  pose proof (RNE_lower n2 e ltac:(lia) ltac:(lia)) as L2.
  unfold ordG.
  set (E1 := fexp64 (Z.log2 n1 + 1 + e)) in *.
  set (E2 := fexp64 (Z.log2 n2 + 1 + e)) in *.
  assert (HE : E1 <= E2) by (unfold E1, E2, fexp64; lia).
  destruct (Z.eq_dec E1 E2) as [Eq | Ne].
  - rewrite <- Eq. pose proof (RNE_mono n1 n2 (E1 - e) ltac:(lia) H12). lia.
  - assert (2 ^ 52 <= RNE n2 (E2 - e)) by (apply L2; lia). nia.
Qed.

Lemma ordG_nonneg (n e : Z) : 0 <= n -> e <= fexp64 (Z.log2 n + 1 + e) -> 0 <= ordG n e.
Proof.
  intros Hn He. unfold ordG.
  pose proof (fexp64_ge (Z.log2 n + 1 + e)).
  pose proof (RNE_bounds n (fexp64 (Z.log2 n + 1 + e) - e)) as [Hq _].
  assert (0 <= Z.div n (2 ^ (fexp64 (Z.log2 n + 1 + e) - e)))
    by (apply Z.div_pos; [lia | apply Z.pow_pos_nonneg; lia]).
  nia.
Qed.

(** What [binary_round] returns for a positive mantissa: the number nearest
    to its value, which is [m * 2^(e + 1074)] units of [2^-1074]. *)
Lemma binary_round_repr (m : positive) (e : Z) :
  -1074 <= e ->
  repr (binary_round prec emax false m e) (ordG (Zpos m * 2 ^ (e + 1074)) (-1074)).
Proof.
  intros He. unfold binary_round. rewrite fexp_64, digits2_pos_log2.
  set (E := fexp64 (Z.log2 (Zpos m) + 1 + e)).
  pose proof (fexp64_ge (Z.log2 (Zpos m) + 1 + e)) as HE. fold E in HE.
  destruct (shl_align_spec m e E) as [Hez Hmz].
  destruct (shl_align m e E) as [mz ez]. cbn [fst snd] in Hez, Hmz.
  assert (Hlog : Z.log2 (Zpos mz) + 1 + ez = Z.log2 (Zpos m) + 1 + e).
  { rewrite Hmz, Z.log2_mul_pow2 by lia. lia. }
  assert (Hpre : ez <= fexp64 (Z.log2 (Zpos mz) + 1 + ez)).
  { rewrite Hlog. fold E. lia. }
  pose proof (round_aux_repr mz ez Hpre) as Hrepr.
  rewrite <- (ordG_scale (Zpos mz) ez (ez + 1074)) in Hrepr by lia.
  replace (ez - (ez + 1074)) with (-1074) in Hrepr by lia.
  replace (Zpos mz * 2 ^ (ez + 1074)) with (Zpos m * 2 ^ (e + 1074)) in Hrepr; [exact Hrepr|].
  rewrite Hmz, <- Z.mul_assoc, <- Z.pow_add_r by lia. f_equal. f_equal. lia.
Qed.

Lemma ord_at_mono (k n1 n2 : Z) :
  k <= -1074 -> n1 <= n2 -> ord_at k n1 <= ord_at k n2.
Proof.
  intros Hk Hn. unfold ord_at.
  destruct (Z.leb_spec n1 0); destruct (Z.leb_spec n2 0); try lia.
  - apply ordG_nonneg; [lia|]. pose proof (fexp64_ge (Z.log2 n2 + 1 + k)). lia.
  - now apply ordG_mono.
Qed.

(** A valid finite number: its exponent range and mantissa range. *)
Lemma bounded_facts (m : positive) (e : Z) :
  bounded prec emax m e = true ->
  -1074 <= e <= 971
  /\ Zpos m < 2 ^ 53
  /\ (-1074 < e -> 2 ^ 52 <= Zpos m)
  /\ fexp64 (Z.log2 (Zpos m) + 1 + e) = e.
Proof.
  unfold bounded, canonical_mantissa. rewrite fexp_64, digits2_pos_log2.
  intros H. apply andb_prop in H as [Hc Hb].
  apply Z.eqb_eq in Hc. apply Z.leb_le in Hb. change (emax - prec) with 971 in Hb.
  pose proof (Z.log2_nonneg (Zpos m)) as Hl.
  pose proof (Z.log2_spec (Zpos m) ltac:(lia)) as [Hlo Hhi].
  unfold fexp64 in Hc |- *.
  assert (Hlog : Z.log2 (Zpos m) <= 52) by lia.
  split; [lia|]. split; [|split; [|exact Hc]].
  - eapply Z.lt_le_trans; [exact Hhi|]. apply Z.pow_le_mono_r; lia.
  - intros He. assert (Z.log2 (Zpos m) = 52) as E52 by lia.
    now rewrite E52 in Hlo.
Qed.

(** A valid non-negative number sits at the position of its own value. *)
Lemma repr_self (m : positive) (e : Z) :
  bounded prec emax m e = true ->
  repr (S754_finite false m e) (ord_at (-1074) (Zv (S754_finite false m e))).
Proof.
  intros Hb. destruct (bounded_facts m e Hb) as (He & _ & _ & Hc).
  cbn [repr Zv]. unfold ord_at.
  assert (Hpos : 0 < Zpos m * 2 ^ (e + 1074)).
  { apply Z.mul_pos_pos; [lia | apply Z.pow_pos_nonneg; lia]. }
  replace (1 * (Zpos m * 2 ^ (e + 1074))) with (Zpos m * 2 ^ (e + 1074)) by lia.
  destruct (Z.leb_spec (Zpos m * 2 ^ (e + 1074)) 0); [lia|].
  pose proof (ordG_scale (Zpos m) e (e + 1074) ltac:(lia) ltac:(lia) ltac:(lia)) as Hs.
  replace (e - (e + 1074)) with (-1074) in Hs by lia.
  rewrite Hs. unfold ordG. rewrite Hc.
  replace (e - e) with 0 by lia. now rewrite RNE_0.
Qed.

(** Positions order the valid non-negative numbers. *)
Lemma repr_leb (f1 f2 : spec_float) (o1 o2 : Z) :
  valid_binary f1 = true -> valid_binary f2 = true ->
  repr f1 o1 -> repr f2 o2 -> o1 <= o2 -> SFleb f1 f2 = true.
Proof.
  intros V1 V2 R1 R2 Ho.
  destruct f1 as [[] | [] | | [] m1 e1]; try contradiction;
    destruct f2 as [[] | [] | | [] m2 e2]; try contradiction;
    cbn [repr valid_binary] in *; try reflexivity.
  - lia.
  - destruct (bounded_facts m2 e2 V2) as (He & Hm & _). nia.
  - destruct (bounded_facts m1 e1 V1) as (He & Hm & _). nia.
  - destruct (bounded_facts m1 e1 V1) as (He1 & Hm1 & Hn1 & _).
    destruct (bounded_facts m2 e2 V2) as (He2 & Hm2 & Hn2 & _).
    unfold SFleb, SFcompare.
    destruct (Z.compare_spec e1 e2) as [Ee | Ee | Ee]; [|reflexivity|].
    + subst e2. change (Pos.compare_cont Eq m1 m2) with (Pos.compare m1 m2).
      destruct (Pos.compare_spec m1 m2) as [Em | Em | Em]; [reflexivity | reflexivity | lia].
    + exfalso. assert (2 ^ 52 <= Zpos m1) by (apply Hn1; lia). nia.
Qed.

(** The order of the valid finite numbers is the order of their values. *)
Lemma SFcompare_Zv (f1 f2 : spec_float) :
  valid_binary f1 = true -> valid_binary f2 = true ->
  finite_SF f1 = true -> finite_SF f2 = true ->
  SFcompare f1 f2 = Some (Zv f1 ?= Zv f2).
Proof.
  assert (Hpos : forall m e, 0 < Zpos m * 2 ^ (e + 1074) \/ e + 1074 < 0).
  { intros m e. destruct (Z.le_gt_cases 0 (e + 1074)); [left | now right].
    apply Z.mul_pos_pos; [lia | apply Z.pow_pos_nonneg; lia]. }
  assert (Hlt : forall m1 e1 m2 e2,
             bounded prec emax m1 e1 = true -> bounded prec emax m2 e2 = true ->
             e1 < e2 -> Zpos m1 * 2 ^ (e1 + 1074) < Zpos m2 * 2 ^ (e2 + 1074)).
  { intros m1 e1 m2 e2 B1 B2 He.
    destruct (bounded_facts m1 e1 B1) as (He1 & Hm1 & _).
    destruct (bounded_facts m2 e2 B2) as (He2 & _ & Hn2 & _).
    assert (H52 : 2 ^ 52 <= Zpos m2) by (apply Hn2; lia).
    replace (e2 + 1074) with ((e2 - e1 - 1) + 1 + (e1 + 1074)) by lia.
    rewrite (Z.pow_add_r 2 (e2 - e1 - 1 + 1) (e1 + 1074)) by lia.
    rewrite (Z.pow_add_r 2 (e2 - e1 - 1) 1) by lia.
    assert (0 < 2 ^ (e1 + 1074)) by (apply Z.pow_pos_nonneg; lia).
    assert (0 < 2 ^ (e2 - e1 - 1)) by (apply Z.pow_pos_nonneg; lia).
    change (2 ^ 1) with 2. change (2 ^ 53) with (2 * 2 ^ 52) in Hm1.
    set (P := 2 ^ (e1 + 1074)) in *. set (A := 2 ^ (e2 - e1 - 1)) in *.
    set (T := 2 ^ 52) in *.
    assert (T <= Zpos m2 * A) by nia.
    assert (Zpos m1 * P < 2 * T * P) by nia.
    assert (2 * T * P <= Zpos m2 * A * 2 * P) by nia.
    lia. }
  intros V1 V2 F1 F2.
  destruct f1 as [s1 | s1 | | s1 m1 e1]; try discriminate;
    destruct f2 as [s2 | s2 | | s2 m2 e2]; try discriminate;
    cbn [valid_binary SFcompare Zv] in *.
  - reflexivity.
  - destruct (bounded_facts m2 e2 V2) as (He & _).
    destruct (Hpos m2 e2) as [H | H]; [|lia].
    destruct s2; f_equal; symmetry;
      [apply Z.compare_gt_iff | apply Z.compare_lt_iff]; lia.
  - destruct (bounded_facts m1 e1 V1) as (He & _).
    destruct (Hpos m1 e1) as [H | H]; [|lia].
    destruct s1; f_equal; symmetry;
      [apply Z.compare_lt_iff | apply Z.compare_gt_iff]; lia.
  - destruct (bounded_facts m1 e1 V1) as (He1 & _).
    destruct (bounded_facts m2 e2 V2) as (He2 & _).
    destruct (Hpos m1 e1) as [P1 | P1]; [|lia].
    destruct (Hpos m2 e2) as [P2 | P2]; [|lia].
    f_equal. symmetry.
    destruct s1, s2.
    + destruct (Z.compare_spec e1 e2) as [Ee | Ee | Ee].
      * subst e2. change (Pos.compare_cont Eq m1 m2) with (Pos.compare m1 m2).
        destruct (Pos.compare_spec m1 m2) as [Em | Em | Em]; cbn [CompOpp].
        -- subst m2. apply Z.compare_refl.
        -- apply Z.compare_gt_iff. nia.
        -- apply Z.compare_lt_iff. nia.
      * apply Z.compare_gt_iff. specialize (Hlt m1 e1 m2 e2 V1 V2 Ee). lia.
      * apply Z.compare_lt_iff. specialize (Hlt m2 e2 m1 e1 V2 V1 Ee). lia.
    + apply Z.compare_lt_iff. lia.
    + apply Z.compare_gt_iff. lia.
    + destruct (Z.compare_spec e1 e2) as [Ee | Ee | Ee].
      * subst e2. change (Pos.compare_cont Eq m1 m2) with (Pos.compare m1 m2).
        destruct (Pos.compare_spec m1 m2) as [Em | Em | Em].
        -- subst m2. apply Z.compare_refl.
        -- apply Z.compare_lt_iff. nia.
        -- apply Z.compare_gt_iff. nia.
      * apply Z.compare_lt_iff. specialize (Hlt m1 e1 m2 e2 V1 V2 Ee). lia.
      * apply Z.compare_gt_iff. specialize (Hlt m2 e2 m1 e1 V2 V1 Ee). lia.
Qed.

Lemma normalize_repr (S e : Z) :
  -1074 <= e -> 0 <= S ->
  repr (binary_normalize prec emax S e false) (ord_at (-1074) (S * 2 ^ (e + 1074))).
Proof.
  intros He HS. destruct S as [|p|p]; [reflexivity | | lia].
  cbn [binary_normalize]. unfold ord_at.
  assert (0 < Zpos p * 2 ^ (e + 1074))
    by (apply Z.mul_pos_pos; [lia | apply Z.pow_pos_nonneg; lia]).
  destruct (Z.leb_spec (Zpos p * 2 ^ (e + 1074)) 0); [lia|].
  now apply binary_round_repr.
Qed.

Lemma aligned_value (s : bool) (m : positive) (e ez : Z) :
  ez <= e -> -1074 <= ez ->
  cond_Zopp s (Zpos (fst (shl_align m e ez))) * 2 ^ (ez + 1074)
  = Zv (S754_finite s m e).
Proof.
  intros Hez He. destruct (shl_align_spec m e ez) as [_ Hm].
  rewrite Hm. replace (Z.min e ez) with ez by lia. cbn [Zv].
  replace (e + 1074) with ((e - ez) + (ez + 1074)) by lia.
  rewrite (Z.pow_add_r 2 (e - ez) (ez + 1074)) by lia. destruct s; cbn [cond_Zopp]; ring.
Qed.

Lemma valid_exponent (s : bool) (m : positive) (e : Z) :
  valid_binary (S754_finite s m e) = true -> -1074 <= e.
Proof. intros V. now destruct (bounded_facts m e V) as ([? ?] & _). Qed.

(** The sum of two finite numbers, the second not zero, when it is not
    negative: the number nearest to the sum of the values. *)
Lemma SFadd_repr (x : spec_float) (sy : bool) (my : positive) (ey : Z) :
  valid_binary x = true -> valid_binary (S754_finite sy my ey) = true ->
  finite_SF x = true ->
  0 <= Zv x + Zv (S754_finite sy my ey) ->
  repr (SF64add x (S754_finite sy my ey))
       (ord_at (-1074) (Zv x + Zv (S754_finite sy my ey))).
Proof.
  intros Vx Vy Fx Hsum. pose proof (valid_exponent _ _ _ Vy) as Hey.
  destruct x as [sx | sx | | sx mx ex]; try discriminate.
  - cbn [SF64add SFadd]. cbn [Zv] in Hsum |- *. rewrite Z.add_0_l in *.
    destruct sy.
    + exfalso. assert (0 < Zpos my * 2 ^ (ey + 1074))
        by (apply Z.mul_pos_pos; [lia | apply Z.pow_pos_nonneg; lia]). lia.
    + now apply repr_self.
  - pose proof (valid_exponent _ _ _ Vx) as Hex.
    unfold SF64add, SFadd.
    rewrite <- (aligned_value sx mx ex (Z.min ex ey)) by lia.
    rewrite <- (aligned_value sy my ey (Z.min ex ey)) by lia.
    rewrite <- Z.mul_add_distr_r.
    apply normalize_repr; [lia|].
    rewrite <- (aligned_value sx mx ex (Z.min ex ey)) in Hsum by lia.
    rewrite <- (aligned_value sy my ey (Z.min ex ey)) in Hsum by lia.
    rewrite <- Z.mul_add_distr_r in Hsum.
    assert (0 < 2 ^ (Z.min ex ey + 1074)) by (apply Z.pow_pos_nonneg; lia).
    nia.
Qed.

(** The difference of two finite numbers, the first not zero, when it is
    not negative: the number nearest to the difference of the values. *)
Lemma SFsub_repr (sx : bool) (mx : positive) (ex : Z) (y : spec_float) :
  valid_binary (S754_finite sx mx ex) = true -> valid_binary y = true ->
  finite_SF y = true ->
  0 <= Zv (S754_finite sx mx ex) - Zv y ->
  repr (SF64sub (S754_finite sx mx ex) y)
       (ord_at (-1074) (Zv (S754_finite sx mx ex) - Zv y)).
Proof.
  intros Vx Vy Fy Hdiff. pose proof (valid_exponent _ _ _ Vx) as Hex.
  destruct y as [sy | sy | | sy my ey]; try discriminate.
  - cbn [SF64sub SFsub]. cbn [Zv] in Hdiff |- *. rewrite Z.sub_0_r in *.
    destruct sx.
    + exfalso. assert (0 < Zpos mx * 2 ^ (ex + 1074))
        by (apply Z.mul_pos_pos; [lia | apply Z.pow_pos_nonneg; lia]). lia.
    + now apply repr_self.
  - pose proof (valid_exponent _ _ _ Vy) as Hey.
    unfold SF64sub, SFsub.
    rewrite <- (aligned_value sx mx ex (Z.min ex ey)) by lia.
    rewrite <- (aligned_value sy my ey (Z.min ex ey)) by lia.
    rewrite <- Z.mul_sub_distr_r.
    apply normalize_repr; [lia|].
    rewrite <- (aligned_value sx mx ex (Z.min ex ey)) in Hdiff by lia.
    rewrite <- (aligned_value sy my ey (Z.min ex ey)) in Hdiff by lia.
    rewrite <- Z.mul_sub_distr_r in Hdiff.
    assert (0 < 2 ^ (Z.min ex ey + 1074)) by (apply Z.pow_pos_nonneg; lia).
    nia.
Qed.

(** The product of two finite non-negative numbers: the number nearest to
    the product of the values, in units of [2^-2148]. *)
Lemma SFmul_repr (x y : spec_float) :
  valid_binary x = true -> valid_binary y = true ->
  nonneg_SF x = true -> nonneg_SF y = true ->
  repr (SF64mul x y) (ord_at (-2148) (Zv x * Zv y)).
Proof.
  intros Vx Vy Nx Ny.
  destruct x as [[] | | | [] mx ex]; try discriminate;
    destruct y as [[] | | | [] my ey]; try discriminate;
    try (cbn [SF64mul SFmul Zv xorb]; rewrite ?Z.mul_0_l, ?Z.mul_0_r; reflexivity).
  destruct (bounded_facts mx ex Vx) as (Hex & Hmx & Hnx & Hcx).
  destruct (bounded_facts my ey Vy) as (Hey & Hmy & Hny & Hcy).
  unfold SF64mul, SFmul. cbn [xorb Zv]. rewrite Pos2Z.inj_mul.
  pose proof (Z.log2_nonneg (Zpos mx)) as Lx. pose proof (Z.log2_nonneg (Zpos my)) as Ly.
  pose proof (Z.log2_mul_below (Zpos mx) (Zpos my) ltac:(lia) ltac:(lia)) as Lxy.
  assert (Hpre : ex + ey <= fexp64 (Z.log2 (Zpos mx * Zpos my) + 1 + (ex + ey))).
  { unfold fexp64 in *.
    destruct (Z.eq_dec ex (-1074)) as [Eex | Nex];
      destruct (Z.eq_dec ey (-1074)) as [Eey | Ney]; try lia. }
  pose proof (round_aux_repr (mx * my) (ex + ey)) as H.
  rewrite Pos2Z.inj_mul in H. specialize (H Hpre).
  pose proof (ordG_scale (Zpos mx * Zpos my) (ex + ey) (ex + ey + 2148)
                ltac:(lia) ltac:(lia) Hpre) as Hs.
  replace (ex + ey - (ex + ey + 2148)) with (-2148) in Hs by lia.
  unfold ord_at.
  assert (Px : 0 < 2 ^ (ex + 1074)) by (apply Z.pow_pos_nonneg; lia).
  assert (Py : 0 < 2 ^ (ey + 1074)) by (apply Z.pow_pos_nonneg; lia).
  replace (1 * (Zpos mx * 2 ^ (ex + 1074)) * (1 * (Zpos my * 2 ^ (ey + 1074))))
    with (Zpos mx * Zpos my * 2 ^ (ex + ey + 2148)).
  2:{ replace (ex + ey + 2148) with ((ex + 1074) + (ey + 1074)) by lia.
      rewrite Z.pow_add_r by lia. ring. }
  assert (0 < Zpos mx * Zpos my * 2 ^ (ex + ey + 2148)).
  { apply Z.mul_pos_pos; [lia | apply Z.pow_pos_nonneg; lia]. }
  destruct (Z.leb_spec (Zpos mx * Zpos my * 2 ^ (ex + ey + 2148)) 0); [lia|].
  now rewrite Hs.
Qed.

Lemma shr_general (mrs : shr_record) (e n : Z) :
  0 <= shr_m mrs ->
  shr_m (fst (shr mrs e n)) = Z.div (shr_m mrs) (2 ^ Z.max n 0)
  /\ snd (shr mrs e n) = e + Z.max n 0.
Proof.
  intros Hm. destruct n as [|p|p]; cbn [shr fst snd].
  - change (Z.max 0 0) with 0. rewrite Z.div_1_r. lia.
  - rewrite iter_pos_nat, shr_iter_m, positive_nat_Z by exact Hm.
    replace (Z.max (Zpos p) 0) with (Zpos p) by lia. lia.
  - replace (Z.max (Zneg p) 0) with 0 by lia. rewrite Z.div_1_r. lia.
Qed.

Lemma Zdigits2_le (m k : Z) : 0 <= m < 2 ^ k -> 0 <= k -> Zdigits2 m <= k.
Proof.
  intros [Hlo Hhi] Hk. destruct m as [|p|p]; [exact Hk | | lia].
  cbn [Zdigits2]. rewrite digits2_pos_log2.
  apply Z.log2_lt_pow2 in Hhi; lia.
Qed.

Lemma div_pow2_lt (m d N : Z) :
  0 <= m < 2 ^ d -> 0 <= d -> 0 <= N -> Z.div m (2 ^ N) < 2 ^ Z.max (d - N) 0.
Proof.
  intros [Hlo Hhi] Hd HN.
  assert (0 < 2 ^ N) by (apply Z.pow_pos_nonneg; lia).
  destruct (Z.le_gt_cases N d) as [Hle | Hgt].
  - replace (Z.max (d - N) 0) with (d - N) by lia.
    apply Z.div_lt_upper_bound; [lia|].
    rewrite <- Z.pow_add_r by lia. now replace (N + (d - N)) with d by lia.
  - replace (Z.max (d - N) 0) with 0 by lia.
    rewrite Z.div_small; [reflexivity|]. split; [lia|].
    apply Z.lt_le_trans with (2 ^ d); [lia|]. apply Z.pow_le_mono_r; lia.
Qed.

Lemma Zdigits2_bound (m : Z) : 0 <= m -> 0 <= Zdigits2 m /\ m < 2 ^ Zdigits2 m.
Proof.
  intros Hm. destruct m as [|p|p]; [cbn; lia | | lia].
  cbn [Zdigits2]. rewrite digits2_pos_log2.
  pose proof (Z.log2_nonneg (Zpos p)).
  destruct (Z.log2_spec (Zpos p)) as [_ Hhi]; [lia|].
  replace (Z.succ (Z.log2 (Zpos p))) with (Z.log2 (Zpos p) + 1) in Hhi by lia. lia.
Qed.

(** Rounding a non-negative quantity whose magnitude is below the largest
    binade gives zero or a positive finite number, whatever the position of
    the discarded part. *)
Lemma round_aux_shape (mz ez : Z) (lz : location) :
  0 <= mz -> ez <= 971 -> Zdigits2 mz + ez <= 1023 ->
  nonneg_SF (binary_round_aux prec emax false mz ez lz) = true.
Proof.
  intros Hmz Hez Hdz. unfold binary_round_aux, shr_fexp. rewrite !fexp_64.
  destruct (Zdigits2_bound mz Hmz) as [Hd0 Hd1].
  set (n1 := fexp64 (Zdigits2 mz + ez) - ez).
  assert (Hrec : shr_m (shr_record_of_loc mz lz) = mz) by (now destruct lz as [|[]]).
  destruct (shr_general (shr_record_of_loc mz lz) ez n1) as [Hm1 He1]; [lia|].
  destruct (shr (shr_record_of_loc mz lz) ez n1) as [mrs' e'].
  cbn [fst snd] in Hm1, He1. rewrite Hrec in Hm1.
  set (q := round_nearest_even (shr_m mrs') (loc_of_shr_record mrs')).
  assert (Hs0 : 0 <= shr_m mrs').
  { rewrite Hm1. apply Z.div_pos; [lia | apply Z.pow_pos_nonneg; lia]. }
  assert (Hq : shr_m mrs' <= q <= shr_m mrs' + 1).
  { unfold q, round_nearest_even.
    destruct (loc_of_shr_record mrs') as [|[]]; try lia.
    destruct (Z.even (shr_m mrs')); lia. }
  pose proof (div_pow2_lt mz (Zdigits2 mz) (Z.max n1 0) ltac:(lia) Hd0 ltac:(lia)) as Hs1.
  rewrite <- Hm1 in Hs1.
  set (D := Z.max (Zdigits2 mz - Z.max n1 0) 0) in *.
  assert (HqD : Zdigits2 q <= D + 1).
  { apply Zdigits2_le; [|lia]. split; [lia|].
    rewrite Z.pow_add_r, Z.pow_1_r by lia. lia. }
  assert (Hn1 : fexp64 (Zdigits2 mz + ez) <= 971) by (unfold fexp64; lia).
  change (fexp prec emax (Zdigits2 q + e')) with (fexp64 (Zdigits2 q + e')).
  set (n2 := fexp64 (Zdigits2 q + e') - e').
  destruct (shr_general (shr_record_of_loc q loc_Exact) e' n2) as [Hm2 He2];
    [cbn; lia|].
  destruct (shr (shr_record_of_loc q loc_Exact) e' n2) as [mrs'' e''].
  cbn [fst snd shr_record_of_loc shr_m] in Hm2, He2.
  assert (Hs2 : 0 <= shr_m mrs'').
  { rewrite Hm2. apply Z.div_pos; [lia | apply Z.pow_pos_nonneg; lia]. }
  destruct (shr_m mrs'') as [|p|p]; [reflexivity | | lia].
  assert (He'' : e'' <= 971).
  { unfold n2, fexp64 in He2. unfold n1 in He1. unfold D, n1 in HqD. lia. }
  change (emax - prec) with 971.
  destruct (Z.leb_spec e'' 971); [reflexivity | lia].
Qed.

Lemma div_core_bounds (mx my : positive) (ex ey : Z) :
  Z.log2 (Zpos mx) + 1 + ex <= 1024 ->
  2 <= Z.log2 (Zpos my) + 1 + ey ->
  0 <= fst (fst (SFdiv_core_binary prec emax (Zpos mx) ex (Zpos my) ey))
  /\ snd (fst (SFdiv_core_binary prec emax (Zpos mx) ex (Zpos my) ey)) <= 971
  /\ Zdigits2 (fst (fst (SFdiv_core_binary prec emax (Zpos mx) ex (Zpos my) ey)))
     + snd (fst (SFdiv_core_binary prec emax (Zpos mx) ex (Zpos my) ey)) <= 1023.
Proof.
  intros Hx Hy. unfold SFdiv_core_binary. cbn [Zdigits2].
  rewrite !digits2_pos_log2, fexp_64.
  set (lx := Z.log2 (Zpos mx)) in *. set (ly := Z.log2 (Zpos my)) in *.
  set (e' := Z.min (fexp64 (lx + 1 + ex - (ly + 1 + ey))) (ex - ey)).
  set (s := ex - ey - e').
  assert (Hs : 0 <= s) by (unfold s, e'; lia).
  set (m' := match s with Zpos _ => Z.shiftl (Zpos mx) s | Z0 => Zpos mx | Zneg _ => 0 end).
  assert (Hm' : m' = Zpos mx * 2 ^ s).
  { unfold m'. destruct s as [|p|p]; [lia | | lia].
    now rewrite Z.shiftl_mul_pow2 by lia. }
  assert (Hq : fst (Z.div_eucl m' (Zpos my)) = Z.div m' (Zpos my)) by reflexivity.
  destruct (Z.div_eucl m' (Zpos my)) as [q r]. cbn [fst snd] in *.
  pose proof (Z.log2_nonneg (Zpos mx)) as Hlx. fold lx in Hlx.
  pose proof (Z.log2_nonneg (Zpos my)) as Hly. fold ly in Hly.
  destruct (Z.log2_spec (Zpos mx)) as [_ Hxhi]; [lia|]. fold lx in Hxhi.
  destruct (Z.log2_spec (Zpos my)) as [Hylo _]; [lia|]. fold ly in Hylo.
  assert (P2s : 0 < 2 ^ s) by (apply Z.pow_pos_nonneg; lia).
  assert (Hm0 : 0 <= m') by (rewrite Hm'; lia).
  assert (Hq0 : 0 <= q) by (rewrite Hq; apply Z.div_pos; lia).
  assert (Hmhi : m' < 2 ^ (lx + 1 + s)).
  { rewrite Hm', (Z.pow_add_r 2 (lx + 1) s) by lia.
    replace (Z.succ lx) with (lx + 1) in Hxhi by lia. nia. }
  assert (Hqle : q <= Z.div m' (2 ^ ly)).
  { rewrite Hq. apply Z.div_le_compat_l; [lia|].
    split; [apply Z.pow_pos_nonneg; lia | lia]. }
  pose proof (div_pow2_lt m' (lx + 1 + s) ly ltac:(lia) ltac:(lia) Hly) as Hlt.
  assert (Hdq : Zdigits2 q <= Z.max (lx + 1 + s - ly) 0).
  { apply Zdigits2_le; lia. }
  assert (He' : e' <= 969) by (unfold e', fexp64; lia).
  split; [exact Hq0|]. split; [lia|]. unfold s in Hdq. lia.
Qed.

(** Dividing a non-negative finite number by a finite number that is at
    least two gives zero or a positive finite number. *)
Lemma SFdiv_shape (x : spec_float) (my : positive) (ey : Z) :
  valid_binary x = true -> nonneg_SF x = true ->
  2 <= Z.log2 (Zpos my) + 1 + ey ->
  nonneg_SF (SF64div x (S754_finite false my ey)) = true.
Proof.
  intros Vx Nx Hy. destruct x as [[] | | | [] mx ex]; try discriminate;
    [reflexivity|].
  destruct (bounded_facts mx ex Vx) as (Hex & Hmx & _ & _).
  assert (Hx : Z.log2 (Zpos mx) + 1 + ex <= 1024).
  { apply Z.log2_lt_pow2 in Hmx; lia. }
  destruct (div_core_bounds mx my ex ey Hx Hy) as (H0 & H1 & H2).
  unfold SF64div, SFdiv. cbn [xorb].
  destruct (SFdiv_core_binary prec emax (Zpos mx) ex (Zpos my) ey) as [[mz ez] lz].
  cbn [fst snd] in *. now apply round_aux_shape.
Qed.

Lemma repr_nonneg (f : spec_float) (o : Z) :
  repr f o -> o < 2047 * 2 ^ 52 -> nonneg_SF f = true.
Proof. destruct f as [[] | [] | | [] m e]; cbn; try tauto; try reflexivity. lia. Qed.

Lemma nonneg_finite (f : spec_float) : nonneg_SF f = true -> finite_SF f = true.
Proof. now destruct f as [[] | [] | | [] m e]. Qed.

Lemma nonneg_Zv (f : spec_float) : nonneg_SF f = true -> 0 <= Zv f.
Proof.
  destruct f as [[] | [] | | [] m e]; try discriminate; intros _; cbn [Zv].
  all: try (pose proof (Z.pow_nonneg 2 (e + 1074) ltac:(lia))); nia.
Qed.

Lemma SFleb_Zv (f1 f2 : spec_float) :
  valid_binary f1 = true -> valid_binary f2 = true ->
  finite_SF f1 = true -> finite_SF f2 = true ->
  SFleb f1 f2 = true -> Zv f1 <= Zv f2.
Proof.
  intros V1 V2 F1 F2. unfold SFleb. rewrite (SFcompare_Zv f1 f2 V1 V2 F1 F2).
  destruct (Z.compare_spec (Zv f1) (Zv f2)); (lia || discriminate).
Qed.

Lemma finite_between (a1 a2 : spec_float) (sa sb : bool) (ma mb : positive) (ea eb : Z) :
  SFleb (S754_finite sa ma ea) a1 = true -> SFleb a1 a2 = true ->
  SFleb a2 (S754_finite sb mb eb) = true ->
  finite_SF a1 = true /\ finite_SF a2 = true.
Proof.
  destruct a1 as [s | [] | | s m e], a2 as [s' | [] | | s' m' e']; cbn;
    try discriminate; intros; try (split; reflexivity); try discriminate.
Qed.

Lemma positive_finite (f : spec_float) :
  SFltb (S754_zero false) f = true -> SFltb f (S754_infinity false) = true ->
  nonneg_SF f = true.
Proof. destruct f as [[] | [] | | [] m e]; cbn; try reflexivity; discriminate. Qed.

(** Multiplying by a fixed non-negative finite factor keeps the order of
    non-negative finite numbers. *)
Lemma SFmul_mono (u1 u2 c : spec_float) :
  valid_binary u1 = true -> valid_binary u2 = true -> valid_binary c = true ->
  valid_binary (SF64mul u1 c) = true -> valid_binary (SF64mul u2 c) = true ->
  nonneg_SF u1 = true -> nonneg_SF u2 = true -> nonneg_SF c = true ->
  SFleb u1 u2 = true ->
  SFleb (SF64mul u1 c) (SF64mul u2 c) = true.
Proof.
  intros V1 V2 Vc W1 W2 N1 N2 Nc Hle.
  pose proof (SFleb_Zv u1 u2 V1 V2 (nonneg_finite _ N1) (nonneg_finite _ N2) Hle) as Hz.
  pose proof (nonneg_Zv c Nc) as Hc.
  apply (repr_leb _ _ _ _ W1 W2 (SFmul_repr u1 c V1 Vc N1 Nc) (SFmul_repr u2 c V2 Vc N2 Nc)).
  apply ord_at_mono; [lia | nia].
Qed.

(** Adding a fixed finite number keeps the order, while the sums stay
    between zero and the largest finite number. *)
Lemma SFadd_mono (a1 a2 : spec_float) (sk : bool) (mk : positive) (ek : Z) :
  let k := S754_finite sk mk ek in
  valid_binary a1 = true -> valid_binary a2 = true -> valid_binary k = true ->
  valid_binary (SF64add a1 k) = true -> valid_binary (SF64add a2 k) = true ->
  finite_SF a1 = true -> finite_SF a2 = true ->
  0 <= Zv a1 + Zv k -> Zv a1 <= Zv a2 ->
  ord_at (-1074) (Zv a2 + Zv k) < 2047 * 2 ^ 52 ->
  nonneg_SF (SF64add a1 k) = true /\ nonneg_SF (SF64add a2 k) = true
  /\ SFleb (SF64add a1 k) (SF64add a2 k) = true.
Proof.
  intros k V1 V2 Vk W1 W2 F1 F2 H0 Hle Hb.
  pose proof (SFadd_repr a1 sk mk ek V1 Vk F1 H0) as R1.
  pose proof (SFadd_repr a2 sk mk ek V2 Vk F2 ltac:(fold k; lia)) as R2.
  fold k in R1, R2.
  assert (Ho : ord_at (-1074) (Zv a1 + Zv k) <= ord_at (-1074) (Zv a2 + Zv k))
    by (apply ord_at_mono; lia).
  split; [apply (repr_nonneg _ _ R1); lia|].
  split; [apply (repr_nonneg _ _ R2); lia|].
  exact (repr_leb _ _ _ _ W1 W2 R1 R2 Ho).
Qed.

(** Subtracting from a fixed finite number reverses the order, while the
    differences stay between zero and the largest finite number. *)
Lemma SFsub_mono (a1 a2 : spec_float) (sk : bool) (mk : positive) (ek : Z) :
  let k := S754_finite sk mk ek in
  valid_binary a1 = true -> valid_binary a2 = true -> valid_binary k = true ->
  valid_binary (SF64sub k a1) = true -> valid_binary (SF64sub k a2) = true ->
  finite_SF a1 = true -> finite_SF a2 = true ->
  0 <= Zv k - Zv a2 -> Zv a1 <= Zv a2 ->
  ord_at (-1074) (Zv k - Zv a1) < 2047 * 2 ^ 52 ->
  nonneg_SF (SF64sub k a1) = true /\ nonneg_SF (SF64sub k a2) = true
  /\ SFleb (SF64sub k a2) (SF64sub k a1) = true.
Proof.
  intros k V1 V2 Vk W1 W2 F1 F2 H0 Hle Hb.
  pose proof (SFsub_repr sk mk ek a1 Vk V1 F1 ltac:(fold k; lia)) as R1.
  pose proof (SFsub_repr sk mk ek a2 Vk V2 F2 H0) as R2.
  fold k in R1, R2.
  assert (Ho : ord_at (-1074) (Zv k - Zv a2) <= ord_at (-1074) (Zv k - Zv a1))
    by (apply ord_at_mono; lia).
  split; [apply (repr_nonneg _ _ R1); lia|].
  split; [apply (repr_nonneg _ _ R2); lia|].
  exact (repr_leb _ _ _ _ W2 W1 R2 R1 Ho).
Qed.

End Rounding.

Section Projection.

Local Open Scope float_scope.

(** The horizontal coordinate does not decrease when the longitude grows
    within the range, on a canvas of positive finite width. *)
Lemma x_monotone (lon1 lon2 width : float) :
  (-180 <=? lon1) = true -> (lon1 <=? lon2) = true -> (lon2 <=? 180) = true ->
  (0 <? width) = true -> (width <? infinity) = true ->
  ((lon1 + 180) * (width / 360) <=? (lon2 + 180) * (width / 360)) = true.
Proof.
  rewrite !FloatAxioms.leb_spec, !FloatAxioms.ltb_spec, !FloatAxioms.mul_spec, !FloatAxioms.add_spec, !FloatAxioms.div_spec.
  pose proof (Prim2SF_valid lon1) as V1. pose proof (Prim2SF_valid lon2) as V2.
  pose proof (Prim2SF_valid width) as Vw.
  pose proof (Prim2SF_valid (lon1 + 180)) as W1.
  pose proof (Prim2SF_valid (lon2 + 180)) as W2.
  pose proof (Prim2SF_valid (width / 360)) as Wc.
  pose proof (Prim2SF_valid ((lon1 + 180) * (width / 360))) as P1.
  pose proof (Prim2SF_valid ((lon2 + 180) * (width / 360))) as P2.
  rewrite FloatAxioms.add_spec in W1, W2. rewrite FloatAxioms.div_spec in Wc.
  rewrite FloatAxioms.mul_spec, FloatAxioms.add_spec, FloatAxioms.div_spec in P1, P2.
  change (Prim2SF 180) with (S754_finite false 6333186975989760 (-45)) in *.
  change (Prim2SF (-180)) with (S754_finite true 6333186975989760 (-45)) in *.
  change (Prim2SF 360) with (S754_finite false 6333186975989760 (-44)) in *.
  change (Prim2SF 0) with (S754_zero false) in *.
  change (Prim2SF infinity) with (S754_infinity false) in *.
  generalize dependent (Prim2SF lon1). generalize dependent (Prim2SF lon2).
  generalize dependent (Prim2SF width). clear lon1 lon2 width.
  intros w Vw Wc a2 V2 W2 P2 a1 V1 W1 P1 Hlo Hle Hhi Hw0 Hw1.
  set (k := S754_finite false 6333186975989760 (-45)) in *.
  assert (Vk : valid_binary k = true) by reflexivity.
  assert (Vm : valid_binary (S754_finite true 6333186975989760 (-45)) = true) by reflexivity.
  destruct (finite_between a1 a2 _ _ _ _ _ _ Hlo Hle Hhi) as [F1 F2].
  pose proof (SFleb_Zv _ _ Vm V1 eq_refl F1 Hlo) as Z1.
  pose proof (SFleb_Zv _ _ V1 V2 F1 F2 Hle) as Z12.
  pose proof (SFleb_Zv _ _ V2 Vk F2 eq_refl Hhi) as Z2.
  pose proof (positive_finite w Hw0 Hw1) as Nw.
  pose proof (SFdiv_shape w 6333186975989760 (-44) Vw Nw ltac:(vm_compute; discriminate)) as Nc.
  assert (Zm : Zv (S754_finite true 6333186975989760 (-45)) = (- Zv k)%Z) by reflexivity.
  assert (Hb : (ord_at (-1074) (Zv k + Zv k) < 2047 * 2 ^ 52)%Z) by (vm_compute; reflexivity).
  destruct (SFadd_mono a1 a2 false 6333186975989760 (-45) V1 V2 Vk W1 W2 F1 F2)
    as (N1 & N2 & Hs).
  - fold k. lia.
  - exact Z12.
  - fold k. apply Z.le_lt_trans with (ord_at (-1074) (Zv k + Zv k)); [|exact Hb].
    apply ord_at_mono; lia.
  - now apply SFmul_mono.
Qed.

(** The vertical coordinate does not increase when the latitude grows
    within the range, on a canvas of positive finite height. *)
Lemma y_monotone (lat1 lat2 height : float) :
  (-90 <=? lat1) = true -> (lat1 <=? lat2) = true -> (lat2 <=? 90) = true ->
  (0 <? height) = true -> (height <? infinity) = true ->
  ((90 - lat2) * (height / 180) <=? (90 - lat1) * (height / 180)) = true.
Proof.
  rewrite !FloatAxioms.leb_spec, !FloatAxioms.ltb_spec, !FloatAxioms.mul_spec, !FloatAxioms.sub_spec, !FloatAxioms.div_spec.
  pose proof (Prim2SF_valid lat1) as V1. pose proof (Prim2SF_valid lat2) as V2.
  pose proof (Prim2SF_valid height) as Vw.
  pose proof (Prim2SF_valid (90 - lat1)) as W1.
  pose proof (Prim2SF_valid (90 - lat2)) as W2.
  pose proof (Prim2SF_valid (height / 180)) as Wc.
  pose proof (Prim2SF_valid ((90 - lat1) * (height / 180))) as P1.
  pose proof (Prim2SF_valid ((90 - lat2) * (height / 180))) as P2.
  rewrite FloatAxioms.sub_spec in W1, W2. rewrite FloatAxioms.div_spec in Wc.
  rewrite FloatAxioms.mul_spec, FloatAxioms.sub_spec, FloatAxioms.div_spec in P1, P2.
  change (Prim2SF 90) with (S754_finite false 6333186975989760 (-46)) in *.
  change (Prim2SF (-90)) with (S754_finite true 6333186975989760 (-46)) in *.
  change (Prim2SF 180) with (S754_finite false 6333186975989760 (-45)) in *.
  change (Prim2SF 0) with (S754_zero false) in *.
  change (Prim2SF infinity) with (S754_infinity false) in *.
  generalize dependent (Prim2SF lat1). generalize dependent (Prim2SF lat2).
  generalize dependent (Prim2SF height). clear lat1 lat2 height.
  intros w Vw Wc a2 V2 W2 P2 a1 V1 W1 P1 Hlo Hle Hhi Hw0 Hw1.
  set (k := S754_finite false 6333186975989760 (-46)) in *.
  assert (Vk : valid_binary k = true) by reflexivity.
  assert (Vm : valid_binary (S754_finite true 6333186975989760 (-46)) = true) by reflexivity.
  destruct (finite_between a1 a2 _ _ _ _ _ _ Hlo Hle Hhi) as [F1 F2].
  pose proof (SFleb_Zv _ _ Vm V1 eq_refl F1 Hlo) as Z1.
  pose proof (SFleb_Zv _ _ V1 V2 F1 F2 Hle) as Z12.
  pose proof (SFleb_Zv _ _ V2 Vk F2 eq_refl Hhi) as Z2.
  pose proof (positive_finite w Hw0 Hw1) as Nw.
  pose proof (SFdiv_shape w 6333186975989760 (-45) Vw Nw ltac:(vm_compute; discriminate)) as Nc.
  assert (Zm : Zv (S754_finite true 6333186975989760 (-46)) = (- Zv k)%Z) by reflexivity.
  assert (Hb : (ord_at (-1074) (Zv k + Zv k) < 2047 * 2 ^ 52)%Z) by (vm_compute; reflexivity).
  destruct (SFsub_mono a1 a2 false 6333186975989760 (-46) V1 V2 Vk W1 W2 F1 F2)
    as (N1 & N2 & Hs).
  - fold k. lia.
  - exact Z12.
  - fold k. apply Z.le_lt_trans with (ord_at (-1074) (Zv k + Zv k)); [|exact Hb].
    apply ord_at_mono; lia.
  - now apply SFmul_mono.
Qed.

End Projection.

(** C2 (as amended): on a canvas of positive finite width and height,
    [latLonToXY] is monotonic in the weak sense on the range: for
    [-180 <= lon1 <= lon2 <= 180] the [x] of a point of longitude [lon1] is
    at most the [x] of a point of longitude [lon2], whatever their
    latitudes, and for [-90 <= lat1 <= lat2 <= 90] the [y] of a point of
    latitude [lat2] is at most the [y] of a point of latitude [lat1],
    whatever their longitudes; no coordinate involved is NaN. *)
Theorem latLonToXY_monotone :
  forall (engine : Engine) (width height lat1 lat2 lon1 lon2 lat lat' lon lon' : float),
    (0 <? width)%float = true -> (width <? infinity)%float = true ->
    (0 <? height)%float = true -> (height <? infinity)%float = true ->
    (-180 <=? lon1)%float = true -> (lon1 <=? lon2)%float = true ->
    (lon2 <=? 180)%float = true ->
    (-90 <=? lat1)%float = true -> (lat1 <=? lat2)%float = true ->
    (lat2 <=? 90)%float = true ->
    exists west east south north : point,
      latLonToXY (VNum lat) (VNum lon1) width height = inr west
      /\ latLonToXY (VNum lat') (VNum lon2) width height = inr east
      /\ (x west <=? x east)%float = true
      /\ latLonToXY (VNum lat1) (VNum lon) width height = inr south
      /\ latLonToXY (VNum lat2) (VNum lon') width height = inr north
      /\ (y north <=? y south)%float = true.
Proof.
  intros engine width height lat1 lat2 lon1 lon2 lat lat' lon lon'
    Hw0 Hw1 Hh0 Hh1 Hx0 Hx1 Hx2 Hy0 Hy1 Hy2.
  eexists _, _, _, _.
  split; [reflexivity|]. split; [reflexivity|].
  split; [exact (x_monotone lon1 lon2 width Hx0 Hx1 Hx2 Hw0 Hw1)|].
  split; [reflexivity|]. split; [reflexivity|].
  exact (y_monotone lat1 lat2 height Hy0 Hy1 Hy2 Hh0 Hh1).
Qed.

Lemma latLonToXY_monotone_witness :
  exists west east south north : point,
    latLonToXY (engine := an_engine) (VNum 10) (VNum (-120)) 1535 969 = inr west
    /\ latLonToXY (engine := an_engine) (VNum (-10)) (VNum 45) 1535 969 = inr east
    /\ (x west <=? x east)%float = true
    /\ latLonToXY (engine := an_engine) (VNum (-30)) (VNum 20) 1535 969 = inr south
    /\ latLonToXY (engine := an_engine) (VNum 60) (VNum (-20)) 1535 969 = inr north
    /\ (y north <=? y south)%float = true.
Proof.
  apply (latLonToXY_monotone an_engine 1535 969 (-30) 60 (-120) 45 10 (-10) 20 (-20));
    reflexivity.
Defined.

(** C2, the claim as stated fails: on the 360 by 180 canvas the longitudes
    0 and [2^-50] are both projected to [x = 180], and the latitudes 0 and
    [2^-50] both to [y = 90], since [2^-50 + 180] and [90 - 2^-50] are
    rounded to 180 and to 90; the coordinate does not grow with the
    longitude, nor shrink with the latitude.  And the width has to be
    finite: on an infinite width the left edge [lon = -180] is projected to
    [0 * infinity], which is NaN and compares with nothing. *)
Lemma latLonToXY_not_strictly_monotone :
  exists p1 p2 p3 p4 : point,
    latLonToXY (engine := an_engine) (VNum 0) (VNum 0) 360 180 = inr p1
    /\ latLonToXY (engine := an_engine) (VNum 0x1p-50) (VNum 0x1p-50) 360 180 = inr p2
    /\ (0 <? 0x1p-50)%float = true
    /\ (0x1p-50 <=? 90)%float = true
    /\ (x p1 <? x p2)%float = false
    /\ (y p2 <? y p1)%float = false
    /\ PrimFloat.eqb (x p1) (x p2) = true
    /\ PrimFloat.eqb (y p1) (y p2) = true
    /\ latLonToXY (engine := an_engine) (VNum 0) (VNum (-180)) infinity 180 = inr p3
    /\ latLonToXY (engine := an_engine) (VNum 0) (VNum 0) infinity 180 = inr p4
    /\ (0 <? infinity)%float = true
    /\ (-180 <? 0)%float = true
    /\ (x p3 <=? x p4)%float = false.
Proof.
  eexists _, _, _, _. split; [reflexivity|]. split; [reflexivity|].
  vm_compute. repeat split.
Qed.

(** Land fill and border stroke complete on drawable data: when the dataset
    is loaded and its [features] is falsy or an array without an undefined
    or null entry, [drawLandAreas] and [drawCountryBorders] return without
    throwing, whatever the features' geometries are (the failure of a
    feature is caught inside the pass), and leave the datasets and the
    rendered flag as they were. *)
Theorem draw_passes_complete :
  forall (engine : Engine) (w : world),
    (ToBoolean (landData w) = true -> drawable (landData w) ->
     exists w', drawLandAreas w = Ok tt w' /\ same_data w w')
    /\ (ToBoolean (outlineData w) = true -> drawable (outlineData w) ->
        exists w', drawCountryBorders w = Ok tt w' /\ same_data w w').
Proof.
  intros engine w. split; intros Ht Hd.
  - now apply drawLandAreas_Ok.
  - now apply drawCountryBorders_Ok.
Qed.

Lemma mended_data_drawable : drawable mended_data.
Proof.
  right. eexists. split; [reflexivity|].
  repeat (constructor; [split; discriminate|]). constructor.
Defined.

Lemma draw_passes_complete_witness :
  exists w', drawLandAreas (engine := an_engine) mended_world = Ok tt w'
             /\ same_data mended_world w'.
Proof.
  exact (proj1 (draw_passes_complete an_engine mended_world) eq_refl mended_data_drawable).
Defined.

(** ** The path of a geometry *)

Section GeometryPaths.

Context {engine : Engine}.

Lemma drawRing_path (context : ctxref) (ring : list value) (w : world) :
  Forall plottable ring ->
  drawRing context (VArr ring) w
  = Ok tt (paint context
             (ring_path (width (offscreenCanvas w)) (height (offscreenCanvas w)) ring) w).
Proof.
  intros Hr. unfold ring_path. destruct (Nat.ltb_spec (length ring) 3) as [Hs | Hl].
  - rewrite paint_nil. now apply drawRing_short.
  - now apply drawRing_plottable.
Qed.

Lemma drawLineStringPath_path (context : ctxref) (line : list value) (w : world) :
  Forall plottable line ->
  drawLineStringPath (VArr line) context w
  = Ok tt (paint context
             (line_path (width (offscreenCanvas w)) (height (offscreenCanvas w)) line) w).
Proof.
  intros Hr. unfold line_path. destruct (Nat.ltb_spec (length line) 2) as [Hs | Hl].
  - rewrite paint_nil. now apply drawLineStringPath_short.
  - now apply drawLineStringPath_plottable.
Qed.

(** A loop whose callback paints, item by item, paints the concatenation. *)
Lemma forEach_from_paints {A : Type} (context : ctxref) (inj : A -> value)
      (ops : N -> N -> A -> list ctxop) (f : value -> nat -> M unit) (items : list A) :
  Forall (fun a => forall i w,
              f (inj a) i w
              = Ok tt (paint context
                         (ops (width (offscreenCanvas w)) (height (offscreenCanvas w)) a) w))
         items ->
  forall (i : nat) (w : world),
    forEach_from i (map inj items) f w
    = Ok tt (paint context
               (concat (map (ops (width (offscreenCanvas w)) (height (offscreenCanvas w)))
                          items)) w).
Proof.
  induction 1 as [|a items Ha _ IH]; intros i w; simpl.
  - now rewrite paint_nil.
  - rewrite (bind_Ok _ _ _ _ _ (Ha i w)), IH.
    destruct (offscreen_size_paint context
                (ops (width (offscreenCanvas w)) (height (offscreenCanvas w)) a) w) as [-> ->].
    now rewrite paint_app.
Qed.

Lemma drawPolygonPath_path (context : ctxref) (rings : list (list value)) (w : world) :
  Forall (Forall plottable) rings ->
  drawPolygonPath (polygon_value rings) context w
  = Ok tt (paint context
             (polygon_path (width (offscreenCanvas w)) (height (offscreenCanvas w)) rings) w).
Proof.
  intros Hr. unfold drawPolygonPath, polygon_value, forEach, polygon_path.
  apply (forEach_from_paints context VArr ring_path).
  eapply Forall_impl; [exact Hr|]. intros ring Hring i w'. now apply drawRing_path.
Qed.

Lemma Forall_concat_inv {A : Type} (P : A -> Prop) (ls : list (list A)) :
  Forall P (concat ls) -> Forall (Forall P) ls.
Proof.
  induction ls as [|l ls IH]; simpl; [constructor|].
  intros H. apply Forall_app in H as [H1 H2]. constructor; [exact H1 | now apply IH].
Qed.

Lemma drawGeometryPath_path (geometry : value) (g : shape) (context : ctxref) (w : world) :
  has_shape geometry g -> well_formed g ->
  drawGeometryPath geometry context w
  = Ok tt (paint context
             (geometry_path (width (offscreenCanvas w)) (height (offscreenCanvas w)) g) w).
Proof.
  intros (m & -> & Ht & Hc) Hwf. unfold drawGeometryPath.
  unfold bind at 1. cbn [Get ret]. rewrite Ht. cbn [default].
  unfold bind at 1. cbn [Get ret]. rewrite Hc. cbn [default].
  unfold well_formed in Hwf.
  destruct g as [rings | polygons | line | lines]; cbn [type_name strict_eq String.eqb
    Ascii.eqb Bool.eqb coordinates_value geometry_path strands] in *.
  - now apply drawPolygonPath_path.
  - unfold forEach.
    apply (forEach_from_paints context polygon_value polygon_path).
    apply Forall_concat_inv in Hwf.
    eapply Forall_impl; [exact Hwf|]. intros rings Hr i w'. now apply drawPolygonPath_path.
  - apply drawLineStringPath_path. now inversion Hwf.
  - unfold forEach.
    apply (forEach_from_paints context VArr line_path).
    eapply Forall_impl; [exact Hwf|]. intros line Hl i w'. now apply drawLineStringPath_path.
Qed.

End GeometryPaths.

(** ** The path builder builds paths and does nothing else *)

#[global] Instance only_paths_preorder (context : ctxref) : PreOrder (only_paths context).
Proof.
  split.
  - intros w. exists []. split; [constructor | now rewrite paint_nil].
  - intros w1 w2 w3 (o1 & H1 & ->) (o2 & H2 & ->). exists (o1 ++ o2).
    split; [now apply Forall_app | apply paint_app].
Qed.

Section PathOnly.

Context {engine : Engine} (context : ctxref).

Lemma only_paths_emit (op : ctxop) :
  path_op op -> respects (only_paths context) (emit context op).
Proof.
  intros Hop w. rewrite emit_paint. exists [op]. split; [now constructor | reflexivity].
Qed.

Lemma only_paths_length_lt (v : value) (k : nat) :
  respects (only_paths context) (length_lt v k).
Proof.
  destruct v; simpl; first [apply respects_throw | apply respects_ret | apply respects_lift];
    typeclasses eauto.
Qed.

Lemma only_paths_plotCoord (coord : value) (firstPoint : bool) :
  respects (only_paths context) (plotCoord context coord firstPoint).
Proof.
  unfold plotCoord. respects_auto; try apply only_paths_length_lt.
  - apply only_paths_emit. exact I.
  - apply only_paths_emit. exact I.
Qed.

Lemma only_paths_plotCoords (coords : value) :
  respects (only_paths context) (plotCoords context coords).
Proof.
  destruct coords; try (apply respects_throw; typeclasses eauto). simpl.
  respects_auto. apply respects_forEach_var; [typeclasses eauto|].
  intros v s. apply only_paths_plotCoord.
Qed.

Lemma only_paths_drawRing (ring : value) :
  respects (only_paths context) (drawRing context ring).
Proof.
  unfold drawRing. respects_auto.
  - apply only_paths_length_lt.
  - apply only_paths_plotCoords.
  - apply only_paths_emit. exact I.
Qed.

Lemma only_paths_drawPolygonPath (coordinates : value) :
  respects (only_paths context) (drawPolygonPath coordinates context).
Proof.
  apply respects_forEach; [typeclasses eauto|]. intros v j. apply only_paths_drawRing.
Qed.

Lemma only_paths_drawLineStringPath (coordinates : value) :
  respects (only_paths context) (drawLineStringPath coordinates context).
Proof.
  unfold drawLineStringPath. respects_auto.
  - apply only_paths_length_lt.
  - apply only_paths_plotCoords.
Qed.

Lemma only_paths_drawGeometryPath (geometry : value) :
  respects (only_paths context) (drawGeometryPath geometry context).
Proof.
  unfold drawGeometryPath. respects_auto.
  - apply only_paths_drawPolygonPath.
  - apply respects_forEach; [typeclasses eauto|]. intros v j.
    apply only_paths_drawPolygonPath.
  - apply only_paths_drawLineStringPath.
  - apply respects_forEach; [typeclasses eauto|]. intros v j.
    apply only_paths_drawLineStringPath.
Qed.

End PathOnly.

(** A Polygon is drawn ring by ring, in order: each ring of three entries
    or more gives its closed sub-path, exterior and holes alike, and a
    shorter ring among them gives nothing and stops nothing; a line drawn
    alone gives its open sub-path when it has two entries or more.  The
    entries are positions or malformed entries, which are skipped. *)
Theorem polygon_drawn_ring_by_ring :
  forall (engine : Engine) (context : ctxref) (rings : list (list value))
         (line : list value) (w : world),
    Forall (Forall plottable) rings ->
    Forall plottable line ->
    let W := width (offscreenCanvas w) in
    let H := height (offscreenCanvas w) in
    drawPolygonPath (VArr (map VArr rings)) context w
    = Ok tt (paint context (concat (map (ring_path W H) rings)) w)
    /\ drawLineStringPath (VArr line) context w
       = Ok tt (paint context (line_path W H line) w).
Proof.
  intros engine context rings line w Hr Hl W H. split.
  - now apply drawPolygonPath_path.
  - now apply drawLineStringPath_path.
Qed.

Lemma polygon_drawn_ring_by_ring_witness :
  drawPolygonPath (engine := an_engine)
    (VArr [triangle; VArr [VArr [VNum 1; VNum 1]; VArr [VNum 2; VNum 2]]; triangle])
    OffscreenCtx a_world
  = Ok tt (paint OffscreenCtx
             [MoveTo 180 90; LineTo 190 90; LineTo 190 80; ClosePath;
              MoveTo 180 90; LineTo 190 90; LineTo 190 80; ClosePath] a_world).
Proof.
  refine (proj1 (polygon_drawn_ring_by_ring an_engine OffscreenCtx
            [[VArr [VNum 0; VNum 0]; VArr [VNum 10; VNum 0]; VArr [VNum 10; VNum 10]];
             [VArr [VNum 1; VNum 1]; VArr [VNum 2; VNum 2]];
             [VArr [VNum 0; VNum 0]; VArr [VNum 10; VNum 0]; VArr [VNum 10; VNum 10]]]
            [] a_world _ _)).
  - repeat (constructor; [repeat (constructor; [right; eexists; reflexivity|]); constructor|]).
    constructor.
  - constructor.
Defined.

(** A geometry of one of the four types, with well-formed coordinates,
    makes [drawGeometryPath] return after exactly the calls of its path:
    those of the rings of a Polygon, of the polygons of a MultiPolygon one
    after the other, of a LineString, of the lines of a MultiLineString one
    after the other.  Other keys of the geometry are not looked at. *)
Theorem geometry_drawn_by_type :
  forall (engine : Engine) (geometry : value) (g : shape) (context : ctxref) (w : world),
    has_shape geometry g ->
    well_formed g ->
    drawGeometryPath geometry context w
    = Ok tt (paint context
               (geometry_path (width (offscreenCanvas w)) (height (offscreenCanvas w)) g) w).
Proof.
  intros engine geometry g context w Hs Hwf. now apply drawGeometryPath_path.
Qed.

Lemma two_polygons_well_formed : well_formed two_polygons.
Proof.
  unfold well_formed, two_polygons; cbn [strands concat app].
  repeat (constructor;
          [repeat (constructor; [first [left; reflexivity | right; eexists; reflexivity]|]);
           constructor|]).
  constructor.
Defined.

Lemma two_polygons_has_shape : has_shape two_polygons_value two_polygons.
Proof. eexists. split; [reflexivity|]. split; reflexivity. Defined.

Lemma geometry_drawn_by_type_witness :
  drawGeometryPath (engine := an_engine) two_polygons_value OffscreenCtx a_world
  = Ok tt (paint OffscreenCtx
             [MoveTo 180 90; LineTo 190 90; LineTo 190 80; ClosePath;
              MoveTo 200 90; LineTo 220 90; LineTo 220 70; ClosePath;
              MoveTo 210 85; LineTo 215 85; LineTo 215 80; ClosePath] a_world).
Proof.
  exact (geometry_drawn_by_type an_engine two_polygons_value two_polygons OffscreenCtx a_world
           two_polygons_has_shape two_polygons_well_formed).
Defined.

(** Whatever the geometry, and whichever way it ends (by returning or by
    throwing half way), [drawGeometryPath] has only appended [moveTo],
    [lineTo] and [closePath] calls to the context it was given: the other
    canvas, the console, the datasets, the flag, the mode and the queues are
    as they were, and no path is begun, filled or stroked. *)
Theorem path_builder_only_builds_paths :
  forall (engine : Engine) (geometry : value) (context : ctxref) (w : world),
    exists ops : list ctxop,
      Forall path_op ops
      /\ final (drawGeometryPath geometry context w) = paint context ops w.
Proof.
  intros engine geometry context w.
  exact (only_paths_drawGeometryPath context geometry w).
Qed.

(** ** The draw passes on well-formed data *)

Section DrawPasses.

Context {engine : Engine}.

Lemma forEach_from_paints2 {A : Type} (context : ctxref)
      (ops : N -> N -> A -> list ctxop) (f : value -> nat -> M unit)
      (vs : list value) (items : list A) :
  Forall2 (fun v a => forall i w,
               f v i w
               = Ok tt (paint context
                          (ops (width (offscreenCanvas w)) (height (offscreenCanvas w)) a) w))
          vs items ->
  forall (i : nat) (w : world),
    forEach_from i vs f w
    = Ok tt (paint context
               (concat (map (ops (width (offscreenCanvas w)) (height (offscreenCanvas w)))
                          items)) w).
Proof.
  induction 1 as [|v a vs items Ha _ IH]; intros i w; simpl.
  - now rewrite paint_nil.
  - rewrite (bind_Ok _ _ _ _ _ (Ha i w)), IH.
    destruct (offscreen_size_paint context
                (ops (width (offscreenCanvas w)) (height (offscreenCanvas w)) a) w) as [-> ->].
    now rewrite paint_app.
Qed.

Lemma drawLandFeature_ops (feature : value) (og : option shape) (index : nat) (w : world) :
  has_feature feature og ->
  drawLandFeature feature index w
  = Ok tt (paint OffscreenCtx
             (feature_ops Fill (width (offscreenCanvas w)) (height (offscreenCanvas w)) og) w).
Proof.
  intros (m & -> & H). unfold drawLandFeature. unfold bind at 1. cbn [Get ret].
  destruct og as [g|]; cbn [feature_ops].
  - destruct H as (geometry & Hg & Hs & Hwf). rewrite Hg. cbn [default from_option id].
    assert (Ht : ToBoolean geometry = true) by (destruct Hs as (m' & -> & _); reflexivity).
    rewrite Ht. cbn [negb]. unfold try_catch.
    unfold bind at 1. rewrite emit_paint.
    rewrite (bind_Ok _ _ _ _ _ (drawGeometryPath_path geometry g OffscreenCtx _ Hs Hwf)).
    rewrite emit_paint, !paint_app. reflexivity.
  - rewrite H. cbn [negb]. now rewrite paint_nil.
Qed.

Lemma drawBorderFeature_ops (feature : value) (og : option shape) (index : nat) (w : world) :
  has_feature feature og ->
  drawBorderFeature feature index w
  = Ok tt (paint OffscreenCtx
             (feature_ops Stroke (width (offscreenCanvas w)) (height (offscreenCanvas w)) og) w).
Proof.
  intros (m & -> & H). unfold drawBorderFeature. unfold bind at 1. cbn [Get ret].
  destruct og as [g|]; cbn [feature_ops].
  - destruct H as (geometry & Hg & Hs & Hwf). rewrite Hg. cbn [default from_option id].
    assert (Ht : ToBoolean geometry = true) by (destruct Hs as (m' & -> & _); reflexivity).
    rewrite Ht. cbn [negb]. unfold try_catch.
    unfold bind at 1. rewrite emit_paint.
    rewrite (bind_Ok _ _ _ _ _ (drawGeometryPath_path geometry g OffscreenCtx _ Hs Hwf)).
    rewrite emit_paint, !paint_app. reflexivity.
  - rewrite H. cbn [negb]. now rewrite paint_nil.
Qed.

Lemma drawLandAreas_ops (gs : list (option shape)) (w : world) :
  has_features (landData w) gs ->
  drawLandAreas w
  = Ok tt (paint OffscreenCtx
             (land_ops (width (offscreenCanvas w)) (height (offscreenCanvas w)) gs) w).
Proof.
  intros (d & fs & Hd & Hf & Hall). unfold drawLandAreas.
  unfold bind at 1. unfold gets at 1. rewrite Hd.
  unfold bind at 1. cbn [Get ret]. rewrite Hf. cbn [default from_option id ToBoolean negb].
  unfold bind at 1. rewrite emit_paint. unfold bind at 1. rewrite emit_paint.
  rewrite paint_app. unfold forEach.
  rewrite (forEach_from_paints2 OffscreenCtx (feature_ops Fill) drawLandFeature fs gs).
  - rewrite paint_app. reflexivity.
  - eapply Forall2_impl; [exact Hall|]. intros f og Hfo i w'. now apply drawLandFeature_ops.
Qed.

Lemma drawCountryBorders_ops (gs : list (option shape)) (w : world) :
  has_features (outlineData w) gs ->
  drawCountryBorders w
  = Ok tt (paint OffscreenCtx
             (border_ops (width (offscreenCanvas w)) (height (offscreenCanvas w)) gs) w).
Proof.
  intros (d & fs & Hd & Hf & Hall). unfold drawCountryBorders.
  unfold bind at 1. unfold gets at 1. rewrite Hd.
  unfold bind at 1. cbn [Get ret]. rewrite Hf. cbn [default from_option id ToBoolean negb].
  unfold bind at 1. rewrite emit_paint. unfold bind at 1. rewrite emit_paint.
  unfold bind at 1. rewrite emit_paint.
  rewrite !paint_app. unfold forEach.
  rewrite (forEach_from_paints2 OffscreenCtx (feature_ops Stroke) drawBorderFeature fs gs).
  - rewrite paint_app. reflexivity.
  - eapply Forall2_impl; [exact Hall|]. intros f og Hfo i w'. now apply drawBorderFeature_ops.
Qed.

Lemma render_ops (lands borders : list (option shape)) (w : world) :
  has_features (landData w) lands ->
  has_features (outlineData w) borders ->
  map2DRendered w = false ->
  render2DMapOffscreen w
  = Ok tt
      (set_console
         (console w ++ [pre_render_entry; Log "2D map pre-rendering completed"])
         (set_map2DRendered true
            (paint OffscreenCtx
               (map_ops (width (offscreenCanvas w)) (height (offscreenCanvas w))
                  lands borders) w))).
Proof.
  intros Hl Hb Hr. rewrite render_unfold, Hr.
  assert (Tl : ToBoolean (landData w) = true)
    by (destruct Hl as (d & fs & -> & _); reflexivity).
  assert (Tb : ToBoolean (outlineData w) = true)
    by (destruct Hb as (d & fs & -> & _); reflexivity).
  rewrite Tl, Tb. cbn [negb orb].
  unfold after_announcement.
  unfold bind at 1. rewrite emit_paint.
  unfold bind at 1 2. unfold gets at 1 2.
  unfold bind at 1. rewrite emit_paint. rewrite paint_app.
  match goal with |- context [bind drawLandAreas _ ?w0] => set (w1 := w0) end.
  rewrite (bind_Ok _ _ _ _ _ (drawLandAreas_ops lands w1 Hl)).
  match goal with |- context [bind drawCountryBorders _ ?w0] => set (w2 := w0) end.
  rewrite (bind_Ok _ _ _ _ _ (drawCountryBorders_ops borders w2 Hb)).
  subst w2 w1. rewrite !paint_app.
  destruct w as [a b c d [w1 h1 c1] [w2 h2 c2] e f g h i j]. cbn.
  unfold map_ops, console_log, modify, set_console, set_map2DRendered, set_offscreenCanvas.
  cbn. rewrite <- !app_assoc. reflexivity.
Qed.

End DrawPasses.

#[global] Instance keeps_preorder {A : Type} (f : world -> A) : PreOrder (keeps f).
Proof.
  split.
  - intros w. reflexivity.
  - intros w1 w2 w3 H1 H2. unfold keeps in *. congruence.
Qed.

Section OffscreenOnly.

Context {engine : Engine}.

Lemma beside_offscreen_paint (ops : list ctxop) (w : world) :
  beside_offscreen (paint OffscreenCtx ops w) = beside_offscreen w.
Proof. reflexivity. Qed.

Lemma drawGeometryPath_beside (geometry : value) :
  respects (keeps beside_offscreen) (drawGeometryPath geometry OffscreenCtx).
Proof.
  intros w. destruct (only_paths_drawGeometryPath OffscreenCtx geometry w) as (ops & _ & ->).
  apply beside_offscreen_paint.
Qed.

Lemma draw_passes_beside :
  respects (keeps beside_offscreen) drawLandAreas
  /\ respects (keeps beside_offscreen) drawCountryBorders.
Proof.
  assert (paints : forall op, respects (keeps beside_offscreen) (emit OffscreenCtx op))
    by (intros op w; reflexivity).
  assert (warns : forall s e, respects (keeps beside_offscreen) (console_warn s e))
    by (intros s e w; reflexivity).
  split.
  - unfold drawLandAreas. respects_auto; try apply paints.
    apply respects_forEach; [typeclasses eauto|]. intros v j.
    unfold drawLandFeature. respects_auto;
      first [apply paints | apply warns | apply drawGeometryPath_beside].
  - unfold drawCountryBorders. respects_auto; try apply paints.
    apply respects_forEach; [typeclasses eauto|]. intros v j.
    unfold drawBorderFeature. respects_auto;
      first [apply paints | apply warns | apply drawGeometryPath_beside].
Qed.

Lemma render_beside : respects (keeps beside_offscreen) render2DMapOffscreen.
Proof.
  destruct draw_passes_beside as [Hl Hb].
  unfold render2DMapOffscreen. respects_auto;
    first [exact Hl | exact Hb | intros w; reflexivity].
Qed.

End OffscreenOnly.

(** On a dataset whose features are objects with a well-formed geometry of
    one of the four types, or with no geometry, each draw pass returns
    after exactly these calls on the offscreen context: its style
    assignments, then for each feature with a geometry, in order, a
    [beginPath], the path of the geometry and a [fill] (land) or [stroke]
    (borders); a feature without geometry gives no call.  Nothing is
    written to the console. *)
Theorem draw_passes_paint_features :
  forall (engine : Engine) (lands borders : list (option shape)) (w : world),
    let W := width (offscreenCanvas w) in
    let H := height (offscreenCanvas w) in
    (has_features (landData w) lands ->
     drawLandAreas w = Ok tt (paint OffscreenCtx (land_ops W H lands) w))
    /\ (has_features (outlineData w) borders ->
        drawCountryBorders w = Ok tt (paint OffscreenCtx (border_ops W H borders) w)).
Proof.
  intros engine lands borders w W H. split; intros Hf.
  - now apply drawLandAreas_ops.
  - now apply drawCountryBorders_ops.
Qed.

Lemma three_features_shapes : has_features three_features three_shapes.
Proof.
  eexists _, _. split; [reflexivity|]. split; [reflexivity|].
  constructor; [|constructor; [|constructor; [|constructor]]].
  - eexists. split; [reflexivity|]. eexists. split; [reflexivity|]. split.
    + eexists. split; [reflexivity|]. split; reflexivity.
    + unfold well_formed. cbn [strands].
      repeat (constructor;
              [repeat (constructor; [first [left; reflexivity | right; eexists; reflexivity]|]);
               constructor|]).
      constructor.
  - eexists. split; [reflexivity|]. reflexivity.
  - eexists. split; [reflexivity|]. eexists. split; [reflexivity|]. split.
    + eexists. split; [reflexivity|]. split; reflexivity.
    + unfold well_formed. cbn [strands].
      repeat (constructor;
              [repeat (constructor; [first [left; reflexivity | right; eexists; reflexivity]|]);
               constructor|]).
      constructor.
Defined.

Lemma draw_passes_paint_features_witness :
  drawLandAreas (engine := an_engine) three_features_world
  = Ok tt (paint OffscreenCtx
             [FillStyle "#90EE90"; StrokeStyle "transparent";
              BeginPath; MoveTo 180 90; LineTo 190 90; LineTo 190 80; ClosePath; Fill;
              BeginPath; MoveTo 170 90; LineTo 180 70; Fill] three_features_world).
Proof.
  exact (proj1 (draw_passes_paint_features an_engine three_shapes three_shapes
                  three_features_world) three_features_shapes).
Defined.

(** With both datasets of that kind and the flag unset,
    [render2DMapOffscreen] returns after painting the whole map on the
    offscreen context (the ocean rectangle over the whole canvas, the land
    pass, the border pass, in this order), setting the flag and writing its
    two lines, and only them, to the console. *)
Theorem render_composes_map :
  forall (engine : Engine) (lands borders : list (option shape)) (w : world),
    has_features (landData w) lands ->
    has_features (outlineData w) borders ->
    map2DRendered w = false ->
    render2DMapOffscreen w
    = Ok tt
        (set_console
           (console w ++ [pre_render_entry; Log "2D map pre-rendering completed"])
           (set_map2DRendered true
              (paint OffscreenCtx
                 (map_ops (width (offscreenCanvas w)) (height (offscreenCanvas w))
                    lands borders) w))).
Proof.
  intros engine lands borders w Hl Hb Hr. now apply render_ops.
Qed.

Lemma render_composes_map_witness :
  render2DMapOffscreen (engine := an_engine) three_features_world
  = Ok tt
      (set_console [pre_render_entry; Log "2D map pre-rendering completed"]
         (set_map2DRendered true
            (paint OffscreenCtx
               [FillStyle "#4A90E2"; FillRect 0 0 360 180;
                FillStyle "#90EE90"; StrokeStyle "transparent";
                BeginPath; MoveTo 180 90; LineTo 190 90; LineTo 190 80; ClosePath; Fill;
                BeginPath; MoveTo 170 90; LineTo 180 70; Fill;
                StrokeStyle "#000000"; FillStyle "transparent"; LineWidth 1;
                BeginPath; MoveTo 180 90; LineTo 190 90; LineTo 190 80; ClosePath; Stroke;
                BeginPath; MoveTo 170 90; LineTo 180 70; Stroke]
               three_features_world))).
Proof.
  exact (render_composes_map an_engine three_shapes three_shapes three_features_world
           three_features_shapes three_features_shapes eq_refl).
Defined.

(** [render2DMapOffscreen] works on the offscreen bitmap only: whatever the
    datasets hold and whichever way it ends, the visible canvas, the mode,
    the two [display] styles, the button, both queues, the datasets and the
    size of the offscreen canvas are as they were.  And while a dataset is
    missing (falsy), or once the flag is set, it returns at once and
    changes nothing at all. *)
Theorem render_touches_offscreen_only :
  forall (engine : Engine) (w : world),
    beside_offscreen (final (render2DMapOffscreen w)) = beside_offscreen w
    /\ (ToBoolean (landData w) = false \/ ToBoolean (outlineData w) = false
        \/ map2DRendered w = true ->
        render2DMapOffscreen w = Ok tt w).
Proof.
  intros engine w. split; [apply render_beside|].
  intros H. rewrite render_unfold.
  destruct H as [-> | [-> | ->]]; cbn [negb orb]; [reflexivity | | ].
  - now destruct (ToBoolean (landData w)).
  - now destruct (ToBoolean (landData w)), (ToBoolean (outlineData w)).
Qed.

Lemma render_touches_offscreen_only_witness :
  render2DMapOffscreen (engine := an_engine) a_world = Ok tt a_world.
Proof.
  apply (proj2 (render_touches_offscreen_only an_engine a_world)). left. reflexivity.
Defined.

(** ** The toggle *)

Ltac run_script :=
  unfold toggleFrame, try_catch, toggleSwitch, toggle2D3D, display2DMap, drawImage_offscreen,
    cleanupCanvas2D, handleWindowResize, landLoaded, outlineLoaded,
    console_log, console_error, setTimeout, requestAnimationFrame, emit, modify, gets,
    bind, ret, throw; cbn.

(** Two worlds with the same components are the same. *)
Lemma world_ext (w w' : world) :
  is3D w = is3D w' -> landData w = landData w' -> outlineData w = outlineData w' ->
  map2DRendered w = map2DRendered w' -> canvas2D w = canvas2D w' ->
  offscreenCanvas w = offscreenCanvas w' ->
  canvas2D_display w = canvas2D_display w' -> renderer_display w = renderer_display w' ->
  toggleButton w = toggleButton w' -> console w = console w' ->
  timers w = timers w' -> frames w = frames w' ->
  w = w'.
Proof. destruct w, w'; cbn; intros; subst; reflexivity. Qed.

Ltac same_world :=
  f_equal; apply world_ext; cbn; unfold draw; cbn; rewrite <- ?app_assoc; reflexivity.

Section Toggle.

Context {engine : Engine}.

(** What the statements of the [try] block do, by the world they start
    in. *)
Lemma toggleSwitch_to3D (w : world) :
  is3D w = false ->
  toggleSwitch w
  = Ok tt
      (set_toggleButton {| disabled := false; textContent := "Switch to 2D Map" |}
         (set_canvas2D_display "none"
            (set_renderer_display "block"
               (paint Ctx2D
                  [ClearRect 0 0 (Number_of_N (width (canvas2D w)))
                     (Number_of_N (height (canvas2D w)));
                   SetTransform 1 0 0 1 0 0]
                  (set_console (console w ++ [Log "Switching to 3D mode..."])
                     (set_is3D true w)))))).
Proof.
  intros H. run_script. rewrite H. cbn.
  same_world.
Qed.

Lemma toggleSwitch_placeholder (w : world) :
  is3D w = true -> map2DRendered w = false ->
  toggleSwitch w
  = Ok tt
      (set_toggleButton {| disabled := false; textContent := "Switch to 3D Globe" |}
         (set_timers (timers w ++ [CbRenderDisplay])
            (paint Ctx2D
               [FillStyle "#4A90E2";
                FillRect 0 0 (Number_of_N (width (canvas2D w)))
                  (Number_of_N (height (canvas2D w)));
                FillStyle "white"; Font "24px Arial"; TextAlign "center";
                FillText "2D Map Loading..." (Number_of_N (width (canvas2D w)) / 2)
                  (Number_of_N (height (canvas2D w)) / 2)]
               (set_canvas2D_display "block"
                  (set_renderer_display "none"
                     (set_console (console w ++ [Log "Switching to 2D mode..."])
                        (set_is3D false w))))))).
Proof.
  intros H F. run_script. rewrite H. cbn. rewrite F. cbn.
  same_world.
Qed.

Lemma toggleSwitch_cached (w : world) :
  is3D w = true -> map2DRendered w = true -> empty_source w = false ->
  toggleSwitch w
  = Ok tt
      (set_toggleButton {| disabled := false; textContent := "Switch to 3D Globe" |}
         (set_console
            (console w ++ [Log "Switching to 2D mode..."; displayed_entry])
            (paint Ctx2D
               [ClearRect 0 0 (Number_of_N (width (canvas2D w)))
                  (Number_of_N (height (canvas2D w)));
                DrawImage (width (offscreenCanvas w)) (height (offscreenCanvas w))
                  (calls (offscreenCanvas w)) 0 0]
               (set_canvas2D_display "block"
                  (set_renderer_display "none" (set_is3D false w)))))).
Proof.
  intros H F E. unfold empty_source in E. run_script. rewrite H. cbn. rewrite F. cbn. rewrite E. cbn.
  same_world.
Qed.

Lemma toggleSwitch_empty (w : world) :
  is3D w = true -> map2DRendered w = true -> empty_source w = true ->
  toggleSwitch w
  = Throw InvalidStateError
      (paint Ctx2D
         [ClearRect 0 0 (Number_of_N (width (canvas2D w)))
            (Number_of_N (height (canvas2D w)))]
         (set_canvas2D_display "block"
            (set_renderer_display "none"
               (set_console (console w ++ [Log "Switching to 2D mode..."])
                  (set_is3D false w))))).
Proof.
  intros H F E. unfold empty_source in E. run_script. rewrite H. cbn. rewrite F. cbn. rewrite E. cbn.
  same_world.
Qed.

(** The frame callback always returns, with the mode switched, the surface
    of the new mode on show and the button enabled; its label is the one of
    the new mode unless the switch failed. *)
Lemma toggleFrame_outcome (w : world) :
  exists w1 : world,
    toggleFrame w = Ok tt w1
    /\ is3D w1 = negb (is3D w)
    /\ mode_shown w1
    /\ frames w1 = frames w
    /\ toggleButton w1
       = {| disabled := false;
            textContent := if toggle_fails w then "Toggle Failed - Try Again"
                           else label_of (negb (is3D w)) |}
    /\ timers w1
       = timers w ++ (if is3D w && negb (map2DRendered w) then [CbRenderDisplay] else [])
    /\ landData w1 = landData w /\ outlineData w1 = outlineData w
    /\ map2DRendered w1 = map2DRendered w
    /\ offscreenCanvas w1 = offscreenCanvas w.
Proof.
  unfold toggleFrame, try_catch, toggle_fails, mode_shown.
  destruct (is3D w) eqn:H; [destruct (map2DRendered w) eqn:F;
                            [destruct (empty_source w) eqn:E|]|].
  - rewrite (toggleSwitch_empty w H F E). eexists. split; [reflexivity|]. cbn.
    rewrite ?app_nil_r. repeat split; first [reflexivity | assumption | discriminate].
  - rewrite (toggleSwitch_cached w H F E). eexists. split; [reflexivity|]. cbn.
    rewrite ?app_nil_r. repeat split; first [reflexivity | assumption | discriminate].
  - rewrite (toggleSwitch_placeholder w H F). eexists. split; [reflexivity|]. cbn.
    rewrite ?app_nil_r. repeat split; first [reflexivity | assumption | discriminate].
  - rewrite (toggleSwitch_to3D w H). eexists. split; [reflexivity|]. cbn.
    rewrite ?app_nil_r. repeat split; first [reflexivity | assumption | discriminate].
Qed.

Lemma toggle2D3D_outcome (w : world) :
  toggle2D3D w
  = Ok tt (if disabled (toggleButton w) then w
           else set_frames (frames w ++ [CbToggle])
                  (set_toggleButton {| disabled := true; textContent := "Switching..." |} w)).
Proof. run_script. now destruct (disabled (toggleButton w)). Qed.

#[global] Instance queues_renders_preorder : PreOrder queues_renders.
Proof.
  split.
  - intros w. split; [reflexivity|]. exists []. split; [now rewrite app_nil_r | constructor].
  - intros w1 w2 w3 (S1 & t1 & E1 & F1) (S2 & t2 & E2 & F2). split; [congruence|].
    exists (t1 ++ t2). split; [rewrite E2, E1; now rewrite app_assoc | now apply Forall_app].
Qed.

Lemma queues_renders_same (w w' : world) :
  shell w' = shell w -> timers w' = timers w -> queues_renders w w'.
Proof.
  intros S T. split; [exact S|]. exists []. split; [now rewrite app_nil_r | constructor].
Qed.

Lemma render_queues : respects queues_renders render2DMapOffscreen.
Proof.
  intros w. pose proof (render_beside w) as H. unfold keeps, beside_offscreen in H.
  apply queues_renders_same; unfold shell; congruence.
Qed.

Lemma display2DMap_queues : respects queues_renders display2DMap.
Proof.
  intros w. run_script.
  destruct (_ || _); cbn; now apply queues_renders_same.
Qed.

Lemma resize_queues (newWidth newHeight : N) :
  respects queues_renders (handleWindowResize newWidth newHeight).
Proof.
  intros w. run_script. destruct (_ && _); cbn.
  - split; [reflexivity|]. exists [CbRenderDisplay].
    split; [reflexivity | constructor; [now right | constructor]].
  - now apply queues_renders_same.
Qed.

Lemma loaded_queues (data : value) :
  respects queues_renders (landLoaded data) /\ respects queues_renders (outlineLoaded data).
Proof.
  split; intros w; run_script; destruct (drawThreeGeo data); cbn;
    try (now apply queues_renders_same);
    (destruct (ToBoolean _); cbn; [|now apply queues_renders_same]);
    (split; [reflexivity|]; exists [CbRender];
     split; [reflexivity | constructor; [now left | constructor]]).
Qed.

Lemma callback_queues (cb : callback) :
  begins_with_render cb -> respects queues_renders (run_callback cb).
Proof.
  intros [-> | ->]; cbn [run_callback].
  - apply render_queues.
  - apply respects_bind; [typeclasses eauto | apply render_queues |].
    intros _. apply display2DMap_queues.
Qed.

(** The report of an uncaught exception changes the console only. *)
Lemma step_final (w : world) (ev : event) :
  shell (step w ev) = shell (final (handler ev w))
  /\ timers (step w ev) = timers (final (handler ev w)).
Proof. unfold step. now destruct (handler ev w). Qed.

Lemma mode_shown_shell (w w' : world) : shell w' = shell w -> mode_shown w -> mode_shown w'.
Proof. unfold shell, mode_shown. intros [= -> -> -> _ _]. trivial. Qed.

Lemma step_mode_shown (w : world) (ev : event) : mode_shown w -> mode_shown (step w ev).
Proof.
  intros Hm. destruct (step_final w ev) as [S _].
  assert (callback : forall cb w0, mode_shown w0 -> mode_shown (final (run_callback cb w0))).
  { intros cb w0 H0. destruct cb.
    - apply (mode_shown_shell w0); [|exact H0]. apply (callback_queues CbRender). now left.
    - apply (mode_shown_shell w0); [|exact H0].
      apply (callback_queues CbRenderDisplay). now right.
    - cbn [run_callback]. destruct (toggleFrame_outcome w0) as (w1 & -> & _ & H1 & _).
      exact H1. }
  apply (mode_shown_shell (final (handler ev w))); [exact S|].
  destruct ev as [| | | nw nh | data | data]; cbn [handler].
  - rewrite toggle2D3D_outcome. cbn [final].
    destruct (disabled (toggleButton w)); [exact Hm|]. exact Hm.
  - unfold bind at 1. unfold gets at 1. destruct (frames w) as [|cb rest]; [exact Hm|].
    unfold bind, modify. apply callback. exact Hm.
  - unfold bind at 1. unfold gets at 1. destruct (timers w) as [|cb rest]; [exact Hm|].
    unfold bind, modify. apply callback. exact Hm.
  - apply (mode_shown_shell w); [|exact Hm]. apply resize_queues.
  - apply (mode_shown_shell w); [|exact Hm]. apply loaded_queues.
  - apply (mode_shown_shell w); [|exact Hm]. apply loaded_queues.
Qed.

Lemma settled_queues (w w0 : world) :
  toggle_settled w -> queues_renders w w0 -> toggle_settled w0.
Proof.
  intros [Ht Hb] (S & t & E & F). unfold shell in S. injection S as _ _ _ B Fr.
  split; [rewrite E; now apply Forall_app|].
  unfold button_idle, button_pending in *. now rewrite B, Fr.
Qed.

Lemma settled_uncaught (w : world) (e : exn) :
  toggle_settled w -> toggle_settled (set_console (console w ++ [Uncaught e]) w).
Proof. intros H. exact H. Qed.

Lemma step_queues (w : world) (ev : event) :
  queues_renders w (final (handler ev w)) -> toggle_settled w -> toggle_settled (step w ev).
Proof.
  intros Hq Hs. unfold step. destruct (handler ev w) as [[] w' | e w']; cbn [final] in Hq.
  - now apply (settled_queues w).
  - apply settled_uncaught. now apply (settled_queues w).
Qed.

Lemma step_settled (w : world) (ev : event) : toggle_settled w -> toggle_settled (step w ev).
Proof.
  intros Hs. destruct ev as [| | | nw nh | data | data].
  - unfold step. cbn [handler]. rewrite toggle2D3D_outcome.
    destruct Hs as [Ht [[Hf Hd] | [Hf Hd]]].
    + rewrite Hd. split; [exact Ht|]. right. split; [cbn; now rewrite Hf | reflexivity].
    + rewrite Hd. cbn. split; [exact Ht | now right].
  - destruct Hs as [Ht [[Hf Hd] | [Hf Hd]]].
    + apply step_queues; [|split; [exact Ht | now left]].
      cbn [handler]. unfold bind at 1. unfold gets at 1. rewrite Hf. reflexivity.
    + unfold step. cbn [handler]. unfold bind at 1. unfold gets at 1. rewrite Hf.
      unfold bind, modify. cbn [run_callback].
      destruct (toggleFrame_outcome (set_frames [] w))
        as (w1 & -> & _ & _ & Hfr & Hbt & Htm & _).
      split.
      * rewrite Htm. cbn [timers set_frames]. apply Forall_app. split; [exact Ht|].
        destruct (_ && _); [constructor; [now right | constructor] | constructor].
      * left. split; [exact Hfr | now rewrite Hbt].
  - unfold step. cbn [handler]. unfold bind at 1. unfold gets at 1.
    destruct (timers w) as [|cb rest] eqn:Eq; [exact Hs|].
    unfold bind, modify.
    assert (Hs' : toggle_settled (set_timers rest w)).
    { destruct Hs as [Ht Hb]. rewrite Eq in Ht. apply Forall_cons in Ht as [_ Hrest].
      split; [exact Hrest | exact Hb]. }
    assert (Hcb : begins_with_render cb).
    { destruct Hs as [Ht _]. rewrite Eq in Ht. now apply Forall_cons in Ht as [Hcb _]. }
    pose proof (callback_queues cb Hcb (set_timers rest w)) as Hq.
    destruct (run_callback cb (set_timers rest w)) as [[] w' | e w']; cbn [final] in Hq.
    + now apply (settled_queues (set_timers rest w)).
    + apply settled_uncaught. now apply (settled_queues (set_timers rest w)).
  - apply step_queues; [apply resize_queues | exact Hs].
  - apply step_queues; [apply loaded_queues | exact Hs].
  - apply step_queues; [apply loaded_queues | exact Hs].
Qed.

Lemma click_twice (w : world) : step (step w Click) Click = step w Click.
Proof.
  unfold step. cbn [handler]. rewrite !toggle2D3D_outcome.
  destruct (disabled (toggleButton w)) eqn:D; [now rewrite D | reflexivity].
Qed.

Lemma toggleSwitch_throws_iff (w : world) :
  (exists (e : exn) (w1 : world), toggleSwitch w = Throw e w1) <-> toggle_fails w = true.
Proof.
  unfold toggle_fails.
  destruct (is3D w) eqn:H; [destruct (map2DRendered w) eqn:F;
                            [destruct (empty_source w) eqn:E|]|]; cbn [andb].
  - rewrite (toggleSwitch_empty w H F E). split; [reflexivity|]. intros _. now eexists _, _.
  - rewrite (toggleSwitch_cached w H F E). split; [intros (e & w1 & [=]) | discriminate].
  - rewrite (toggleSwitch_placeholder w H F). split; [intros (e & w1 & [=]) | discriminate].
  - rewrite (toggleSwitch_to3D w H). split; [intros (e & w1 & [=]) | discriminate].
Qed.

Lemma frame_idles (w : world) : toggle_settled w -> button_idle (step w Frame).
Proof.
  intros [Ht [[Hf Hd] | [Hf Hd]]]; unfold step; cbn [handler];
    unfold bind at 1; unfold gets at 1; rewrite Hf.
  - now split.
  - unfold bind, modify. cbn [run_callback].
    destruct (toggleFrame_outcome (set_frames [] w)) as (w1 & -> & _ & _ & Hfr & Hbt & _).
    split; [exact Hfr | now rewrite Hbt].
Qed.

Lemma run_settled (w : world) (evs : list event) :
  toggle_settled w -> toggle_settled (run w evs).
Proof.
  revert w. induction evs as [|ev evs IH]; intros w Hs; [exact Hs|].
  apply IH. now apply step_settled.
Qed.

Lemma run_mode_shown (w : world) (evs : list event) :
  mode_shown w -> mode_shown (run w evs).
Proof.
  revert w. induction evs as [|ev evs IH]; intros w Hs; [exact Hs|].
  apply IH. now apply step_mode_shown.
Qed.

Lemma click_frame_flips (w : world) :
  button_idle w -> is3D (run w [Click; Frame]) = negb (is3D w).
Proof.
  intros [Hf Hd]. cbn [run fold_left]. unfold step at 2. cbn [handler].
  rewrite toggle2D3D_outcome, Hd. unfold step. cbn [handler].
  unfold bind at 1. unfold gets at 1. cbn [frames set_frames]. rewrite Hf. cbn [app].
  unfold bind, modify. cbn [run_callback].
  match goal with |- context [toggleFrame ?w0] =>
    destruct (toggleFrame_outcome w0) as (w1 & -> & H1 & _) end.
  exact H1.
Qed.

End Toggle.

(** The frame callback of the toggle always returns and always switches
    the mode, and leaves the surface of the new mode on show and the button
    enabled.  The statements of its [try] block throw exactly when the
    switch is to 2D, the flag is set and the offscreen canvas has a zero
    width or height ([drawImage] refuses it): the button then reads 'Toggle
    Failed - Try Again' while the page is already in 2D mode; otherwise it
    reads the label of the new mode.  One render-and-display timer is
    queued when the switch is to 2D with the flag unset, none otherwise;
    datasets, flag and offscreen canvas are not touched. *)
Theorem toggle_always_switches_mode :
  forall w : world,
    ((exists (e : exn) (w' : world), toggleSwitch w = Throw e w') <-> toggle_fails w = true)
    /\ exists w1 : world,
         toggleFrame w = Ok tt w1
         /\ is3D w1 = negb (is3D w)
         /\ mode_shown w1
         /\ frames w1 = frames w
         /\ toggleButton w1
            = {| disabled := false;
                 textContent := if toggle_fails w then "Toggle Failed - Try Again"
                                else label_of (negb (is3D w)) |}
         /\ timers w1
            = timers w ++ (if is3D w && negb (map2DRendered w) then [CbRenderDisplay] else [])
         /\ landData w1 = landData w /\ outlineData w1 = outlineData w
         /\ map2DRendered w1 = map2DRendered w
         /\ offscreenCanvas w1 = offscreenCanvas w.
Proof.
  intros w. split; [apply toggleSwitch_throws_iff | apply toggleFrame_outcome].
Qed.

(** Clicks are debounced: however many clicks come before the next
    animation frame, they have the effect of the first one alone (at most
    one frame callback is queued). *)
Theorem clicks_are_debounced :
  forall (engine : Engine) (w : world) (n : nat),
    run w (repeat Click (S n)) = step w Click.
Proof.
  intros engine w n. induction n as [|n IH]; [reflexivity|].
  change (repeat Click (S (S n))) with (Click :: repeat Click (S n)).
  change (run w (Click :: repeat Click (S n))) with (run (step w Click) (repeat Click (S n))).
  change (repeat Click (S n)) with (Click :: repeat Click n) in *.
  change (run (step w Click) (Click :: repeat Click n))
    with (run (step (step w Click) Click) (repeat Click n)).
  rewrite click_twice. exact IH.
Qed.

(** The button is never left disabled.  In a world where the timers are
    renders and the toggle's frame callback is pending exactly when the
    button is disabled (the page starts so), every sequence of events
    leads to such a world again, and one more animation frame leaves the
    button enabled with no toggle pending, whether the toggle failed or
    not. *)
Theorem button_never_stuck :
  forall (engine : Engine) (w : world) (evs : list event),
    toggle_settled w ->
    toggle_settled (run w evs) /\ button_idle (step (run w evs) Frame).
Proof.
  intros engine w evs Hs.
  pose proof (run_settled w evs Hs) as Hr.
  split; [exact Hr | now apply frame_idles].
Qed.

Lemma initial_world_settled (width height : N) : toggle_settled (initial_world width height).
Proof. split; [constructor | left; now split]. Defined.

Lemma button_never_stuck_witness :
  toggle_settled (run (engine := an_engine) (initial_world 800 600)
                    [Click; Click; Resize 0 0; Frame; Timer; Click; Frame; Click])
  /\ button_idle (step (engine := an_engine)
                    (run (engine := an_engine) (initial_world 800 600)
                       [Click; Click; Resize 0 0; Frame; Timer; Click; Frame; Click]) Frame).
Proof.
  exact (button_never_stuck an_engine (initial_world 800 600)
           [Click; Click; Resize 0 0; Frame; Timer; Click; Frame; Click]
           (initial_world_settled 800 600)).
Defined.

(** The surface on show is always the one of the mode: when the 2D canvas
    is hidden and the renderer's canvas shown in 3D mode, or the other way
    round in 2D mode (the page starts so), this holds again after every
    sequence of events, a failed toggle or an uncaught exception included.
    And from a world with the button enabled and no frame callback pending,
    a click followed by an animation frame switches the mode. *)
Theorem mode_always_shown :
  forall (engine : Engine) (w : world) (evs : list event),
    mode_shown w ->
    mode_shown (run w evs)
    /\ (button_idle (run w evs) ->
        is3D (run (run w evs) [Click; Frame]) = negb (is3D (run w evs))).
Proof.
  intros engine w evs Hm. split; [now apply run_mode_shown | apply click_frame_flips].
Qed.

Lemma initial_world_shown (width height : N) : mode_shown (initial_world width height).
Proof. split; [reflexivity | discriminate]. Defined.

Lemma mode_always_shown_witness :
  mode_shown (run (engine := an_engine) (initial_world 800 600)
                [Click; Frame; Resize 0 0; Timer; Click; Frame; Click; Frame]).
Proof.
  exact (proj1 (mode_always_shown an_engine (initial_world 800 600)
                  [Click; Frame; Resize 0 0; Timer; Click; Frame; Click; Frame]
                  (initial_world_shown 800 600))).
Defined.

(** ** Display, first toggle and resize *)

Section Display.

Context {engine : Engine}.

Lemma display2DMap_outcome (w : world) :
  display2DMap w
  = if empty_source w
    then Throw InvalidStateError
           (paint Ctx2D
              [ClearRect 0 0 (Number_of_N (width (canvas2D w)))
                 (Number_of_N (height (canvas2D w)))] w)
    else Ok tt
           (set_console (console w ++ [displayed_entry])
              (paint Ctx2D
                 (blit_ops (width (canvas2D w)) (height (canvas2D w))
                    (width (offscreenCanvas w)) (height (offscreenCanvas w))
                    (calls (offscreenCanvas w))) w)).
Proof.
  unfold empty_source. run_script. destruct (_ || _); same_world.
Qed.

(** With both datasets loaded and drawable and an offscreen canvas that
    has pixels, the render-and-display callback completes: the map is
    rendered, then blitted. *)
Lemma render_display_outcome (w : world) :
  loaded w -> drawable (landData w) -> drawable (outlineData w) ->
  empty_source w = false ->
  exists w1 : world,
    render2DMapOffscreen w = Ok tt w1
    /\ map2DRendered w1 = true
    /\ beside_offscreen w1 = beside_offscreen w
    /\ run_callback CbRenderDisplay w
       = Ok tt
           (set_console (console w1 ++ [displayed_entry])
              (paint Ctx2D
                 (blit_ops (width (canvas2D w)) (height (canvas2D w))
                    (width (offscreenCanvas w)) (height (offscreenCanvas w))
                    (calls (offscreenCanvas w1))) w1)).
Proof.
  intros [Hl Ho] Dl Do He.
  destruct (render_completes w Hl Ho Dl Do) as (w1 & E1 & F1 & _).
  pose proof (render_beside w) as Hb. rewrite E1 in Hb. cbn [final] in Hb.
  unfold keeps in Hb.
  exists w1. split; [exact E1|]. split; [exact F1|]. split; [exact Hb|].
  cbn [run_callback]. rewrite (bind_Ok _ _ _ _ _ E1), display2DMap_outcome.
  unfold beside_offscreen in Hb. injection Hb as _ _ _ Hc Hw Hh _ _ _ _ _.
  unfold empty_source in *. rewrite Hw, Hh, He, Hc. reflexivity.
Qed.

Lemma datasets_commute (w : world) (land_ outline_ : value) :
  ToBoolean (landData w) = false -> ToBoolean (outlineData w) = false ->
  ToBoolean land_ = true -> ToBoolean outline_ = true ->
  drawThreeGeo land_ = None -> drawThreeGeo outline_ = None ->
  run w [LandLoaded land_; OutlineLoaded outline_]
  = set_timers (timers w ++ [CbRender]) (set_outlineData outline_ (set_landData land_ w))
  /\ run w [OutlineLoaded outline_; LandLoaded land_]
     = set_timers (timers w ++ [CbRender]) (set_outlineData outline_ (set_landData land_ w)).
Proof.
  intros Hl Ho Tl To Gl Go. cbn [run fold_left]. unfold step. cbn [handler].
  run_script.
  repeat (first [rewrite Gl | rewrite Go | rewrite Hl | rewrite Ho | rewrite Tl | rewrite To];
          cbn).
  split; apply world_ext; reflexivity.
Qed.

Lemma step_Ok (w w' : world) (ev : event) : handler ev w = Ok tt w' -> step w ev = w'.
Proof. intros H. unfold step. now rewrite H. Qed.

Lemma timer_runs (w : world) (cb : callback) (rest : list callback) :
  timers w = cb :: rest -> handler Timer w = run_callback cb (set_timers rest w).
Proof. intros H. cbn [handler]. unfold bind at 1. unfold gets at 1. now rewrite H. Qed.

Lemma frame_runs (w : world) (cb : callback) (rest : list callback) :
  frames w = cb :: rest -> handler Frame w = run_callback cb (set_frames rest w).
Proof. intros H. cbn [handler]. unfold bind at 1. unfold gets at 1. now rewrite H. Qed.

(** The first switch to 2D, the map not yet rendered: the placeholder, then
    the render and the blit when the timer expires. *)
Lemma first_toggle (w : world) :
  button_idle w -> timers w = [] -> is3D w = true -> map2DRendered w = false ->
  loaded w -> drawable (landData w) -> drawable (outlineData w) ->
  empty_source w = false ->
  let w2 := run w [Click; Frame] in
  let w3 := run w [Click; Frame; Timer] in
  calls (canvas2D w2)
  = calls (canvas2D w) ++ placeholder_ops (width (canvas2D w)) (height (canvas2D w))
  /\ timers w2 = [CbRenderDisplay]
  /\ map2DRendered w2 = false
  /\ is3D w3 = false
  /\ map2DRendered w3 = true
  /\ timers w3 = [] /\ frames w3 = []
  /\ toggleButton w3 = {| disabled := false; textContent := "Switch to 3D Globe" |}
  /\ calls (canvas2D w3)
     = calls (canvas2D w2)
       ++ blit_ops (width (canvas2D w)) (height (canvas2D w))
            (width (offscreenCanvas w)) (height (offscreenCanvas w))
            (calls (offscreenCanvas w3))
  /\ last (console w3) = Some displayed_entry.
Proof.
  intros [Hf Hd] Ht H3 Hr [Hl Ho] Dl Do He w2 w3.
  assert (E1 : step w Click
               = set_frames [CbToggle]
                   (set_toggleButton {| disabled := true; textContent := "Switching..." |} w)).
  { apply step_Ok. cbn [handler]. rewrite toggle2D3D_outcome, Hd, Hf. reflexivity. }
  set (w1 := set_frames [CbToggle] _) in E1.
  assert (E2 : handler Frame w1 = toggleFrame (set_frames [] w1))
    by (exact (frame_runs w1 CbToggle [] eq_refl)).
  unfold toggleFrame, try_catch in E2.
  rewrite (toggleSwitch_placeholder (set_frames [] w1) H3 Hr) in E2.
  apply step_Ok in E2.
  assert (W2 : w2 = step w1 Frame) by (unfold w2; cbn [run fold_left]; now rewrite E1).
  rewrite E2 in W2. clear E2.
  assert (W3 : w3 = step w2 Timer) by reflexivity.
  clearbody w2 w3.
  assert (T2 : timers w2 = [CbRenderDisplay]) by (rewrite W2; cbn; now rewrite Ht).
  assert (E3 : handler Timer w2 = run_callback CbRenderDisplay (set_timers [] w2))
    by (exact (timer_runs w2 CbRenderDisplay [] T2)).
  destruct (render_display_outcome (set_timers [] w2)) as (v & _ & Fv & Bv & Ev).
  { rewrite W2. split; [exact Hl | exact Ho]. }
  { rewrite W2. exact Dl. }
  { rewrite W2. exact Do. }
  { rewrite W2. exact He. }
  rewrite Ev in E3. apply step_Ok in E3.
  rewrite E3 in W3. clear E3 Ev.
  unfold beside_offscreen in Bv. injection Bv as B1 B2 B3 B4 B5 B6 B7 B8 B9 B10 B11.
  split; [rewrite W2; cbn; unfold placeholder_ops; reflexivity|].
  split; [exact T2|]. split; [rewrite W2; exact Hr|].
  rewrite W3. cbn.
  split; [rewrite B1, W2; reflexivity|]. split; [exact Fv|].
  split; [rewrite B10; reflexivity|]. split; [rewrite B11, W2; reflexivity|].
  split; [rewrite B9, W2; reflexivity|].
  split; [rewrite B4; cbn; rewrite W2; reflexivity|].
  apply last_snoc.
Qed.

(** A resize while the map is on show: both canvases are blank at the new
    size, and the map is composed and shown again when the timer expires. *)
Lemma resize_shown (w : world) (newWidth newHeight : N) :
  is3D w = false -> timers w = [] ->
  loaded w -> drawable (landData w) -> drawable (outlineData w) ->
  newWidth <> 0%N -> newHeight <> 0%N ->
  let w1 := step w (Resize newWidth newHeight) in
  let w2 := run w [Resize newWidth newHeight; Timer] in
  canvas2D w1 = {| width := newWidth; height := newHeight; calls := [] |}
  /\ offscreenCanvas w1 = {| width := newWidth; height := newHeight; calls := [] |}
  /\ timers w1 = [CbRenderDisplay]
  /\ map2DRendered w2 = true
  /\ timers w2 = []
  /\ width (offscreenCanvas w2) = newWidth /\ height (offscreenCanvas w2) = newHeight
  /\ canvas2D w2
     = {| width := newWidth; height := newHeight;
          calls := blit_ops newWidth newHeight newWidth newHeight (calls (offscreenCanvas w2)) |}
  /\ last (console w2) = Some displayed_entry.
Proof.
  intros H3 Ht [Hl Ho] Dl Do Hw Hh w1 w2.
  assert (E1 : w1 = set_timers [CbRenderDisplay]
                      (set_map2DRendered false
                         (set_offscreenCanvas
                            {| width := newWidth; height := newHeight; calls := [] |}
                            (set_canvas2D
                               {| width := newWidth; height := newHeight; calls := [] |} w)))).
  { unfold w1. apply step_Ok. cbn [handler]. run_script. rewrite H3, Hl, Ho. cbn.
    f_equal. apply world_ext; cbn; rewrite ?Ht; reflexivity. }
  assert (E2 : handler Timer w1 = run_callback CbRenderDisplay (set_timers [] w1))
    by (apply (timer_runs w1 CbRenderDisplay []); rewrite E1; reflexivity).
  destruct (render_display_outcome (set_timers [] w1)) as (v & _ & Fv & Bv & Ev).
  { rewrite E1. split; [exact Hl | exact Ho]. }
  { rewrite E1. exact Dl. }
  { rewrite E1. exact Do. }
  { rewrite E1. unfold empty_source. cbn.
    destruct (N.eqb_spec newWidth 0), (N.eqb_spec newHeight 0);
      first [reflexivity | contradiction]. }
  rewrite Ev in E2. apply step_Ok in E2. clear Ev.
  assert (W2 : w2 = step w1 Timer) by reflexivity.
  rewrite E2 in W2. clear E2. clearbody w1 w2.
  unfold beside_offscreen in Bv. injection Bv as B1 B2 B3 B4 B5 B6 B7 B8 B9 B10 B11.
  split; [rewrite E1; reflexivity|]. split; [rewrite E1; reflexivity|].
  split; [rewrite E1; reflexivity|].
  rewrite W2. cbn.
  split; [exact Fv|]. split; [rewrite B10; reflexivity|].
  split; [rewrite B5, E1; reflexivity|]. split; [rewrite B6, E1; reflexivity|].
  split; [rewrite B4, E1; reflexivity|].
  apply last_snoc.
Qed.

End Display.

(** The two datasets can arrive in either order: from a page without data,
    when both parsed datasets are truthy and the 3D builder accepts them,
    both orders of arrival lead to the same world, in which the datasets
    are stored and exactly one pre-render is queued (by the handler of the
    dataset that came second). *)
Theorem datasets_arrive_in_any_order :
  forall (engine : Engine) (w : world) (land_ outline_ : value),
    ToBoolean (landData w) = false -> ToBoolean (outlineData w) = false ->
    ToBoolean land_ = true -> ToBoolean outline_ = true ->
    drawThreeGeo land_ = None -> drawThreeGeo outline_ = None ->
    run w [LandLoaded land_; OutlineLoaded outline_]
    = run w [OutlineLoaded outline_; LandLoaded land_]
    /\ run w [LandLoaded land_; OutlineLoaded outline_]
       = set_timers (timers w ++ [CbRender])
           (set_outlineData outline_ (set_landData land_ w)).
Proof.
  intros engine w land_ outline_ Hl Ho Tl To Gl Go.
  destruct (datasets_commute w land_ outline_ Hl Ho Tl To Gl Go) as [E1 E2].
  split; [now rewrite E1, E2 | exact E1].
Qed.

Lemma datasets_arrive_in_any_order_witness :
  run (engine := an_engine) (initial_world 800 600)
    [LandLoaded triangle_data; OutlineLoaded triangle_data]
  = set_timers [CbRender]
      (set_outlineData triangle_data (set_landData triangle_data (initial_world 800 600))).
Proof.
  exact (proj2 (datasets_arrive_in_any_order an_engine (initial_world 800 600)
                  triangle_data triangle_data eq_refl eq_refl eq_refl eq_refl eq_refl eq_refl)).
Defined.

(** The first switch to 2D before the map was rendered.  From a world in
    3D mode with the button enabled, nothing pending, the flag unset, both
    datasets loaded and drawable and an offscreen canvas that has pixels: a
    click and an animation frame draw the loading placeholder on the visible
    canvas and queue one timer, without rendering; when the timer expires
    the map is rendered and the offscreen bitmap, as rendered, is drawn over
    the placeholder; the page is then in 2D mode, the flag set, the button
    enabled and no callback pending. *)
Theorem first_toggle_renders_then_displays :
  forall (engine : Engine) (w : world),
    button_idle w -> timers w = [] -> is3D w = true -> map2DRendered w = false ->
    loaded w -> drawable (landData w) -> drawable (outlineData w) ->
    empty_source w = false ->
    let w2 := run w [Click; Frame] in
    let w3 := run w [Click; Frame; Timer] in
    calls (canvas2D w2)
    = calls (canvas2D w) ++ placeholder_ops (width (canvas2D w)) (height (canvas2D w))
    /\ timers w2 = [CbRenderDisplay]
    /\ map2DRendered w2 = false
    /\ is3D w3 = false
    /\ map2DRendered w3 = true
    /\ timers w3 = [] /\ frames w3 = []
    /\ toggleButton w3 = {| disabled := false; textContent := "Switch to 3D Globe" |}
    /\ calls (canvas2D w3)
       = calls (canvas2D w2)
         ++ blit_ops (width (canvas2D w)) (height (canvas2D w))
              (width (offscreenCanvas w)) (height (offscreenCanvas w))
              (calls (offscreenCanvas w3))
    /\ last (console w3) = Some displayed_entry.
Proof. intros engine w. apply first_toggle. Qed.

Lemma first_toggle_renders_then_displays_witness :
  map2DRendered (run (engine := an_engine) triangle_world [Click; Frame; Timer]) = true
  /\ last (console (run (engine := an_engine) triangle_world [Click; Frame; Timer]))
     = Some displayed_entry.
Proof.
  pose proof (first_toggle_renders_then_displays an_engine triangle_world
                (conj eq_refl eq_refl) eq_refl eq_refl eq_refl (conj eq_refl eq_refl)
                triangle_data_drawable triangle_data_drawable eq_refl) as H.
  cbv zeta in H. destruct H as (_ & _ & _ & _ & H5 & _ & _ & _ & _ & H10).
  split; [exact H5 | exact H10].
Defined.

(** A resize while the 2D map is on show (2D mode, both datasets loaded and
    drawable, no timer pending, a new size that is not zero): both canvases
    are blank at the new size and one timer is queued; when it expires the
    map is rendered at the new size and the visible canvas holds exactly the
    blit of the offscreen bitmap as rendered. *)
Theorem resize_in_2D_rerenders :
  forall (engine : Engine) (w : world) (newWidth newHeight : N),
    is3D w = false -> timers w = [] ->
    loaded w -> drawable (landData w) -> drawable (outlineData w) ->
    newWidth <> 0%N -> newHeight <> 0%N ->
    let w1 := step w (Resize newWidth newHeight) in
    let w2 := run w [Resize newWidth newHeight; Timer] in
    canvas2D w1 = {| width := newWidth; height := newHeight; calls := [] |}
    /\ offscreenCanvas w1 = {| width := newWidth; height := newHeight; calls := [] |}
    /\ timers w1 = [CbRenderDisplay]
    /\ map2DRendered w2 = true
    /\ timers w2 = []
    /\ width (offscreenCanvas w2) = newWidth /\ height (offscreenCanvas w2) = newHeight
    /\ canvas2D w2
       = {| width := newWidth; height := newHeight;
            calls := blit_ops newWidth newHeight newWidth newHeight
                       (calls (offscreenCanvas w2)) |}
    /\ last (console w2) = Some displayed_entry.
Proof. intros engine w newWidth newHeight. apply resize_shown. Qed.

Lemma resize_in_2D_rerenders_witness :
  map2DRendered (run (engine := an_engine) triangle_world_2D [Resize 800 600; Timer]) = true
  /\ width (canvas2D (run (engine := an_engine) triangle_world_2D [Resize 800 600; Timer]))
     = 800%N.
Proof.
  pose proof (resize_in_2D_rerenders an_engine triangle_world_2D 800 600
                eq_refl eq_refl (conj eq_refl eq_refl)
                triangle_data_drawable triangle_data_drawable
                ltac:(discriminate) ltac:(discriminate)) as H.
  cbv zeta in H. destruct H as (_ & _ & _ & H4 & _ & _ & _ & H8 & _).
  split; [exact H4 | now rewrite H8].
Defined.

(** ** The projection at the edges and on values that are not numbers *)

Section Edges.

Local Open Scope float_scope.

Lemma SFmul_zero_nonneg (c : spec_float) :
  nonneg_SF c = true -> SF64mul (S754_zero false) c = S754_zero false.
Proof. now destruct c as [[] | [] | | [] m e]. Qed.

Lemma zero_scaled (width : float) (my : positive) (ey : Z) (k : float) :
  Prim2SF k = S754_finite false my ey ->
  (2 <= Z.log2 (Zpos my) + 1 + ey)%Z ->
  (0 <? width) = true -> (width <? infinity) = true ->
  0 * (width / k) = 0.
Proof.
  rewrite !FloatAxioms.ltb_spec. intros Hk Hy H0 H1. apply Prim2SF_inj.
  rewrite FloatAxioms.mul_spec, FloatAxioms.div_spec, Hk.
  change (Prim2SF 0) with (S754_zero false) in *.
  change (Prim2SF infinity) with (S754_infinity false) in *.
  apply SFmul_zero_nonneg. apply SFdiv_shape; [apply Prim2SF_valid | | exact Hy].
  now apply positive_finite.
Qed.

Lemma nan_scaled (c : float) : PrimFloat.is_nan (nan * c) = true.
Proof.
  assert (E : nan * c = nan).
  { apply Prim2SF_inj. rewrite FloatAxioms.mul_spec. reflexivity. }
  rewrite E. reflexivity.
Qed.

Lemma x_between (lon width : float) :
  (-180 <=? lon) = true -> (lon <=? 180) = true ->
  (0 <? width) = true -> (width <? infinity) = true ->
  (0 <=? (lon + 180) * (width / 360)) = true
  /\ ((lon + 180) * (width / 360) <=? (180 + 180) * (width / 360)) = true
  /\ (-180 + 180) * (width / 360) = 0.
Proof.
  intros Hlo Hhi H0 H1.
  assert (Z : (-180 + 180) * (width / 360) = 0).
  { change (-180 + 180) with 0.
    apply (zero_scaled width 6333186975989760 (-44)); [reflexivity | | exact H0 | exact H1].
    vm_compute. discriminate. }
  pose proof (x_monotone (-180) lon width eq_refl Hlo Hhi H0 H1) as L.
  rewrite Z in L.
  pose proof (x_monotone lon 180 width Hlo Hhi eq_refl H0 H1) as U.
  now split.
Qed.

Lemma y_between (lat height : float) :
  (-90 <=? lat) = true -> (lat <=? 90) = true ->
  (0 <? height) = true -> (height <? infinity) = true ->
  (0 <=? (90 - lat) * (height / 180)) = true
  /\ ((90 - lat) * (height / 180) <=? (90 - -90) * (height / 180)) = true
  /\ (90 - 90) * (height / 180) = 0.
Proof.
  intros Hlo Hhi H0 H1.
  assert (Z : (90 - 90) * (height / 180) = 0).
  { change (90 - 90) with 0.
    apply (zero_scaled height 6333186975989760 (-45)); [reflexivity | | exact H0 | exact H1].
    vm_compute. discriminate. }
  pose proof (y_monotone lat 90 height Hlo Hhi eq_refl H0 H1) as L.
  rewrite Z in L.
  pose proof (y_monotone (-90) lat height eq_refl Hlo Hhi H0 H1) as U.
  now split.
Qed.

End Edges.

(** On a canvas of positive finite width and height, a position in range
    ([-180 <= lon <= 180], [-90 <= lat <= 90]) is projected between the
    images of the edges: [0 <= x <= x(180)] and [0 <= y <= y(-90)]; no
    coordinate is NaN or negative.  The north-west corner [(90, -180)] is
    projected to [(0, 0)] exactly. *)
Theorem in_range_lands_between_edges :
  forall (engine : Engine) (lat lon width height : float),
    (0 <? width)%float = true -> (width <? infinity)%float = true ->
    (0 <? height)%float = true -> (height <? infinity)%float = true ->
    (-180 <=? lon)%float = true -> (lon <=? 180)%float = true ->
    (-90 <=? lat)%float = true -> (lat <=? 90)%float = true ->
    (exists p east south : point,
        latLonToXY (VNum lat) (VNum lon) width height = inr p
        /\ latLonToXY (VNum lat) (VNum 180) width height = inr east
        /\ latLonToXY (VNum (-90)) (VNum lon) width height = inr south
        /\ (0 <=? x p)%float = true /\ (x p <=? x east)%float = true
        /\ (0 <=? y p)%float = true /\ (y p <=? y south)%float = true)
    /\ latLonToXY (VNum 90) (VNum (-180)) width height
       = inr {| x := 0%float; y := 0%float |}.
Proof.
  intros engine lat lon width height Hw0 Hw1 Hh0 Hh1 Hx0 Hx1 Hy0 Hy1.
  destruct (x_between lon width Hx0 Hx1 Hw0 Hw1) as (X0 & X1 & XZ).
  destruct (y_between lat height Hy0 Hy1 Hh0 Hh1) as (Y0 & Y1 & YZ).
  split.
  - eexists _, _, _. split; [reflexivity|]. split; [reflexivity|]. split; [reflexivity|].
    cbn [x y]. now repeat split.
  - transitivity (inr (A := exn)
                    {| x := ((-180 + 180) * (width / 360))%float;
                       y := ((90 - 90) * (height / 180))%float |});
      [reflexivity | now rewrite XZ, YZ].
Qed.

Lemma in_range_lands_between_edges_witness :
  latLonToXY (engine := an_engine) (VNum 90) (VNum (-180)) 1535 969
  = inr {| x := 0%float; y := 0%float |}.
Proof.
  apply (proj2 (in_range_lands_between_edges an_engine 0 0 1535 969
                  eq_refl eq_refl eq_refl eq_refl eq_refl eq_refl eq_refl eq_refl)).
Defined.

(** [latLonToXY] on coordinates that are not numbers.  On values that are
    not arrays or objects it never throws.  Null counts as 0 (so a position
    [[null, null]] is projected like [[0, 0]]); an undefined latitude gives
    a [y] that is NaN; a latitude given as a string is converted to a number
    by the subtraction, while a longitude given as a string is concatenated
    with '180' before it is converted (the longitude '10' is projected as
    10180). *)
Theorem latLonToXY_on_non_numbers :
  forall (engine : Engine) (width height : float),
    (forall lat lon : value,
        primitive lat = true -> primitive lon = true ->
        exists p : point, latLonToXY lat lon width height = inr p)
    /\ latLonToXY VNull VNull width height = latLonToXY (VNum 0) (VNum 0) width height
    /\ (forall lon : value, primitive lon = true ->
        exists p : point,
          latLonToXY VUndef lon width height = inr p /\ PrimFloat.is_nan (y p) = true)
    /\ (forall lat lon : string,
          latLonToXY (VStr lat) (VStr lon) width height
          = inr {| x := (StringToNumber (lon +:+ NumberToString 180) * (width / 360))%float;
                   y := ((90 - StringToNumber lat) * (height / 180))%float |}).
Proof.
  intros engine width height. repeat split.
  - intros lat lon Hlat Hlon.
    destruct lat; try discriminate; destruct lon; try discriminate; now eexists.
  - intros lon Hlon. destruct lon; try discriminate;
      (eexists; split; [reflexivity|]; cbn [y]; apply nan_scaled).
Qed.

Lemma latLonToXY_on_non_numbers_witness :
  latLonToXY (engine := digits_engine) (VStr "10") (VStr "10") 360 180
  = inr {| x := 10180%float; y := 80%float |}.
Proof.
  destruct (latLonToXY_on_non_numbers digits_engine 360 180) as (_ & _ & _ & H).
  rewrite (H "10" "10"). vm_compute. reflexivity.
Defined.

(** ** A switch to 2D before the data has arrived *)

Section EarlyToggle.

Context {engine : Engine}.

Lemma run_app (w : world) (evs1 evs2 : list event) :
  run w (evs1 ++ evs2) = run (run w evs1) evs2.
Proof. unfold run. apply fold_left_app. Qed.

Lemma early_toggle_outcome (w : world) (land_ outline_ : value) :
  button_idle w -> timers w = [] -> is3D w = true -> map2DRendered w = false ->
  ToBoolean (landData w) = false -> ToBoolean (outlineData w) = false ->
  empty_source w = false ->
  ToBoolean land_ = true -> ToBoolean outline_ = true ->
  drawable land_ -> drawable outline_ ->
  drawThreeGeo land_ = None -> drawThreeGeo outline_ = None ->
  let w' := run w (early_toggle land_ outline_) in
  is3D w' = false
  /\ map2DRendered w' = true
  /\ timers w' = [] /\ frames w' = []
  /\ calls (canvas2D w')
     = calls (canvas2D w)
       ++ placeholder_ops (width (canvas2D w)) (height (canvas2D w))
       ++ blit_ops (width (canvas2D w)) (height (canvas2D w))
            (width (offscreenCanvas w)) (height (offscreenCanvas w))
            (calls (offscreenCanvas w)).
Proof.
  intros [Hf Hd] Ht H3 Hr Hl Ho He Tl To Dl Do Gl Go w'.
  (* the click and its frame *)
  assert (E1 : step w Click
               = set_frames [CbToggle]
                   (set_toggleButton {| disabled := true; textContent := "Switching..." |} w)).
  { apply step_Ok. cbn [handler]. rewrite toggle2D3D_outcome, Hd, Hf. reflexivity. }
  set (w1 := set_frames [CbToggle] _) in E1.
  assert (E2 : handler Frame w1 = toggleFrame (set_frames [] w1))
    by (exact (frame_runs w1 CbToggle [] eq_refl)).
  unfold toggleFrame, try_catch in E2.
  rewrite (toggleSwitch_placeholder (set_frames [] w1) H3 Hr) in E2.
  apply step_Ok in E2.
  set (w2 := set_toggleButton _ _) in E2.
  (* the timer of the placeholder: nothing to render, the blank bitmap is shown *)
  assert (T2 : timers w2 = [CbRenderDisplay]) by (unfold w2; cbn; now rewrite Ht).
  assert (E3 : handler Timer w2 = run_callback CbRenderDisplay (set_timers [] w2))
    by (exact (timer_runs w2 CbRenderDisplay [] T2)).
  cbn [run_callback] in E3.
  assert (R3 : render2DMapOffscreen (set_timers [] w2) = Ok tt (set_timers [] w2)).
  { rewrite render_unfold.
    replace (ToBoolean (landData (set_timers [] w2))) with false by (symmetry; exact Hl).
    reflexivity. }
  rewrite (bind_Ok _ _ _ _ _ R3), display2DMap_outcome in E3.
  replace (empty_source (set_timers [] w2)) with false in E3 by (symmetry; exact He).
  apply step_Ok in E3.
  set (w3 := set_console _ _) in E3.
  (* the datasets *)
  assert (E45 : run w3 [LandLoaded land_; OutlineLoaded outline_]
                = set_timers (timers w3 ++ [CbRender])
                    (set_outlineData outline_ (set_landData land_ w3))).
  { apply datasets_commute; [exact Hl | exact Ho | exact Tl | exact To | exact Gl | exact Go]. }
  set (w5 := set_timers (timers w3 ++ [CbRender]) _) in E45.
  (* the timer of the pre-render *)
  assert (T5 : timers w5 = [CbRender]) by reflexivity.
  assert (E6 : handler Timer w5 = run_callback CbRender (set_timers [] w5))
    by (exact (timer_runs w5 CbRender [] T5)).
  cbn [run_callback] in E6.
  destruct (render_completes (set_timers [] w5) Tl To Dl Do) as (v & Ev & Fv & _).
  pose proof (render_beside (set_timers [] w5)) as Bv. rewrite Ev in Bv.
  unfold keeps, beside_offscreen in Bv. cbn [final] in Bv.
  injection Bv as B1 B2 B3 B4 B5 B6 B7 B8 B9 B10 B11.
  rewrite Ev in E6. apply step_Ok in E6.
  assert (W : w' = v).
  { unfold w', early_toggle.
    change [Click; Frame; Timer; LandLoaded land_; OutlineLoaded outline_; Timer]
      with ([Click; Frame; Timer] ++ [LandLoaded land_; OutlineLoaded outline_] ++ [Timer]).
    rewrite !run_app.
    assert (A : run w [Click; Frame; Timer] = w3)
      by (cbn [run fold_left]; now rewrite E1, E2, E3).
    rewrite A, E45. exact E6. }
  clearbody w'. subst w'.
  split; [rewrite B1; reflexivity|]. split; [exact Fv|].
  split; [rewrite B10; reflexivity|]. split; [rewrite B11; reflexivity|].
  rewrite B4. cbn. unfold placeholder_ops, blit_ops. cbn.
  rewrite <- !app_assoc. reflexivity.
Qed.

End EarlyToggle.

(** A switch to 2D made before the data has arrived leaves a blank map on
    show.  From a page in 3D mode with nothing pending and no data: after
    the click, its frame, the timer of the placeholder, the arrival of both
    datasets (truthy, drawable, accepted by the 3D builder) and the timer of
    their pre-render, the map is rendered (the flag is set) and nothing is
    pending, but the visible canvas holds the placeholder and over it the
    blit of the offscreen bitmap as it was before the render: the callback
    queued by the datasets renders without displaying, so the rendered map
    is not shown until the next toggle or resize. *)
Theorem early_toggle_leaves_stale_canvas :
  forall (engine : Engine) (w : world) (land_ outline_ : value),
    button_idle w -> timers w = [] -> is3D w = true -> map2DRendered w = false ->
    ToBoolean (landData w) = false -> ToBoolean (outlineData w) = false ->
    empty_source w = false ->
    ToBoolean land_ = true -> ToBoolean outline_ = true ->
    drawable land_ -> drawable outline_ ->
    drawThreeGeo land_ = None -> drawThreeGeo outline_ = None ->
    let w' := run w (early_toggle land_ outline_) in
    is3D w' = false
    /\ map2DRendered w' = true
    /\ timers w' = [] /\ frames w' = []
    /\ calls (canvas2D w')
       = calls (canvas2D w)
         ++ placeholder_ops (width (canvas2D w)) (height (canvas2D w))
         ++ blit_ops (width (canvas2D w)) (height (canvas2D w))
              (width (offscreenCanvas w)) (height (offscreenCanvas w))
              (calls (offscreenCanvas w)).
Proof. intros engine w land_ outline_. apply early_toggle_outcome. Qed.

Lemma early_toggle_leaves_stale_canvas_witness :
  map2DRendered (run (engine := an_engine) (initial_world 800 600)
                   (early_toggle triangle_data triangle_data)) = true
  /\ calls (canvas2D (run (engine := an_engine) (initial_world 800 600)
                        (early_toggle triangle_data triangle_data)))
     = placeholder_ops 800 600 ++ blit_ops 800 600 800 600 [].
Proof.
  pose proof (early_toggle_leaves_stale_canvas an_engine (initial_world 800 600)
                triangle_data triangle_data
                (conj eq_refl eq_refl) eq_refl eq_refl eq_refl eq_refl eq_refl eq_refl
                eq_refl eq_refl triangle_data_drawable triangle_data_drawable
                eq_refl eq_refl) as H.
  cbv zeta in H. destruct H as (_ & H2 & _ & _ & H5).
  split; [exact H2 | exact H5].
Defined.
